(** * nim-go-sdk: a shallow embedding of the agent runtime core

    The development follows the Go sources:
    - [Schema]       : tools/schema.go (JSON-schema helpers, [WithThought]);
    - [Memory]       : memory/memory.go and the trace memory;
    - [Manager]      : memory/manager.go ([SimpleManager.Retrieve], [formatMemories]);
    - [Chromem]      : memory/store/chromem/chromem.go (per-owner vector store);
    - [Payments]     : examples/hackathon-starter (scheduled payments, balance
                       guard, scheduler);
    - [Engine]       : engine ([Engine.Run], [Engine.RunConfirmedAction]);
    - [Recording]    : memory/manager.go ([SimpleManager.Record]) and the
                       trace memories of memory/embedder/onnx/onnx.go;
    - [MockEmbedder] : the hash-seeded mock embedder.

    Go maps are reference values, so the schema helpers are modelled over an
    explicit heap of map objects; the other components thread their state
    explicitly.  What lies outside the repository (the standard library's
    JSON, time and formatting functions, SQLite's aggregates, the model
    provider, the Liminal executor, chromem-go's similarity) enters as the
    variables of a section.  [float64] is Rocq's binary64; the [float32]
    arithmetic of the mock embedder is IEEE-754 binary32 as [SpecFloat]
    defines it; strings are byte strings, read as UTF-8 where Go does; times
    are nanoseconds since the Unix epoch. *)

From Stdlib Require Import PrimFloat SpecFloat FloatOps FloatAxioms.
From stdpp Require Import gmap strings list pretty sorting.

(* ===================================================================== *)
(** * tools/schema.go *)
(* ===================================================================== *)

Module Schema.

(** A Go [map[string]interface{}] is a reference to a mutable map object.
    Locations name the map objects of the heap. *)
Abbreviation loc := positive.

(** The dynamic values ([interface{}]) that the schema helpers distinguish
    with type assertions: strings, [[]string] slices, maps (by reference,
    possibly the nil map), and anything else. *)
Inductive value : Type :=
  | VString (s : string)
  | VStrings (l : list string)
  | VMap (l : loc)
  | VNilMap
  | VOther (tag : nat).

#[global] Instance value_eq_dec : EqDecision value.
Proof. solve_decision. Defined.

Abbreviation object := (gmap string value).
Abbreviation heap := (gmap positive (gmap string value)).

(** [make(map[string]interface{})] and map literals: a new map object. *)
Definition make (h : heap) (o : object) : loc * heap :=
  let l := fresh (dom h) in (l, <[l := o]> h).

(** [m[k]] with the comma-ok idiom. *)
Definition index (h : heap) (m : loc) (k : string) : option value :=
  h !! m ≫= (.!! k).

(** [m[k] = v] on a non-nil map. *)
Definition assign (h : heap) (m : loc) (k : string) (v : value) : heap :=
  alter (<[k := v]>) m h.

(** A map-typed argument: a reference or nil. *)
Definition map_value (m : option loc) : value :=
  match m with Some l => VMap l | None => VNilMap end.

(** The entries a [range] over the map visits (none for nil). *)
Definition entries (h : heap) (m : option loc) : object :=
  default ∅ (m ≫= (h !!.)).

Definition string_property (description : string) : object :=
  {[ "type" := VString "string"; "description" := VString description ]}.

(** [ObjectSchema(properties, required...)] *)
Definition ObjectSchema (h : heap) (properties : option loc) (required : list string)
  : loc * heap :=
  let schema : object :=
    {[ "type" := VString "object"; "properties" := map_value properties ]} in
  make h (if bool_decide (0 < length required)
          then <["required" := VStrings required]> schema
          else schema).

(** [StringProperty(description)] *)
Definition StringProperty (h : heap) (description : string) : loc * heap :=
  make h (string_property description).

Definition thought_description : string :=
  "Your reasoning about why you're using this tool and what you expect to accomplish. For write operations, explain your decision-making process.".

(** [WithThought(schema, requireThought)].  The result is [None] when the Go
    code panics (assignment to an entry in a nil [properties] map). *)
Definition WithThought (h : heap) (schema : option loc) (requireThought : bool)
  : option (loc * heap) :=
  (* Clone schema: a new top-level map holding the same values *)
  let '(result, h) := make h (entries h schema) in
  (* Get or create properties map *)
  '(props, h) ←
    match index h result "properties" with
    | Some (VMap p) => Some (p, h)
    | Some VNilMap => None
    | _ => let '(p, h) := make h ∅ in
           Some (p, assign h result "properties" (VMap p))
    end;
  (* Add thought property *)
  let '(thought, h) := StringProperty h thought_description in
  let h := assign h props "thought" (VMap thought) in
  (* Add to required array if needed *)
  let h :=
    if requireThought then
      let required :=
        match index h result "required" with
        | Some (VStrings l) => l
        | _ => []
        end in
      assign h result "required" (VStrings (required ++ ["thought"]))
    else h in
  Some (result, h).

(** [BuildSchemaWithThought(properties, requireThought, required...)] *)
Definition BuildSchemaWithThought (h : heap) (properties : option loc)
    (requireThought : bool) (required : list string) : option (loc * heap) :=
  let '(schema, h) := ObjectSchema h properties required in
  WithThought h (Some schema) requireThought.

(** The [required] list of a schema as a reader sees it. *)
Definition required_of (h : heap) (schema : loc) : option (list string) :=
  match index h schema "required" with
  | Some (VStrings l) => Some l
  | _ => None
  end.

(** No map object of the heap holds a dangling reference. *)
Definition closed (h : heap) : Prop :=
  ∀ l o k l', h !! l = Some o → o !! k = Some (VMap l') → l' ∈ dom h.

Definition value_closed (h : heap) (v : value) : Prop :=
  match v with VMap l => l ∈ dom h | _ => True end.

(** Two values denote the same JSON document down to depth [n]: scalars are
    equal and maps have the same keys with values alike one level further
    down.  Map identity (the location) is not observed. *)
Fixpoint same_value (n : nat) (h1 h2 : heap) (v1 v2 : value) : Prop :=
  match v1, v2 with
  | VString a, VString b => a = b
  | VStrings a, VStrings b => a = b
  | VOther a, VOther b => a = b
  | VNilMap, VNilMap => True
  | VMap l1, VMap l2 =>
      match n with
      | 0 => True
      | S n =>
          match h1 !! l1, h2 !! l2 with
          | Some o1, Some o2 =>
              ∀ k, option_Forall2 (same_value n h1 h2) (o1 !! k) (o2 !! k)
          | _, _ => False
          end
      end
  | _, _ => False
  end.

(** The schemas at [s1] in [h1] and at [s2] in [h2] are the same document. *)
Definition same_schema (h1 : heap) (s1 : loc) (h2 : heap) (s2 : loc) : Prop :=
  ∀ n, same_value n h1 h2 (VMap s1) (VMap s2).

(** The same, leaving one top-level key out of the comparison. *)
Definition same_schema_but (key : string) (h1 : heap) (s1 : loc) (h2 : heap) (s2 : loc)
  : Prop :=
  ∃ o1 o2, h1 !! s1 = Some o1 ∧ h2 !! s2 = Some o2 ∧
    ∀ n k, k ≠ key → option_Forall2 (same_value n h1 h2) (o1 !! k) (o2 !! k).

(** A concrete schema, built the way the tool definitions build theirs:
    [ObjectSchema(map[string]interface{}{"amount": StringProperty("Amount to send")}, "amount")]. *)
Definition amount_schema : loc * loc * heap :=
  let '(amount, h) := StringProperty ∅ "Amount to send" in
  let '(props, h) := make h {[ "amount" := VMap amount ]} in
  let '(schema, h) := ObjectSchema h (Some props) ["amount"] in
  (schema, props, h).

(** The part of [WithThought] after the properties map has been found:
    add the thought property and, if asked, extend the required list. *)
Definition body (h : heap) (result props : loc) (requireThought : bool) : heap :=
  let '(thought, h) := StringProperty h thought_description in
  let h := assign h props "thought" (VMap thought) in
  if requireThought then
    let required :=
      match index h result "required" with
      | Some (VStrings l) => l
      | _ => []
      end in
    assign h result "required" (VStrings (required ++ ["thought"]))
  else h.

(** What a call of [WithThought] establishes about its result. *)
Definition thought_added (h1 : heap) (res : loc) (r : bool) : Prop :=
  ∃ o1 p op sp,
    h1 !! res = Some o1 ∧ o1 !! "properties" = Some (VMap p) ∧
    h1 !! p = Some op ∧ op !! "thought" = Some (VMap sp) ∧
    h1 !! sp = Some (string_property thought_description) ∧
    (r = true → ∃ req, o1 !! "required" = Some (VStrings req)).

(** How the heap after a second [WithThought] differs from the heap before
    it, as far as the objects of the first heap are concerned: only the
    shared properties map changed, and only at its [thought] entry, which
    now points to another string property of the same content. *)
Record retouched (h1 h2 : heap) (p sp1 sp2 : loc) (op : object) : Prop := {
  rt_other : ∀ l, l ∈ dom h1 → l ≠ p → h2 !! l = h1 !! l;
  rt_props1 : h1 !! p = Some op;
  rt_thought1 : op !! "thought" = Some (VMap sp1);
  rt_props2 : h2 !! p = Some (<["thought" := VMap sp2]> op);
  rt_sp1 : h1 !! sp1 = Some (string_property thought_description);
  rt_sp2 : h2 !! sp2 = Some (string_property thought_description)
}.

(** An executable check of [value_closed]. *)
Definition value_closedb (h : heap) (v : value) : bool :=
  match v with VMap l => bool_decide (is_Some (h !! l)) | _ => true end.

(** An executable check of [closed]. *)
Definition closedb (h : heap) : bool :=
  bool_decide (map_Forall (λ _ (o : object),
     map_Forall (λ _ v, value_closedb h v = true) o) h).

(** The required lists after one and after two applications. *)
Definition twice_required (h : heap) (s : option loc) (r : bool)
  : option (option (list string) * option (list string)) :=
  '(res1, h1) ← WithThought h s r;
  '(res2, h2) ← WithThought h1 (Some res1) r;
  Some (required_of h1 res1, required_of h2 res2).

(** What a caller holding [schema] and its properties map [props] observes
    around a call: the [thought] entry of [props] before and after, and
    whether [schema] still refers to [props]. *)
Definition properties_thought_before_after (h : heap) (s props : loc) (r : bool)
  : option (option value * option value * option value) :=
  '(res, h') ← WithThought h (Some s) r;
  Some (index h props "thought", index h' props "thought", index h' s "properties").

(** ** Facts about the heap operations *)

Section facts.
Implicit Types (h : heap) (o : object) (l p : loc) (v : value).

Lemma dom_assign h m k v : dom (assign h m k v) = dom h.
Proof. apply dom_alter_L. Qed.

Lemma lookup_assign_eq h m k v :
  assign h m k v !! m = <[k := v]> <$> h !! m.
Proof. apply lookup_alter_eq. Qed.

Lemma lookup_assign_ne h m m' k v :
  m ≠ m' → assign h m k v !! m' = h !! m'.
Proof. apply lookup_alter_ne. Qed.

Lemma closed_insert h l o :
  closed h →
  (∀ k l', o !! k = Some (VMap l') → l' ∈ dom (<[l := o]> h)) →
  closed (<[l := o]> h).
Proof.
  intros Hc Ho l1 o1 k l' Hl1 Hk.
  destruct (decide (l = l1)) as [->|Hne].
  - rewrite lookup_insert_eq in Hl1. injection Hl1 as <-. eauto.
  - rewrite lookup_insert_ne in Hl1 by done.
    rewrite dom_insert_L. apply elem_of_union_r. eauto.
Qed.

Lemma closed_assign h m k v :
  closed h → value_closed h v → closed (assign h m k v).
Proof.
  intros Hc Hv l1 o1 k1 l' Hl1 Hk. rewrite dom_assign.
  destruct (decide (m = l1)) as [->|Hne].
  - rewrite lookup_assign_eq in Hl1.
    destruct (h !! l1) as [o|] eqn:E; simplify_eq/=.
    destruct (decide (k = k1)) as [->|Hk1].
    + rewrite lookup_insert_eq in Hk. by simplify_eq.
    + rewrite lookup_insert_ne in Hk by done. eauto.
  - rewrite lookup_assign_ne in Hl1 by done. eauto.
Qed.

Lemma string_property_scalar d k v :
  string_property d !! k = Some v → ∃ s, v = VString s.
Proof.
  unfold string_property. intros H.
  apply lookup_insert_Some in H as [[_ <-]|[_ H]]; [eauto|].
  apply lookup_singleton_Some in H as [_ <-]; eauto.
Qed.

Lemma string_property_same n h1 h2 d k :
  option_Forall2 (same_value n h1 h2) (string_property d !! k) (string_property d !! k).
Proof.
  destruct (string_property d !! k) as [v|] eqn:E; constructor.
  apply string_property_scalar in E as [s ->]. by destruct n.
Qed.

Lemma body_post h res p r o op :
  closed h → p ≠ res →
  h !! res = Some o → o !! "properties" = Some (VMap p) → h !! p = Some op →
  closed (body h res p r) ∧ thought_added (body h res p r) res r.
Proof.
  intros Hc Hne Hres Hprops Hp. unfold body, StringProperty, make.
  set (sp := fresh (dom h)).
  assert (Hsp : sp ∉ dom h) by apply is_fresh.
  assert (sp ≠ res) by (intros ->; apply Hsp, elem_of_dom; eauto).
  assert (sp ≠ p) by (intros ->; apply Hsp, elem_of_dom; eauto).
  set (h1 := <[sp := string_property thought_description]> h).
  set (h2 := assign h1 p "thought" (VMap sp)).
  assert (Hc1 : closed h1).
  { apply closed_insert; [done|]. intros k l' E.
    apply string_property_scalar in E as [s E]. discriminate. }
  assert (Hc2 : closed h2).
  { apply closed_assign; [done|]. simpl. unfold h1. rewrite dom_insert_L. set_solver. }
  assert (H2res : h2 !! res = Some o).
  { unfold h2, h1. rewrite lookup_assign_ne, lookup_insert_ne by done. done. }
  assert (H2p : h2 !! p = Some (<["thought" := VMap sp]> op)).
  { unfold h2, h1. rewrite lookup_assign_eq, lookup_insert_ne by done. by rewrite Hp. }
  assert (H2sp : h2 !! sp = Some (string_property thought_description)).
  { unfold h2, h1. rewrite lookup_assign_ne, lookup_insert_eq by done. done. }
  destruct r.
  - split; [by apply closed_assign|].
    eexists _, p, _, sp. split_and!.
    + rewrite lookup_assign_eq, H2res. reflexivity.
    + by rewrite lookup_insert_ne.
    + rewrite lookup_assign_ne by done. exact H2p.
    + apply lookup_insert_eq.
    + rewrite lookup_assign_ne by done. exact H2sp.
    + intros _. eexists. apply lookup_insert_eq.
  - split; [done|].
    exists o, p, (<["thought" := VMap sp]> op), sp. split_and!; try done.
    apply lookup_insert_eq.
Qed.

Lemma WithThought_unfold h s r :
  WithThought h s r =
    let result := fresh (dom h) in
    let h := <[result := entries h s]> h in
    '(props, h) ←
      match index h result "properties" with
      | Some (VMap p) => Some (p, h)
      | Some VNilMap => None
      | _ => let p := fresh (dom h) in
             Some (p, assign (<[p := ∅]> h) result "properties" (VMap p))
      end;
    Some (result, body h result props r).
Proof. reflexivity. Qed.

Lemma entries_closed h s k l' :
  closed h → entries h s !! k = Some (VMap l') → l' ∈ dom h.
Proof.
  intros Hc. unfold entries. destruct s as [s|]; simpl; [|by rewrite lookup_empty].
  destruct (h !! s) as [o|] eqn:E; simpl; [|by rewrite lookup_empty]. eauto.
Qed.

Lemma WithThought_post h s r res h1 :
  closed h → WithThought h s r = Some (res, h1) →
  closed h1 ∧ thought_added h1 res r.
Proof.
  intros Hc. rewrite WithThought_unfold. cbv zeta.
  set (res0 := fresh (dom h)). set (os := entries h s).
  assert (Hres0 : res0 ∉ dom h) by apply is_fresh.
  set (ha := <[res0 := os]> h).
  assert (Hca : closed ha).
  { apply closed_insert; [done|]. intros k l' E. rewrite dom_insert_L.
    apply elem_of_union_r. by eapply entries_closed. }
  assert (Hidx : index ha res0 "properties" = os !! "properties").
  { unfold index, ha. by rewrite lookup_insert_eq. }
  rewrite Hidx.
  assert (Hfresh :
    Some (res0, body (assign (<[fresh (dom ha) := ∅]> ha) res0 "properties"
                        (VMap (fresh (dom ha)))) res0 (fresh (dom ha)) r) = Some (res, h1) →
    closed h1 ∧ thought_added h1 res r).
  { intros [= <- <-].
    set (p := fresh (dom ha)).
    assert (Hp : p ∉ dom ha) by apply is_fresh.
    assert (p ≠ res0).
    { intros E. apply Hp. rewrite E. unfold ha. rewrite dom_insert_L. set_solver. }
    eapply body_post.
    - apply closed_assign.
      + apply closed_insert; [done|]. intros k l'. by rewrite lookup_empty.
      + simpl. rewrite dom_insert_L. set_solver.
    - done.
    - rewrite lookup_assign_eq, lookup_insert_ne by done.
      unfold ha. rewrite lookup_insert_eq. reflexivity.
    - apply lookup_insert_eq.
    - rewrite lookup_assign_ne by done. apply lookup_insert_eq. }
  destruct (os !! "properties") as [[a|a|p| |a]|] eqn:E; simpl;
    try exact Hfresh; [|done].
  intros [= <- <-].
  assert (Hp : p ∈ dom h) by (by eapply entries_closed).
  assert (p ≠ res0) by (by intros ->).
  apply elem_of_dom in Hp as [op Hop].
  eapply body_post; eauto.
  - unfold ha. apply lookup_insert_eq.
  - unfold ha. rewrite lookup_insert_ne by done. exact Hop.
Qed.

Lemma value_closed_lookup h l o k v :
  closed h → h !! l = Some o → o !! k = Some v → value_closed h v.
Proof. intros Hc Hl Hk. destruct v; simpl; eauto. Qed.

Lemma same_value_frame h1 h2 p sp1 sp2 op :
  closed h1 → retouched h1 h2 p sp1 sp2 op →
  ∀ n v, value_closed h1 v → same_value n h2 h1 v v.
Proof.
  intros Hc [Ho Hp1 Ht1 Hp2 Hs1 Hs2].
  induction n as [|n IH]; intros [a|a|l| |a] Hv; simpl; try done.
  pose proof Hv as Hdom. apply elem_of_dom in Hv as [o Hl].
  destruct (decide (l = p)) as [->|Hne].
  - rewrite Hp2, Hp1. intros k. destruct (decide (k = "thought")) as [->|Hk].
    + rewrite lookup_insert_eq, Ht1. constructor.
      destruct n; simpl; [done|]. rewrite Hs2, Hs1.
      intros k. apply string_property_same.
    + rewrite lookup_insert_ne by done.
      destruct (op !! k) as [v|] eqn:E; constructor.
      apply IH. by apply (value_closed_lookup h1 p op k).
  - rewrite Ho, Hl by done. intros k.
    destruct (o !! k) as [v|] eqn:E; constructor.
    apply IH. by apply (value_closed_lookup h1 l o k).
Qed.

Lemma WithThought_shared h s r o p op :
  h !! s = Some o → o !! "properties" = Some (VMap p) → h !! p = Some op →
  ∃ sp res h',
    WithThought h (Some s) r = Some (res, h') ∧
    (res ∉ dom h) ∧ (sp ∉ dom h) ∧
    h' !! res =
      Some (if r then <["required" :=
                         VStrings (default [] (required_of h s) ++ ["thought"])]> o
            else o) ∧
    h' !! p = Some (<["thought" := VMap sp]> op) ∧
    h' !! sp = Some (string_property thought_description) ∧
    ∀ l, l ∈ dom h → l ≠ p → h' !! l = h !! l.
Proof.
  intros Hs Hprops Hp.
  rewrite WithThought_unfold. cbv zeta.
  set (res := fresh (dom h)).
  assert (Hres : res ∉ dom h) by apply is_fresh.
  assert (Hent : entries h (Some s) = o) by (unfold entries; simpl; by rewrite Hs).
  rewrite Hent. set (ha := <[res := o]> h).
  assert (Hidx : index ha res "properties" = Some (VMap p)).
  { unfold index, ha. by rewrite lookup_insert_eq. }
  rewrite Hidx. simpl. unfold body, StringProperty, make.
  set (sp := fresh (dom ha)).
  assert (Hsp : sp ∉ dom ha) by apply is_fresh.
  assert (Hsub : dom h ⊆ dom ha) by apply dom_insert_subseteq.
  assert (sp ≠ res).
  { intros E. apply Hsp. rewrite E. apply elem_of_dom. unfold ha.
    rewrite lookup_insert_eq. eauto. }
  assert (Hsp' : sp ∉ dom h) by (intros E; by apply Hsp, Hsub).
  assert (p ≠ res) by (intros ->; apply Hres, elem_of_dom; eauto).
  assert (p ≠ sp) by (intros ->; apply Hsp', elem_of_dom; eauto).
  set (hb := <[sp := string_property thought_description]> ha).
  set (hc := assign hb p "thought" (VMap sp)).
  assert (Hcres : hc !! res = Some o).
  { unfold hc, hb, ha.
    rewrite lookup_assign_ne, lookup_insert_ne, lookup_insert_eq by done. done. }
  assert (Hcp : hc !! p = Some (<["thought" := VMap sp]> op)).
  { unfold hc, hb, ha.
    rewrite lookup_assign_eq, !lookup_insert_ne by done. by rewrite Hp. }
  assert (Hcsp : hc !! sp = Some (string_property thought_description)).
  { unfold hc, hb. by rewrite lookup_assign_ne, lookup_insert_eq by done. }
  assert (Hco : ∀ l, l ∈ dom h → l ≠ p → hc !! l = h !! l).
  { intros l Hl Hlp.
    assert (l ≠ res) by (by intros ->). assert (l ≠ sp) by (by intros ->).
    unfold hc, hb, ha. by rewrite lookup_assign_ne, !lookup_insert_ne by done. }
  exists sp, res. destruct r.
  - eexists. split; [reflexivity|]. split_and!; try done.
    + rewrite lookup_assign_eq, Hcres. simpl. do 3 f_equal.
      unfold required_of, index. rewrite Hcres, Hs. simpl.
      by destruct (o !! "required") as [[]|].
    + by rewrite lookup_assign_ne.
    + by rewrite lookup_assign_ne.
    + intros l Hl Hlp. rewrite lookup_assign_ne; [by apply Hco|]. by intros ->.
  - eexists. split; [reflexivity|]. done.
Qed.

Lemma WithThought_again h1 res1 r :
  closed h1 → thought_added h1 res1 r →
  ∃ o1 p op sp1 sp2 res2 h2,
    WithThought h1 (Some res1) r = Some (res2, h2) ∧
    h1 !! res1 = Some o1 ∧
    h2 !! res2 =
      Some (if r then <["required" :=
                         VStrings (default [] (required_of h1 res1) ++ ["thought"])]> o1
            else o1) ∧
    (r = true → is_Some (required_of h1 res1)) ∧
    retouched h1 h2 p sp1 sp2 op.
Proof.
  intros Hc (o1 & p & op & sp1 & Hres1 & Hprops & Hp & Hth & Hsp1 & Hreq).
  destruct (WithThought_shared h1 res1 r o1 p op) as
    (sp2 & res2 & h2 & Hrun & Hres2 & Hsp2 & H2res & H2p & H2sp & H2o); try done.
  exists o1, p, op, sp1, sp2, res2, h2. split_and!; try done.
  intros ->. destruct (Hreq eq_refl) as [req Hr].
  exists req. unfold required_of, index. by rewrite Hres1; simpl; rewrite Hr.
Qed.

Lemma same_schema_required h1 s1 h2 s2 :
  same_schema h1 s1 h2 s2 → required_of h1 s1 = required_of h2 s2.
Proof.
  intros H. specialize (H 1). simpl in H. unfold required_of, index.
  destruct (h1 !! s1) as [o1|], (h2 !! s2) as [o2|]; try done. simpl.
  destruct (H "required") as [x y Hxy|]; [|done].
  destruct x, y; simpl in Hxy; try done. by subst.
Qed.

(** C7 (amended).  Applying [WithThought] to its own result: without
    [requireThought] the second result is the same schema as the first; with
    [requireThought] it is the same schema except for [required], which has
    gained one more "thought". *)
Theorem WithThought_twice h s r res1 h1 :
  closed h → WithThought h s r = Some (res1, h1) →
  ∃ res2 h2, WithThought h1 (Some res1) r = Some (res2, h2) ∧
    if r then
      same_schema_but "required" h2 res2 h1 res1 ∧
      ∃ req, required_of h1 res1 = Some req ∧
             required_of h2 res2 = Some (req ++ ["thought"])
    else same_schema h2 res2 h1 res1.
Proof.
  intros Hc Hrun. destruct (WithThought_post _ _ _ _ _ Hc Hrun) as [Hc1 Hadded].
  destruct (WithThought_again _ _ _ Hc1 Hadded) as
    (o1 & p & op & sp1 & sp2 & res2 & h2 & Hrun2 & H1 & H2 & Hreq & Hrt).
  exists res2, h2. split; [done|].
  assert (Hframe : ∀ n k, option_Forall2 (same_value n h2 h1) (o1 !! k) (o1 !! k)).
  { intros n k. destruct (o1 !! k) as [v|] eqn:E; constructor.
    eapply same_value_frame; [done..|]. by apply (value_closed_lookup h1 res1 o1 k). }
  destruct r.
  - split.
    + eexists _, o1. split_and!; [done..|]. intros n k Hk.
      rewrite lookup_insert_ne by done. apply Hframe.
    + destruct (Hreq eq_refl) as [req Hr]. exists req. split; [done|].
      unfold required_of, index. rewrite H2. simpl.
      rewrite lookup_insert_eq. by rewrite Hr.
  - intros [|n]; simpl; [done|]. rewrite H2, H1. apply Hframe.
Qed.

Lemma closedb_closed h : closedb h = true → closed h.
Proof.
  unfold closedb. intros H%bool_decide_eq_true_1 l o k l' Hl Hk.
  apply elem_of_dom. pose proof (H l o Hl k (VMap l') Hk) as Hv.
  simpl in Hv. by apply bool_decide_eq_true_1 in Hv.
Qed.


Lemma twice_required_inv h s r a b :
  twice_required h s r = Some (a, b) →
  ∃ res1 h1 res2 h2,
    WithThought h s r = Some (res1, h1) ∧
    WithThought h1 (Some res1) r = Some (res2, h2) ∧
    required_of h1 res1 = a ∧ required_of h2 res2 = b.
Proof.
  unfold twice_required. intros H.
  destruct (WithThought h s r) as [[res1 h1]|] eqn:E1; [|done]. simpl in H.
  destruct (WithThought h1 (Some res1) r) as [[res2 h2]|] eqn:E2; [|done]. simpl in H.
  injection H as <- <-. by exists res1, h1, res2, h2.
Qed.

Lemma is_Some_true {A} (x : option A) :
  match x with Some _ => true | None => false end = true → is_Some x.
Proof. destruct x; [eauto|done]. Qed.

Lemma amount_schema_closed : closed (amount_schema.2).
Proof. apply closedb_closed. vm_compute. reflexivity. Qed.

Lemma amount_schema_once r :
  is_Some (WithThought amount_schema.2 (Some amount_schema.1.1) r).
Proof. apply is_Some_true. destruct r; vm_compute; reflexivity. Qed.

(** [WithThought_twice] at the amount schema. *)
Lemma WithThought_twice_witness :
  match WithThought amount_schema.2 (Some amount_schema.1.1) false with
  | Some (res1, h1) =>
      ∃ res2 h2, WithThought h1 (Some res1) false = Some (res2, h2) ∧
                 same_schema h2 res2 h1 res1
  | None => False
  end.
Proof.
  destruct (amount_schema_once false) as [[res1 h1] E]. rewrite E.
  exact (WithThought_twice _ _ false _ _ amount_schema_closed E).
Defined.

(** C7 as stated fails when [requireThought] is set: on the amount schema
    the required list is [amount; thought] after one application and
    [amount; thought; thought] after two. *)
Lemma WithThought_twice_required_differs :
  ∃ res1 h1 res2 h2,
    WithThought amount_schema.2 (Some amount_schema.1.1) true = Some (res1, h1) ∧
    WithThought h1 (Some res1) true = Some (res2, h2) ∧
    required_of h1 res1 = Some ["amount"; "thought"] ∧
    required_of h2 res2 = Some ["amount"; "thought"; "thought"] ∧
    ¬ same_schema h2 res2 h1 res1.
Proof.
  destruct (twice_required_inv amount_schema.2 (Some amount_schema.1.1) true
              (Some ["amount"; "thought"]) (Some ["amount"; "thought"; "thought"]))
    as (res1 & h1 & res2 & h2 & E1 & E2 & R1 & R2).
  { vm_compute. reflexivity. }
  exists res1, h1, res2, h2. split_and!; try done.
  intros H%same_schema_required. congruence.
Qed.

Lemma properties_thought_before_after_inv h s props r a b c :
  properties_thought_before_after h s props r = Some (a, b, c) →
  index h props "thought" = a ∧
  ∃ res h', WithThought h (Some s) r = Some (res, h') ∧
            index h' props "thought" = b ∧ index h' s "properties" = c.
Proof.
  unfold properties_thought_before_after. intros H.
  destruct (WithThought h (Some s) r) as [[res h']|] eqn:E; [|done]. simpl in H.
  injection H as <- <- <-. split; [done|]. by exists res, h'.
Qed.

(** X3.  Whenever the input schema has a properties map, the result shares
    that very map object, which has acquired the [thought] entry; the
    top-level map of the input and every other object are left as they
    were. *)
Lemma WithThought_shares_properties h s r o p op :
  h !! s = Some o → o !! "properties" = Some (VMap p) → h !! p = Some op →
  ∃ res h', WithThought h (Some s) r = Some (res, h') ∧
    index h' res "properties" = Some (VMap p) ∧
    is_Some (index h' p "thought") ∧
    (∀ l, l ∈ dom h → l ≠ p → h' !! l = h !! l).
Proof.
  intros Hs Hprops Hp.
  destruct (WithThought_shared h s r o p op) as
    (sp & res & h' & Hrun & Hres & Hsp & H'res & H'p & H'sp & H'o); try done.
  exists res, h'. split_and!; try done.
  - unfold index. rewrite H'res. simpl. destruct r; [|done].
    by rewrite lookup_insert_ne.
  - unfold index. rewrite H'p. simpl. rewrite lookup_insert_eq. eauto.
Qed.

(** C8 at a concrete input.  The caller builds the amount schema and calls
    [WithThought] on it.  Before the call the schema's own properties map has
    no "thought" entry; after the call the same schema, still referring to the
    same properties map, finds a "thought" entry in it. *)
Theorem WithThought_input_properties_acquire_thought :
  let h := amount_schema.2 in
  let s := amount_schema.1.1 in
  let props := amount_schema.1.2 in
  index h s "properties" = Some (VMap props) ∧
  index h props "thought" = None ∧
  ∃ res h', WithThought h (Some s) false = Some (res, h') ∧
    index h' s "properties" = Some (VMap props) ∧
    is_Some (index h' props "thought").
Proof.
  intros h s props.
  destruct (properties_thought_before_after_inv h s props false
              None (Some (VMap 5)) (Some (VMap props)))
    as (Hbefore & res & h' & Hrun & Hafter & Hsame).
  { vm_compute. reflexivity. }
  split; [vm_compute; reflexivity|]. split; [done|].
  exists res, h'. split_and!; try done.
Qed.

(** ** The builder as the tool definitions use it *)

(** What the body of [WithThought] leaves of the result's own entries: all
    of them, [required] apart when it is asked to extend it. *)
Lemma body_index_result h res p r k :
  res ∈ dom h → p ≠ res → (r = true → k ≠ "required") →
  index (body h res p r) res k = index h res k.
Proof.
  intros Hres Hp Hk. unfold body, StringProperty, make.
  set (sp := fresh (dom h)).
  assert (sp ≠ res) by (intros E; apply (is_fresh (dom h)); fold sp; by rewrite E).
  set (h2 := assign (<[sp := string_property thought_description]> h) p "thought"
               (VMap sp)).
  assert (H2 : h2 !! res = h !! res).
  { unfold h2. by rewrite lookup_assign_ne, lookup_insert_ne. }
  destruct r.
  - unfold index. rewrite lookup_assign_eq, H2.
    destruct (h !! res) as [o|]; simpl; [|done].
    rewrite lookup_insert_ne; [done|]. intros E. by apply Hk.
  - unfold index. by rewrite H2.
Qed.

(** X1.  [BuildSchemaWithThought(properties, requireThought, required...)]
    on a properties map returns a new object schema whose [properties] is
    the caller's map, to which a [thought] string property has been added,
    and whose [required] list is the given one followed by "thought" when
    the thought is required, the given one when it is not (absent when
    empty); no other map object is touched. *)
Theorem BuildSchemaWithThought_builds h props op r required :
  h !! props = Some op →
  ∃ res sp h',
    BuildSchemaWithThought h (Some props) r required = Some (res, h') ∧
    (res ∉ dom h) ∧ (sp ∉ dom h) ∧
    index h' res "type" = Some (VString "object") ∧
    index h' res "properties" = Some (VMap props) ∧
    h' !! props = Some (<["thought" := VMap sp]> op) ∧
    h' !! sp = Some (string_property thought_description) ∧
    required_of h' res =
      (if r then Some (required ++ ["thought"])
       else if bool_decide (0 < length required) then Some required else None) ∧
    ∀ l, l ∈ dom h → l ≠ props → h' !! l = h !! l.
Proof.
  intros Hp. unfold BuildSchemaWithThought, ObjectSchema, make.
  set (s := fresh (dom h)).
  assert (Hs : s ∉ dom h) by apply is_fresh.
  assert (Hps : props ≠ s) by (intros ->; apply Hs, elem_of_dom; eauto).
  set (base := {[ "type" := VString "object"; "properties" := map_value (Some props) ]}
               : object).
  set (o := if bool_decide (0 < length required)
            then <["required" := VStrings required]> base else base).
  set (h0 := <[s := o]> h).
  assert (Hbase : ∀ k, k ≠ "required" → o !! k = base !! k).
  { intros k Hk. unfold o. case_bool_decide; [|done]. by rewrite lookup_insert_ne. }
  assert (Hreq : default [] (required_of h0 s) = required ∧
                 required_of h0 s =
                   if bool_decide (0 < length required) then Some required else None).
  { unfold required_of, index, h0, o. rewrite lookup_insert_eq. simpl.
    case_bool_decide as Hlen.
    - by rewrite lookup_insert_eq.
    - unfold base. rewrite !lookup_insert_ne, lookup_singleton_ne by done.
      split; [|done]. simpl. destruct required; [done|simpl in Hlen; lia]. }
  destruct Hreq as [Hdefault Hreq].
  destruct (WithThought_shared h0 s r o props op) as
    (sp & res & h' & Hrun & Hres & Hsp & H'res & H'p & H'sp & H'o).
  { unfold h0. apply lookup_insert_eq. }
  { rewrite Hbase by done. unfold base.
    rewrite lookup_insert_ne by done. apply lookup_singleton_eq. }
  { unfold h0. by rewrite lookup_insert_ne. }
  assert (Hsub : dom h ⊆ dom h0) by apply dom_insert_subseteq.
  exists res, sp, h'. split_and!; try done.
  - intros E. by apply Hres, Hsub.
  - intros E. by apply Hsp, Hsub.
  - unfold index. rewrite H'res. simpl.
    transitivity (o !! "type").
    + destruct r; [by rewrite lookup_insert_ne|done].
    + rewrite Hbase by done. apply lookup_insert_eq.
  - unfold index. rewrite H'res. simpl.
    transitivity (o !! "properties").
    + destruct r; [by rewrite lookup_insert_ne|done].
    + rewrite Hbase by done. unfold base.
      rewrite lookup_insert_ne by done. apply lookup_singleton_eq.
  - unfold required_of at 1. unfold index. rewrite H'res. simpl. destruct r.
    + rewrite lookup_insert_eq. by rewrite Hdefault.
    + unfold o. case_bool_decide.
      * by rewrite lookup_insert_eq.
      * unfold base. by rewrite !lookup_insert_ne, lookup_singleton_ne by done.
  - intros l Hl Hlp.
    assert (l ≠ s) by (by intros ->).
    rewrite H'o; [|by apply Hsub|done]. unfold h0. by rewrite lookup_insert_ne.
Qed.

(** [BuildSchemaWithThought_builds] at the schema of a one-property tool:
    [BuildSchemaWithThought(map[string]interface{}{"query": ...}, true, "query")]. *)
Lemma BuildSchemaWithThought_builds_witness :
  let '(query, h) := StringProperty ∅ "Search query" in
  let '(props, h) := make h {[ "query" := VMap query ]} in
  ∃ res h', BuildSchemaWithThought h (Some props) true ["query"] = Some (res, h') ∧
            required_of h' res = Some ["query"; "thought"] ∧
            index h' res "properties" = Some (VMap props).
Proof.
  destruct (StringProperty ∅ "Search query") as [query h0] eqn:E0.
  destruct (make h0 {[ "query" := VMap query ]}) as [props h] eqn:E1.
  destruct (BuildSchemaWithThought_builds h props {[ "query" := VMap query ]} true
              ["query"]) as (res & sp & h' & Hrun & _ & _ & _ & Hprops & _ & _ & Hreq & _).
  - unfold make in E1. injection E1 as <- <-. apply lookup_insert_eq.
  - exists res, h'. by split_and!.
Defined.

(** X2.  A schema whose [properties] entry is a nil map makes [WithThought]
    panic (assignment to an entry in a nil map); this is what
    [BuildSchemaWithThought] does when it is given nil for the properties. *)
Theorem WithThought_nil_properties :
  (∀ h s r, index h s "properties" = Some VNilMap → WithThought h (Some s) r = None) ∧
  (∀ h r required, BuildSchemaWithThought h None r required = None).
Proof.
  assert (Hnil : ∀ h s r, index h s "properties" = Some VNilMap →
                          WithThought h (Some s) r = None).
  { intros h s r Hidx. rewrite WithThought_unfold. cbv zeta.
    unfold index at 1. rewrite lookup_insert_eq. simpl.
    unfold index in Hidx. unfold entries. simpl.
    destruct (h !! s) as [o|]; simpl in *; [|done]. by rewrite Hidx. }
  split; [exact Hnil|].
  intros h r required. unfold BuildSchemaWithThought, ObjectSchema, make.
  apply Hnil. unfold index. rewrite lookup_insert_eq. simpl.
  case_bool_decide.
  - rewrite !lookup_insert_ne by done. apply lookup_singleton_eq.
  - rewrite lookup_insert_ne by done. apply lookup_singleton_eq.
Qed.

(** [WithThought_shares_properties] at the amount schema. *)
Lemma WithThought_shares_properties_witness :
  ∃ res h',
    WithThought amount_schema.2 (Some amount_schema.1.1) true = Some (res, h') ∧
    index h' res "properties" = Some (VMap amount_schema.1.2) ∧
    is_Some (index h' amount_schema.1.2 "thought").
Proof.
  destruct (WithThought_shares_properties amount_schema.2 amount_schema.1.1 true
              (default ∅ (amount_schema.2 !! amount_schema.1.1))
              amount_schema.1.2
              (default ∅ (amount_schema.2 !! amount_schema.1.2)))
    as (res & h' & Hrun & Hprops & Hthought & _);
    [vm_compute; reflexivity..|].
  by exists res, h'.
Defined.

(** X4.  The result of [WithThought] is a new map object holding the entries
    of the input schema: every key other than [properties] (and than
    [required], when the thought is required) reads as in the input. *)
Theorem WithThought_keeps_entries h s r res h' k :
  closed h → WithThought h s r = Some (res, h') →
  k ≠ "properties" → (r = true → k ≠ "required") →
  (res ∉ dom h) ∧ index h' res k = entries h s !! k.
Proof.
  intros Hc. rewrite WithThought_unfold. cbv zeta.
  set (res0 := fresh (dom h)). set (os := entries h s).
  assert (Hres0 : res0 ∉ dom h) by apply is_fresh.
  set (ha := <[res0 := os]> h).
  assert (Hin : res0 ∈ dom ha).
  { unfold ha. rewrite dom_insert_L. set_solver. }
  assert (Hidx : ∀ k, index ha res0 k = os !! k).
  { intros k0. unfold index, ha. by rewrite lookup_insert_eq. }
  rewrite Hidx.
  assert (Hfresh :
    Some (res0, body (assign (<[fresh (dom ha) := ∅]> ha) res0 "properties"
                        (VMap (fresh (dom ha)))) res0 (fresh (dom ha)) r) = Some (res, h') →
    k ≠ "properties" → (r = true → k ≠ "required") →
    (res ∉ dom h) ∧ index h' res k = os !! k).
  { intros [= <- <-] Hk1 Hk2. split; [done|].
    set (p := fresh (dom ha)).
    assert (Hp : p ∉ dom ha) by apply is_fresh.
    assert (p ≠ res0) by (by intros E; apply Hp; rewrite E).
    rewrite body_index_result; [| |done..].
    - unfold index. rewrite lookup_assign_eq, lookup_insert_ne by done.
      unfold ha. rewrite lookup_insert_eq. simpl. by rewrite lookup_insert_ne.
    - rewrite dom_assign, dom_insert_L. by apply elem_of_union_r. }
  destruct (os !! "properties") as [[a|a|p| |a]|] eqn:E; simpl;
    try exact Hfresh; [|done].
  intros [= <- <-] Hk1 Hk2. split; [done|].
  assert (Hp : p ∈ dom h) by (by eapply entries_closed).
  assert (p ≠ res0) by (by intros ->).
  rewrite body_index_result by done. apply Hidx.
Qed.

(** [WithThought_keeps_entries] at the amount schema and the key [type]. *)
Lemma WithThought_keeps_entries_witness :
  match WithThought amount_schema.2 (Some amount_schema.1.1) true with
  | Some (res, h') => index h' res "type" = Some (VString "object")
  | None => False
  end.
Proof.
  destruct (amount_schema_once true) as [[res h'] E]. rewrite E.
  destruct (WithThought_keeps_entries _ _ _ _ _ "type" amount_schema_closed E)
    as [_ ->]; [done|done|].
  vm_compute. reflexivity.
Defined.

End facts.

End Schema.

(* ===================================================================== *)
(** * Shared vocabulary *)
(* ===================================================================== *)

(** A Go call returning [(T, error)]: the value, or the error's message. *)
Inductive result (A : Type) : Type :=
  | Ok (a : A)
  | Err (e : string).
Arguments Ok {A} a.
Arguments Err {A} e.

(** The line feed character, as a string. *)
Definition newline : string := String (Ascii.ascii_of_nat 10) EmptyString.

(** A [float32] is carried as its IEEE-754 bit pattern: the runtime moves
    embeddings around and leaves the arithmetic to the embedder and to the
    vector database. *)
Abbreviation float32 := N.

(** Dynamic data ([interface{}]) as [encoding/json] produces and consumes it;
    numbers are [float64]. *)
#[local] Unset Elimination Schemes.
Inductive Any : Type :=
  | ANil
  | ABool (b : bool)
  | ANumber (f : float)
  | AString (s : string)
  | AList (l : list Any)
  | AMap (m : list (string * Any)).
#[local] Set Elimination Schemes.

(** Type assertions [v.(string)], [v.(bool)], [v.(float64)],
    [v.([]interface{})], [v.(map[string]interface{})]. *)
Definition as_string (v : option Any) : option string :=
  match v with Some (AString s) => Some s | _ => None end.
Definition as_bool (v : option Any) : option bool :=
  match v with Some (ABool b) => Some b | _ => None end.
Definition as_float64 (v : option Any) : option float :=
  match v with Some (ANumber f) => Some f | _ => None end.
Definition as_list (v : option Any) : option (list Any) :=
  match v with Some (AList l) => Some l | _ => None end.
Definition as_map (v : option Any) : option (list (string * Any)) :=
  match v with Some (AMap m) => Some m | _ => None end.

(** [m[k]] on a decoded object. *)
Fixpoint field (m : list (string * Any)) (k : string) : option Any :=
  match m with
  | [] => None
  | (k', v) :: m => if decide (k' = k) then Some v else field m k
  end.

(* ===================================================================== *)
(** * memory/memory.go, memory/trace_memory.go, memory/manager.go *)
(* ===================================================================== *)

Module Memory.

Record FormatContext : Type := {
  UserID : string;
  Query : string;
  MaxLength : Z
}.

(** The [Memory] interface: an implementation is given by what its methods
    return.  A [time.Time] is carried as its instant, in nanoseconds since
    the Unix epoch. *)
Record Memory : Type := {
  ID : string;
  OwnerID : string;
  ConversationID : string;
  Type_ : string;
  Content : Any;
  Metadata : gmap string Any;
  CreatedAt : Z;
  Format : FormatContext → string;
  Embedding : list float32
}.

(** [truncate(s, maxLen)] *)
Definition truncate (s : string) (maxLen : Z) : string :=
  if bool_decide (Z.of_nat (String.length s) ≤ maxLen)%Z then s
  else if bool_decide (maxLen < 3)%Z then "..."
  else String.substring 0 (Z.to_nat (maxLen - 3)) s +:+ "...".

Record TraceMemory : Type := {
  id : string;
  ownerID : string;
  conversationID : string;
  createdAt : Z;
  embedding : list float32;
  importance : float;
  metadata : gmap string Any;
  Thought : string;
  Action : string;
  Observation : string;
  Success : bool
}.

Section trace_memory.
(** [fmt.Sprintf("%q", s)] and [fmt.Sprintf("%s", v)] of the standard
    library. *)
Variable fmt_q : string → string.
Variable fmt_s : Any → string.

(** [NewTraceMemoryFromStorage] *)
Definition NewTraceMemoryFromStorage (id ownerID conversationID : string)
    (createdAt : Z) (embedding : list float32)
    (thought action observation : string) (success : bool)
    (metadata : gmap string Any) : TraceMemory :=
  {| id := id; ownerID := ownerID; conversationID := conversationID;
     createdAt := createdAt; embedding := embedding;
     importance := 0.5%float; metadata := metadata;
     Thought := thought; Action := action; Observation := observation;
     Success := success |}.

(** [TraceMemory.Content] *)
Definition TraceMemory_Content (t : TraceMemory) : Any :=
  AMap [("thought", AString (Thought t)); ("action", AString (Action t));
        ("observation", AString (Observation t)); ("success", ABool (Success t))].

(** [TraceMemory.Format] *)
Definition TraceMemory_Format (t : TraceMemory) (ctx : FormatContext) : string :=
  let status := if Success t then "Success" else "Failed" in
  let parts := ["[" +:+ status +:+ "] " +:+ Action t] in
  let parts :=
    if bool_decide (0 < String.length (Thought t)) then
      parts ++ ["  Thought: " +:+ fmt_q (truncate (Thought t) (MaxLength ctx ÷ 4))]
    else parts in
  let parts :=
    if bool_decide (0 < String.length (Observation t)) then
      parts ++ ["  Observation: " +:+ fmt_q (truncate (Observation t) (MaxLength ctx ÷ 2))]
    else parts in
  let parts :=
    if Success t then parts
    else match metadata t !! "prevention" with
         | Some prevention => parts ++ ["  Prevention: " +:+ fmt_s prevention]
         | None => parts
         end in
  String.concat newline parts.

(** A [TraceMemory] pointer seen through the [Memory] interface. *)
Definition TraceMemory_Memory (t : TraceMemory) : Memory :=
  {| ID := id t; OwnerID := ownerID t; ConversationID := conversationID t;
     Type_ := "trace"; Content := TraceMemory_Content t;
     Metadata := metadata t; CreatedAt := createdAt t;
     Format := TraceMemory_Format t; Embedding := embedding t |}.
End trace_memory.

(** ** Truncation *)

Lemma length_append (s1 s2 : string) :
  String.length (s1 +:+ s2) = String.length s1 + String.length s2.
Proof. induction s1 as [|a s1 IH]; simpl; [done|]. by rewrite IH. Qed.

Lemma length_substring_0 (n : nat) (s : string) :
  n ≤ String.length s → String.length (String.substring 0 n s) = n.
Proof.
  revert s. induction n as [|n IH]; intros s Hn.
  - by destruct s.
  - destruct s as [|a s]; simpl in *; [lia|]. rewrite IH; [done|lia].
Qed.

Lemma prefix_substring_0 (n : nat) (s : string) :
  String.prefix (String.substring 0 n s) s = true.
Proof.
  revert s. induction n as [|n IH]; intros s.
  - by destruct s.
  - destruct s as [|a s]; simpl; [done|].
    destruct (Ascii.ascii_dec a a); [apply IH|done].
Qed.

(** X5.  [truncate(s, maxLen)] returns [s] itself when [s] has at most
    [maxLen] bytes.  A longer [s] is cut: under a limit of at least 3 to its
    first [maxLen - 3] bytes followed by "...", which makes [maxLen] bytes;
    under a limit below 3 to "...", which exceeds the limit.  The result has
    never more than [max maxLen 3] bytes. *)
Theorem truncate_fits :
  (∀ s maxLen, (Z.of_nat (String.length s) ≤ maxLen)%Z → truncate s maxLen = s) ∧
  (∀ s maxLen, (3 ≤ maxLen < Z.of_nat (String.length s))%Z →
     Z.of_nat (String.length (truncate s maxLen)) = maxLen ∧
     ∃ pre, truncate s maxLen = pre +:+ "..." ∧ String.prefix pre s = true ∧
            Z.of_nat (String.length pre) = (maxLen - 3)%Z) ∧
  (∀ s maxLen, (maxLen < 3)%Z → (maxLen < Z.of_nat (String.length s))%Z →
     truncate s maxLen = "...") ∧
  (∀ s maxLen, (Z.of_nat (String.length (truncate s maxLen)) ≤ maxLen `max` 3)%Z).
Proof.
  assert (Hcut : ∀ s maxLen, (3 ≤ maxLen)%Z → ¬ (Z.of_nat (String.length s) ≤ maxLen)%Z →
            String.length (String.substring 0 (Z.to_nat (maxLen - 3)) s)
            = Z.to_nat (maxLen - 3)).
  { intros s maxLen H3 Hlong. apply length_substring_0. lia. }
  split_and!.
  - intros s maxLen Hfit. unfold truncate. by rewrite bool_decide_eq_true_2.
  - intros s maxLen [H3 Hlong]. unfold truncate.
    rewrite !bool_decide_eq_false_2 by lia. split.
    + rewrite length_append, Hcut by lia. simpl. lia.
    + eexists. split; [reflexivity|]. split; [apply prefix_substring_0|].
      rewrite Hcut by lia. lia.
  - intros s maxLen H3 Hlong. unfold truncate.
    rewrite bool_decide_eq_false_2 by lia. by rewrite bool_decide_eq_true_2.
  - intros s maxLen. unfold truncate.
    case_bool_decide as Hfit; [lia|].
    case_bool_decide as H3; [simpl; lia|].
    rewrite length_append, Hcut by lia. simpl. lia.
Qed.

End Memory.

Module Manager.
Import Memory.

(** The [Store] and [Embedder] interfaces the manager is built from.  A store
    has state (of type [St]); an embedder is a function of the text. *)
Record Store (St : Type) : Type := {
  StoreQuery : St → string → list float32 → Z → St * result (list Memory)
}.
Arguments StoreQuery {St} _ _ _ _ _.

Record Embedder : Type := {
  Embed : string → result (list float32);
  Dimensions : Z
}.

Record Config : Type := {
  Enabled : bool;
  MinSimilarity : float;
  MaxMemoriesPerUser : Z;
  DecayEnabled : bool
}.

Definition DefaultConfig : Config :=
  {| Enabled := false; MinSimilarity := 0.5%float;
     MaxMemoriesPerUser := 1000; DecayEnabled := false |}.

Record SimpleManager (St : Type) : Type := {
  store : Store St;
  embedder : Embedder;
  config : Config
}.
Arguments store {St} _.
Arguments embedder {St} _.
Arguments config {St} _.

(** [NewSimpleManager(store, embedder, config)]; a nil config is [None]. *)
Definition NewSimpleManager {St} (store : Store St) (embedder : Embedder)
    (config : option Config) : SimpleManager St :=
  {| store := store; embedder := embedder;
     config := default DefaultConfig config |}.

(** The loop of [formatMemories]: [parts = append(parts, Sprintf("%d. %s\n", i+1, formatted))]
    for the memories from index [i] on. *)
Fixpoint format_each (ctx : FormatContext) (i : Z) (memories : list Memory)
    (parts : list string) : list string :=
  match memories with
  | [] => parts
  | mem :: memories =>
      let formatted := Format mem ctx in
      format_each ctx (i + 1) memories
        (parts ++ [pretty (i + 1)%Z +:+ ". " +:+ formatted +:+ newline])
  end.

(** [formatMemories(memories, userID, query)] *)
Definition formatMemories (memories : list Memory) (userID query : string) : string :=
  if bool_decide (length memories = 0) then EmptyString
  else
    let parts := ["=== RELEVANT PAST ACTIONS ===" +:+ newline] in
    (* Calculate max length per memory *)
    let maxLengthPerMemory := (2000 ÷ Z.of_nat (length memories))%Z in
    let maxLengthPerMemory :=
      if bool_decide (maxLengthPerMemory < 100)%Z then 100%Z
      else maxLengthPerMemory in
    (* Format each memory *)
    let parts :=
      format_each {| UserID := userID; Query := query;
                     MaxLength := maxLengthPerMemory |} 0 memories parts in
    String.concat newline parts.

(** [SimpleManager.Retrieve(ctx, userID, userMessage)] *)
Definition Retrieve {St} (m : SimpleManager St) (st : St) (userID userMessage : string)
  : St * result string :=
  if negb (Enabled (config m)) then (st, Ok EmptyString)
  else
    match Embed (embedder m) userMessage with
    | Err e => (st, Err ("embed query: " +:+ e))
    | Ok embedding =>
        match StoreQuery (store m) st userID embedding 10 with
        | (st, Err e) => (st, Err ("query store: " +:+ e))
        | (st, Ok memories) =>
            if bool_decide (length memories = 0) then (st, Ok EmptyString)
            else (st, Ok (formatMemories memories userID userMessage))
        end
    end.

(** ** The rendering of the enrichment *)

Lemma format_each_spec ctx i memories parts :
  format_each ctx i memories parts =
  parts ++ imap (λ j mem, pretty (i + Z.of_nat (S j))%Z +:+ ". "
                          +:+ Format mem ctx +:+ newline) memories.
Proof.
  revert i parts. induction memories as [|mem memories IH]; intros i parts; simpl.
  - by rewrite app_nil_r.
  - rewrite IH, <- app_assoc. simpl. do 2 f_equal.
    apply imap_ext. intros j x _. simpl. do 2 f_equal. lia.
Qed.

Lemma max_length_clamped (count : nat) :
  0 < count →
  (if bool_decide (2000 ÷ Z.of_nat count < 100)%Z then 100%Z
   else (2000 ÷ Z.of_nat count)%Z)
  = (100 `max` (2000 `div` Z.of_nat count))%Z.
Proof.
  intros Hc. rewrite Z.quot_div_nonneg by lia.
  case_bool_decide; lia.
Qed.

(** C9.  With the manager enabled, the query embedded and the store
    answering with [memories]: no memories give the empty enrichment; a
    non-empty list of [count] memories is rendered by each memory's own
    [Format], called with the owner, the user's text and
    [max 100 (2000 / count)] as maximum length, the results numbered from 1
    and joined under the header. *)
Theorem Retrieve_renders_memories {St} (m : SimpleManager St) (st st' : St)
    (userID userMessage : string) (embedding : list float32)
    (memories : list Memory) :
  Enabled (config m) = true →
  Embed (embedder m) userMessage = Ok embedding →
  StoreQuery (store m) st userID embedding 10 = (st', Ok memories) →
  Retrieve m st userID userMessage =
    (st', Ok (match memories with
              | [] => EmptyString
              | _ :: _ =>
                  let count := Z.of_nat (length memories) in
                  let ctx := {| UserID := userID; Query := userMessage;
                                MaxLength := (100 `max` (2000 `div` count))%Z |} in
                  String.concat newline
                    (("=== RELEVANT PAST ACTIONS ===" +:+ newline) ::
                     imap (λ i mem, pretty (Z.of_nat (S i)) +:+ ". "
                                    +:+ Format mem ctx +:+ newline) memories)
              end)).
Proof.
  intros Hen Hemb Hq. unfold Retrieve. rewrite Hen, Hemb, Hq. simpl negb. cbv iota.
  destruct memories as [|mem memories]; [done|].
  rewrite bool_decide_eq_false_2 by done.
  unfold formatMemories. rewrite bool_decide_eq_false_2 by done.
  cbv zeta.
  rewrite (max_length_clamped (length (mem :: memories))) by (simpl; lia).
  rewrite format_each_spec. reflexivity.
Qed.

(** Two stored memories that report the length limit they are given. *)
Definition sample_memory (name : string) : Memory :=
  {| ID := name; OwnerID := "u1"; ConversationID := "c1"; Type_ := "trace";
     Content := ANil; Metadata := ∅; CreatedAt := 0;
     Format := λ ctx, name +:+ "/" +:+ pretty (MaxLength ctx);
     Embedding := [] |}.

Definition sample_manager : SimpleManager unit :=
  {| store := {| StoreQuery := λ st _ _ _,
                   (st, Ok [sample_memory "a"; sample_memory "b"]) |};
     embedder := {| Embed := λ _, Ok [1%N]; Dimensions := 1 |};
     config := {| Enabled := true; MinSimilarity := 0.5%float;
                  MaxMemoriesPerUser := 1000; DecayEnabled := false |} |}.

(** [Retrieve_renders_memories] at the sample manager. *)
Lemma Retrieve_renders_memories_witness :
  Retrieve sample_manager () "u1" "hello" =
    ((), Ok ("=== RELEVANT PAST ACTIONS ===" +:+ newline +:+ newline
             +:+ "1. a/1000" +:+ newline +:+ newline
             +:+ "2. b/1000" +:+ newline)).
Proof.
  rewrite (Retrieve_renders_memories sample_manager () () "u1" "hello" [1%N]
             [sample_memory "a"; sample_memory "b"] eq_refl eq_refl eq_refl).
  vm_compute. reflexivity.
Defined.

End Manager.

(* ===================================================================== *)
(** * memory/store/chromem/chromem.go *)
(* ===================================================================== *)

Module Chromem.
Import Memory.

(** ** The chromem-go collection, as far as the store relies on it *)

Record Document : Type := {
  doc_ID : string;
  doc_Metadata : gmap string string;
  doc_Embedding : list float32;
  doc_Content : string
}.

Record Result : Type := {
  res_ID : string;
  res_Metadata : gmap string string;
  res_Embedding : list float32;
  res_Content : string;
  res_Similarity : float32
}.

(** The documents of a collection, by document id. *)
Abbreviation Collection := (gmap string Document).

(** [StoredMemory] *)
Record StoredMemory : Type := {
  sm_Type : string;
  sm_ContentJSON : string;
  sm_Metadata : gmap string string
}.

(** [ChromemStore]: the per-user collections.  The Go map holds pointers to
    collections, so an update of a collection is an update of this map. *)
Record ChromemStore : Type := {
  db : list string;
  collections : gmap string Collection
}.

(** [New()] *)
Definition New : ChromemStore := {| db := []; collections := ∅ |}.

(** A Go map read [m[k]] of a [map[string]string]: the zero value when
    absent. *)
Definition get (m : gmap string string) (k : string) : string :=
  default EmptyString (m !! k).

(** [containsHelper(s, substr)] *)
Definition containsHelper (s substr : string) : bool :=
  existsb (λ i, bool_decide (String.substring i (String.length substr) s = substr))
          (seq 0 (Z.to_nat (Z.of_nat (String.length s)
                            - Z.of_nat (String.length substr) + 1))).

(** [contains(s, substr)] *)
Definition contains (s substr : string) : bool :=
  bool_decide (String.length substr ≤ String.length s) &&
  (bool_decide (s = substr) || bool_decide (String.length substr = 0) ||
   (bool_decide (0 < String.length s) && bool_decide (0 < String.length substr)
    && containsHelper s substr)).

(** [isInsufficientDocsError(err)] for a non-nil error with message [errStr] *)
Definition isInsufficientDocsError (errStr : string) : bool :=
  contains errStr "nResults must be" || contains errStr "number of documents".

(** The collection name chosen by [getOrCreateCollection]. *)
Definition collectionName (userID : string) : string :=
  if bool_decide (userID = EmptyString) then "global" else "user_" +:+ userID.

Section store.
(** chromem-go computes with the embeddings: their similarity, its
    ordering, the normalisation applied to a stored embedding, and the
    embedding function used when a document comes without one. *)
Variable similarity : list float32 → list float32 → float32.
Variable f32_le : float32 → float32 → bool.
Variable normalizeVector : list float32 → list float32.
Variable embeddingFunc : string → result (list float32).
(** [encoding/json], [time] and [fmt] of the standard library. *)
Variable json_Marshal : Any → result string.
Variable json_Unmarshal : string → result Any.
Variable format_RFC3339 : Z → string.
Variable parse_RFC3339 : string → option Z.
Variable fmt_q : string → string.
Variable fmt_s : Any → string.

(** [DB.CreateCollection(name, nil, nil)] *)
Definition CreateCollection (name : string) : result Collection :=
  if bool_decide (name = EmptyString) then Err "collection name is empty"
  else Ok ∅.

(** [Collection.AddDocument(ctx, doc)] *)
Definition AddDocument (c : Collection) (doc : Document) : result Collection :=
  if bool_decide (doc_ID doc = EmptyString) then Err "document ID is empty"
  else if bool_decide (length (doc_Embedding doc) = 0)
          && bool_decide (doc_Content doc = EmptyString)
  then Err "either document embedding or content must be filled"
  else
    match (if bool_decide (length (doc_Embedding doc) = 0)
           then embeddingFunc (doc_Content doc)
           else Ok (normalizeVector (doc_Embedding doc))) with
    | Err e => Err ("couldn't create embedding of document: " +:+ e)
    | Ok embedding =>
        Ok (<[doc_ID doc := {| doc_ID := doc_ID doc;
                               doc_Metadata := doc_Metadata doc;
                               doc_Embedding := embedding;
                               doc_Content := doc_Content doc |}]> c)
    end.

(** A document passes the [where] filter when every filtered key reads the
    wanted value in its metadata. *)
Definition matches (where_ : gmap string string) (d : Document) : Prop :=
  map_Forall (λ k v, get (doc_Metadata d) k = v) where_.

#[local] Instance matches_dec where_ d : Decision (matches where_ d).
Proof. unfold matches. apply _. Defined.

(** [d1] is at least as similar to the query as [d2]. *)
Definition closer (q : list float32) (d1 d2 : Document) : Prop :=
  f32_le (similarity q (doc_Embedding d2)) (similarity q (doc_Embedding d1)) = true.

#[local] Instance closer_dec q d1 d2 : Decision (closer q d1 d2).
Proof. unfold closer. apply _. Defined.

Definition to_Result (q : list float32) (d : Document) : Result :=
  {| res_ID := doc_ID d; res_Metadata := doc_Metadata d;
     res_Embedding := doc_Embedding d; res_Content := doc_Content d;
     res_Similarity := similarity q (doc_Embedding d) |}.

(** The documents whose embedding has not the length of the query's: the
    similarity, a dot product, is not defined for them. *)
Definition mismatched (queryEmbedding : list float32) (docs : list Document)
  : list Document :=
  filter (λ d, length (doc_Embedding d) ≠ length queryEmbedding) docs.

(** [Collection.QueryEmbedding(ctx, queryEmbedding, nResults, where, nil)].
    The similarities are computed concurrently and the first failure is
    the one reported; the model reports the first in the order of the
    collection. *)
Definition QueryEmbedding (c : Collection) (queryEmbedding : list float32)
    (nResults : Z) (where_ : gmap string string) : result (list Result) :=
  if bool_decide (length queryEmbedding = 0) then Err "queryEmbedding is empty"
  else if bool_decide (nResults ≤ 0)%Z then Err "nResults must be > 0"
  else if bool_decide (Z.of_nat (size c) < nResults)%Z
  then Err "nResults must be <= the number of documents in the collection"
  else
    let filteredDocs := filter (matches where_) (map_to_list c).*2 in
    match mismatched queryEmbedding filteredDocs with
    | d :: _ =>
        Err ("couldn't get most similar docs: couldn't calculate similarity for document '"
             +:+ doc_ID d +:+ "': vectors must have the same length")
    | [] =>
        Ok (to_Result queryEmbedding <$>
              take (Z.to_nat nResults) (merge_sort (closer queryEmbedding) filteredDocs))
    end.

(** ** The store *)

(** [getOrCreateCollection(userID)] *)
Definition getOrCreateCollection (s : ChromemStore) (userID : string)
  : ChromemStore * result Collection :=
  match collections s !! userID with
  | Some col => (s, Ok col)
  | None =>
      (* Create new collection for this user *)
      let collectionName := collectionName userID in
      match CreateCollection collectionName with
      | Err e => (s, Err ("create collection: " +:+ e))
      | Ok col =>
          ({| db := db s ++ [collectionName];
              collections := <[userID := col]> (collections s) |}, Ok col)
      end
  end.

(** [serializeMemory(mem)].  The custom metadata are written after the four
    fixed keys and overwrite them on a clash; a non-string value is stored
    as its JSON form, or left out if that cannot be produced. *)
Definition serializeMemory (mem : Memory) : result StoredMemory :=
  match json_Marshal (Content mem) with
  | Err e => Err ("marshal content: " +:+ e)
  | Ok contentBytes =>
      let metadata : gmap string string :=
        {[ "type" := Type_ mem; "owner_id" := OwnerID mem;
           "conversation_id" := ConversationID mem;
           "created_at" := format_RFC3339 (CreatedAt mem) ]} in
      let custom : gmap string string :=
        omap (λ v, match v with
                   | AString str => Some str
                   | _ => match json_Marshal v with
                          | Ok bytes => Some bytes
                          | Err _ => None
                          end
                   end) (Metadata mem) in
      Ok {| sm_Type := Type_ mem; sm_ContentJSON := contentBytes;
            sm_Metadata := custom ∪ metadata |}
  end.

(** [ChromemStore.Store(ctx, mem)] *)
Definition Store (s : ChromemStore) (mem : Memory) : ChromemStore * result unit :=
  match getOrCreateCollection s (OwnerID mem) with
  | (s, Err e) => (s, Err e)
  | (s, Ok col) =>
      match serializeMemory mem with
      | Err e => (s, Err ("serialize memory: " +:+ e))
      | Ok stored =>
          let doc := {| doc_ID := ID mem; doc_Content := sm_ContentJSON stored;
                        doc_Embedding := Embedding mem;
                        doc_Metadata := sm_Metadata stored |} in
          match AddDocument col doc with
          | Err e => (s, Err ("add document: " +:+ e))
          | Ok col =>
              ({| db := db s;
                  collections := <[OwnerID mem := col]> (collections s) |}, Ok ())
          end
      end
  end.

(** The zero [time.Time], which [time.Parse] returns with an error:
    January 1 of the year 1, 00:00:00 UTC. *)
Definition zero_time : Z := (-62135596800 * 1000000000)%Z.

(** What [encoding/json] calls a value that it cannot put into a map. *)
Definition json_kind (v : Any) : string :=
  match v with
  | AString _ => "string"
  | ANumber _ => "number"
  | ABool _ => "bool"
  | AList _ => "array"
  | AMap _ => "object"
  | ANil => "null"
  end.

(** [deserializeTraceMemory(result)] *)
Definition deserializeTraceMemory (r : Result) : result TraceMemory :=
  match json_Unmarshal (res_Content r) with
  | Err e => Err ("unmarshal content: " +:+ e)
  | Ok ((AString _ | ANumber _ | ABool _ | AList _) as v) =>
      Err ("unmarshal content: json: cannot unmarshal " +:+ json_kind v
           +:+ " into Go value of type map[string]interface {}")
  | Ok v =>
      let content := default [] (as_map (Some v)) in
      let thought := default EmptyString (as_string (field content "thought")) in
      let action := default EmptyString (as_string (field content "action")) in
      let observation := default EmptyString (as_string (field content "observation")) in
      let success := default false (as_bool (field content "success")) in
      let createdAt :=
        default zero_time (parse_RFC3339 (get (res_Metadata r) "created_at")) in
      let metadata : gmap string Any :=
        AString <$> filter (λ kv, kv.1 ≠ "type" ∧ kv.1 ≠ "owner_id"
                                  ∧ kv.1 ≠ "conversation_id" ∧ kv.1 ≠ "created_at")
                           (res_Metadata r) in
      Ok (NewTraceMemoryFromStorage (res_ID r)
            (get (res_Metadata r) "owner_id")
            (get (res_Metadata r) "conversation_id")
            createdAt (res_Embedding r)
            thought action observation success metadata)
  end.

(** [deserializeMemory(result)] *)
Definition deserializeMemory (r : Result) : result Memory :=
  let memType := get (res_Metadata r) "type" in
  if bool_decide (memType = "trace") then
    match deserializeTraceMemory r with
    | Ok t => Ok (TraceMemory_Memory fmt_q fmt_s t)
    | Err e => Err e
    end
  else Err ("unknown memory type: " +:+ memType).

(** The retry loop of [Query]: ask for [currentLimit] results and for one
    fewer each time chromem-go reports too few documents. *)
Fixpoint query_retry (col : Collection) (embedding : list float32)
    (where_ : gmap string string) (currentLimit : nat) : result (list Result) :=
  match currentLimit with
  | 0 => Ok []
  | S lower =>
      match QueryEmbedding col embedding (Z.of_nat currentLimit) where_ with
      | Ok results => Ok results
      | Err e =>
          if isInsufficientDocsError e then
            if bool_decide (currentLimit = 1) then Ok []
            else query_retry col embedding where_ lower
          else Err ("chromem query: " +:+ e)
      end
  end.

(** Convert and filter results: those that fail to deserialize are skipped. *)
Definition convert (results : list Result) : list Memory :=
  omap (λ r, match deserializeMemory r with Ok mem => Some mem | Err _ => None end)
       results.

(** [ChromemStore.Query(ctx, userID, embedding, limit)] *)
Definition Query (s : ChromemStore) (userID : string) (embedding : list float32)
    (limit : Z) : ChromemStore * result (list Memory) :=
  match getOrCreateCollection s userID with
  | (s, Err e) => (s, Err e)
  | (s, Ok col) =>
      (* Build where clause for filtering *)
      let where_ : gmap string string := {[ "owner_id" := userID ]} in
      match query_retry col embedding where_ (Z.to_nat limit) with
      | Err e => (s, Err e)
      | Ok results => (s, Ok (convert results))
      end
  end.

(** ** Owner partitioning *)

Lemma QueryEmbedding_matches c q n where_ results r :
  QueryEmbedding c q n where_ = Ok results → r ∈ results →
  ∃ d, r = to_Result q d ∧ matches where_ d ∧ d ∈ (map_to_list c).*2.
Proof.
  unfold QueryEmbedding. repeat case_bool_decide; try done.
  cbv zeta. destruct (mismatched _ _); [|done].
  intros [= <-] (d & -> & Hd)%list_elem_of_fmap.
  exists d. split; [done|].
  apply elem_of_take in Hd as (i & Hd & _).
  apply list_elem_of_lookup_2 in Hd.
  rewrite merge_sort_Permutation in Hd.
  by apply list_elem_of_filter in Hd.
Qed.

Lemma query_retry_matches c q where_ n results r :
  query_retry c q where_ n = Ok results → r ∈ results →
  ∃ d, r = to_Result q d ∧ matches where_ d ∧ d ∈ (map_to_list c).*2.
Proof.
  induction n as [|n IH]; simpl.
  - intros [= <-] Hr. by apply elem_of_nil in Hr.
  - destruct (QueryEmbedding c q _ where_) as [rs|e] eqn:E.
    + intros [= <-]. by eapply QueryEmbedding_matches.
    + destruct (isInsufficientDocsError e); [|done].
      case_bool_decide; [|done].
      intros [= <-] Hr. by apply elem_of_nil in Hr.
Qed.

Lemma deserializeMemory_owner r mem :
  deserializeMemory r = Ok mem → OwnerID mem = get (res_Metadata r) "owner_id".
Proof.
  unfold deserializeMemory. case_bool_decide; [|done].
  unfold deserializeTraceMemory.
  destruct (json_Unmarshal (res_Content r)) as [[]|]; try done;
    by intros [= <-].
Qed.

(** [Store] touches the collection of the stored memory's owner only. *)
Lemma Store_collections_other s mem userID :
  OwnerID mem ≠ userID →
  collections (Store s mem).1 !! userID = collections s !! userID.
Proof.
  intros Hne. unfold Store, getOrCreateCollection.
  destruct (collections s !! OwnerID mem) as [col|]; simpl.
  - destruct (serializeMemory mem) as [stored|]; [|done].
    destruct (AddDocument col _) as [col'|]; [|done]. simpl.
    by rewrite lookup_insert_ne.
  - destruct (CreateCollection _) as [col|]; [|done].
    destruct (serializeMemory mem) as [stored|]; simpl.
    + destruct (AddDocument col _) as [col'|]; simpl;
        by rewrite ?lookup_insert_ne.
    + by rewrite lookup_insert_ne.
Qed.

(** What [Query] answers for a user depends on that user's collection only. *)
Lemma Query_depends s1 s2 userID embedding limit :
  collections s1 !! userID = collections s2 !! userID →
  (Query s1 userID embedding limit).2 = (Query s2 userID embedding limit).2.
Proof.
  intros H. unfold Query, getOrCreateCollection. rewrite H.
  destruct (collections s2 !! userID) as [col|]; simpl.
  - by destruct (query_retry col _ _ _).
  - destruct (CreateCollection _) as [col|]; [|done].
    by destruct (query_retry col _ _ _).
Qed.

(** The collection names keep the users, and the global collection, apart. *)
Lemma collectionName_inj u1 u2 :
  collectionName u1 = collectionName u2 → u1 = u2.
Proof.
  unfold collectionName. repeat case_bool_decide; subst; try done.
  by intros [=].
Qed.

(** C3.  A query against [userID] yields only memories whose owner is
    [userID]; and storing a memory of any other owner, the empty (global)
    owner included, leaves every answer to [userID] as it was. *)
Theorem Query_owner_partition (s : ChromemStore) (userID : string)
    (embedding : list float32) (limit : Z) :
  (∀ s' memories mem,
     Query s userID embedding limit = (s', Ok memories) →
     mem ∈ memories → OwnerID mem = userID) ∧
  (∀ other,
     OwnerID other ≠ userID →
     (Query (Store s other).1 userID embedding limit).2
     = (Query s userID embedding limit).2).
Proof.
  split.
  - intros s' memories mem. unfold Query.
    destruct (getOrCreateCollection s userID) as [s1 [col|e]]; [|done].
    destruct (query_retry col embedding _ _) as [results|e] eqn:E; [|done].
    intros [= _ <-] Hmem. unfold convert in Hmem.
    apply list_elem_of_omap in Hmem as (r & Hr & Hd).
    destruct (deserializeMemory r) as [mem'|] eqn:Hdes; [|done].
    injection Hd as ->. rewrite (deserializeMemory_owner _ _ Hdes).
    destruct (query_retry_matches _ _ _ _ _ _ E Hr) as (d & -> & Hm & _).
    simpl. apply (Hm "owner_id"). apply lookup_singleton_eq.
  - intros other Hne. apply Query_depends. by apply Store_collections_other.
Qed.

(** ** The substring test *)

Lemma append_empty_r (s : string) : s +:+ EmptyString = s.
Proof.
  induction s as [|c s IH]; [done|].
  change (String c (s +:+ EmptyString) = String c s). by rewrite IH.
Qed.

Lemma substring_0_prefix (sub s : string) :
  String.substring 0 (String.length sub) s = sub → ∃ b, s = sub +:+ b.
Proof.
  revert s. induction sub as [|c sub IH]; intros s; simpl.
  - intros _. by exists s.
  - destruct s as [|c' s]; [done|]. intros [= -> Hsub].
    destruct (IH s Hsub) as [b ->]. by exists b.
Qed.

Lemma substring_occurs (i : nat) (s sub : string) :
  String.substring i (String.length sub) s = sub → ∃ a b, s = a +:+ sub +:+ b.
Proof.
  revert s. induction i as [|i IH]; intros s.
  - intros [b ->]%substring_0_prefix. by exists EmptyString, b.
  - destruct s as [|c s]; simpl.
    + intros <-. by exists EmptyString, EmptyString.
    + intros (a & b & ->)%IH. by exists (String c a), b.
Qed.

Lemma substring_append_0 (sub b : string) :
  String.substring 0 (String.length sub) (sub +:+ b) = sub.
Proof.
  induction sub as [|c sub IH]; simpl; [by destruct b|]. by rewrite IH.
Qed.

Lemma substring_append_mid (a sub b : string) :
  String.substring (String.length a) (String.length sub) (a +:+ sub +:+ b) = sub.
Proof. induction a as [|c a IH]; [exact (substring_append_0 sub b)|by simpl]. Qed.

(** X10.  [contains(s, substr)] holds exactly when [substr] occurs in [s]. *)
Theorem contains_occurs (s substr : string) :
  contains s substr = true ↔ ∃ a b, s = a +:+ substr +:+ b.
Proof.
  unfold contains, containsHelper. split.
  - intros [Hlen H]%andb_prop.
    apply orb_prop in H as [H|H]; [apply orb_prop in H as [H|H]|].
    + apply bool_decide_eq_true_1 in H as ->.
      exists EmptyString, EmptyString. simpl. by rewrite append_empty_r.
    + apply bool_decide_eq_true_1 in H. destruct substr; [|done].
      by exists EmptyString, s.
    + apply andb_prop in H as [_ H].
      apply existsb_exists in H as (i & _ & H).
      apply bool_decide_eq_true_1 in H. by eapply substring_occurs.
  - intros (a & b & ->).
    assert (Hlen : String.length (a +:+ substr +:+ b)
                   = String.length a + (String.length substr + String.length b)).
    { by rewrite !length_append. }
    apply andb_true_intro. split; [apply bool_decide_eq_true_2; lia|].
    destruct (decide (String.length substr = 0)) as [Hz|Hnz].
    { apply orb_true_intro. left. apply orb_true_intro. right.
      by apply bool_decide_eq_true_2. }
    apply orb_true_intro. right.
    apply andb_true_intro. split.
    { apply andb_true_intro. split; apply bool_decide_eq_true_2; lia. }
    apply existsb_exists. exists (String.length a). split.
    + apply list_elem_of_In, elem_of_seq. lia.
    + apply bool_decide_eq_true_2. apply substring_append_mid.
Qed.

(** ** Bounds and edge cases of [Query] *)

Lemma length_omap_le {A B} (f : A → option B) (l : list A) :
  length (omap f l) ≤ length l.
Proof. induction l as [|x l IH]; csimpl; [done|]. destruct (f x); csimpl; lia. Qed.

Lemma QueryEmbedding_length c q n where_ results :
  QueryEmbedding c q n where_ = Ok results → length results ≤ Z.to_nat n.
Proof.
  unfold QueryEmbedding. repeat case_bool_decide; try done.
  cbv zeta. destruct (mismatched _ _); [|done].
  intros [= <-]. rewrite length_fmap. apply firstn_le_length.
Qed.

Lemma query_retry_length c q where_ n results :
  query_retry c q where_ n = Ok results → length results ≤ n.
Proof.
  induction n as [|n IH]; cbn [query_retry].
  - by intros [= <-].
  - destruct (QueryEmbedding c q _ where_) as [rs|e] eqn:E.
    + intros [= <-]. apply QueryEmbedding_length in E.
      by rewrite Nat2Z.id in E.
    + destruct (isInsufficientDocsError e); [|done].
      case_bool_decide as Hone; [intros [= <-]; simpl; lia|].
      intros Hrest%IH. lia.
Qed.

(** X6.  [Query] returns at most [limit] memories (none when the limit is
    not positive). *)
Theorem Query_at_most_limit s userID embedding limit s' memories :
  Query s userID embedding limit = (s', Ok memories) →
  length memories ≤ Z.to_nat limit.
Proof.
  unfold Query.
  destruct (getOrCreateCollection s userID) as [s1 [col|e]]; [|done].
  destruct (query_retry col embedding _ _) as [results|e] eqn:E; [|done].
  intros [= _ <-]. apply query_retry_length in E.
  unfold convert. pose proof (length_omap_le
    (λ r, match deserializeMemory r with Ok mem => Some mem | Err _ => None end)
    results). lia.
Qed.

Lemma collectionName_nonempty userID : collectionName userID ≠ EmptyString.
Proof. unfold collectionName. by case_bool_decide. Qed.

Lemma query_retry_empty q where_ n :
  q ≠ [] → query_retry ∅ q where_ n = Ok [].
Proof.
  intros Hq. induction n as [|n IH]; [done|].
  cbn [query_retry]. unfold QueryEmbedding.
  rewrite (bool_decide_eq_false_2 (length q = 0)) by (by destruct q).
  rewrite (bool_decide_eq_false_2 (Z.of_nat (S n) ≤ 0)%Z) by lia.
  rewrite map_size_empty.
  rewrite (bool_decide_eq_true_2 (Z.of_nat 0 < Z.of_nat (S n))%Z) by lia.
  assert (isInsufficientDocsError
            "nResults must be <= the number of documents in the collection" = true)
    as -> by (vm_compute; reflexivity).
  by case_bool_decide.
Qed.

(** X7.  A query for a user the store has not seen before is no error: it
    yields no memories, and leaves the store with an empty collection for
    that user (named "global" for the empty user id). *)
Theorem Query_new_user s userID embedding limit :
  collections s !! userID = None → embedding ≠ [] →
  Query s userID embedding limit =
    ({| db := db s ++ [collectionName userID];
        collections := <[userID := ∅]> (collections s) |}, Ok []).
Proof.
  intros Hnew Hemb. unfold Query, getOrCreateCollection, CreateCollection.
  rewrite Hnew. rewrite bool_decide_eq_false_2 by apply collectionName_nonempty.
  by rewrite query_retry_empty.
Qed.

(** X8.  Distinct users get distinct collection names, and no user id gets
    the name of the global collection. *)
Theorem collectionName_apart u1 u2 :
  u1 ≠ u2 → collectionName u1 ≠ collectionName u2.
Proof. intros Hne E. by apply Hne, collectionName_inj. Qed.

(** ** What survives the round trip through the store *)

(** The metadata keys that [serializeMemory] writes itself. *)
Definition reserved_keys : list string :=
  ["type"; "owner_id"; "conversation_id"; "created_at"].

(** The string that a custom metadata value is stored as. *)
Definition stored_value (v : Any) : option string :=
  match v with
  | AString str => Some str
  | _ => match json_Marshal v with
         | Ok bytes => Some bytes
         | Err _ => None
         end
  end.

(** X9.  A trace memory whose custom metadata use none of the four reserved
    keys is serialised by [serializeMemory] and read back by
    [deserializeMemory] from a result carrying the stored identifier,
    metadata and content.  What comes back has the identifier, the owner and
    the conversation of what went in, and its custom metadata with every
    value turned into a string.  The importance is lost: it comes back as
    0.5.  The creation time comes back as what [time.Parse] makes of its
    RFC 3339 text, the zero time if that is nothing; the thought, the
    action, the observation and the success are read from the decoded
    content, and a content that does not decode makes the read fail. *)
Theorem serialize_deserialize (t : TraceMemory) (stored : StoredMemory) (r : Result) :
  (∀ k, k ∈ reserved_keys → metadata t !! k = None) →
  serializeMemory (TraceMemory_Memory fmt_q fmt_s t) = Ok stored →
  res_ID r = id t → res_Metadata r = sm_Metadata stored →
  res_Content r = sm_ContentJSON stored →
  match json_Unmarshal (sm_ContentJSON stored) with
  | Ok (AMap content) =>
      deserializeMemory r =
        Ok (TraceMemory_Memory fmt_q fmt_s
              {| id := id t; ownerID := ownerID t; conversationID := conversationID t;
                 createdAt :=
                   default (-62135596800000000000)%Z
                     (parse_RFC3339 (format_RFC3339 (createdAt t)));
                 embedding := res_Embedding r;
                 importance := 0.5%float;
                 metadata := AString <$> omap stored_value (metadata t);
                 Thought := default EmptyString (as_string (field content "thought"));
                 Action := default EmptyString (as_string (field content "action"));
                 Observation :=
                   default EmptyString (as_string (field content "observation"));
                 Success := default false (as_bool (field content "success")) |})
  | Ok ANil =>
      ∃ mem, deserializeMemory r = Ok mem ∧ ID mem = id t ∧ OwnerID mem = ownerID t
  | Ok _ => ∃ e, deserializeMemory r = Err ("unmarshal content: json: cannot unmarshal " +:+ e)
  | Err e => deserializeMemory r = Err ("unmarshal content: " +:+ e)
  end.
Proof.
  intros Hkeys Hser Hid Hmeta Hcontent.
  unfold serializeMemory in Hser. simpl in Hser.
  destruct (json_Marshal (TraceMemory_Content t)) as [contentBytes|]; [|done].
  injection Hser as <-. simpl in *.
  set (fixed := ({[ "type" := "trace"; "owner_id" := ownerID t;
                    "conversation_id" := conversationID t;
                    "created_at" := format_RFC3339 (createdAt t) ]}
                 : gmap string string)) in *.
  set (custom := omap _ (metadata t)) in *.
  assert (Hcustom : custom = omap stored_value (metadata t)) by done.
  assert (Hnone : ∀ k, k ∈ reserved_keys → custom !! k = None).
  { intros k Hk. rewrite Hcustom, lookup_omap, (Hkeys k Hk). done. }
  assert (Hget : ∀ k v, k ∈ reserved_keys → fixed !! k = Some v →
                        get (res_Metadata r) k = v).
  { intros k v Hk Hv. unfold get. rewrite Hmeta.
    rewrite lookup_union_r by (by apply Hnone). by rewrite Hv. }
  assert (Htype : get (res_Metadata r) "type" = "trace").
  { apply Hget; [unfold reserved_keys; set_solver|]. apply lookup_insert_eq. }
  assert (Howner : get (res_Metadata r) "owner_id" = ownerID t).
  { apply Hget; [unfold reserved_keys; set_solver|]. unfold fixed.
    rewrite lookup_insert_ne by done. apply lookup_insert_eq. }
  assert (Hconv : get (res_Metadata r) "conversation_id" = conversationID t).
  { apply Hget; [unfold reserved_keys; set_solver|]. unfold fixed.
    rewrite !lookup_insert_ne by done. apply lookup_insert_eq. }
  assert (Hcreated : get (res_Metadata r) "created_at"
                     = format_RFC3339 (createdAt t)).
  { apply Hget; [unfold reserved_keys; set_solver|]. unfold fixed.
    rewrite !lookup_insert_ne by done. apply lookup_singleton_eq. }
  assert (Hfree : filter (λ kv, kv.1 ≠ "type" ∧ kv.1 ≠ "owner_id"
                                ∧ kv.1 ≠ "conversation_id" ∧ kv.1 ≠ "created_at")
                         (res_Metadata r) = custom).
  { rewrite Hmeta. apply map_eq. intros k.
    destruct (decide (k ≠ "type" ∧ k ≠ "owner_id" ∧ k ≠ "conversation_id"
                      ∧ k ≠ "created_at")) as [Hfree|Hres].
    - destruct Hfree as (H1 & H2 & H3 & H4).
      destruct (custom !! k) as [v|] eqn:E.
      + apply map_lookup_filter_Some_2; [by apply lookup_union_Some_l|done].
      + apply map_lookup_filter_None_2. left.
        apply lookup_union_None_2; [done|]. unfold fixed.
        by rewrite !lookup_insert_ne, lookup_singleton_ne.
    - assert (Hk : k ∈ reserved_keys).
      { unfold reserved_keys.
        destruct (decide (k = "type")) as [->|]; [left|].
        destruct (decide (k = "owner_id")) as [->|]; [right; left|].
        destruct (decide (k = "conversation_id")) as [->|]; [do 2 right; left|].
        destruct (decide (k = "created_at")) as [->|]; [do 3 right; left|].
        by destruct Hres. }
      rewrite (Hnone k Hk). apply map_lookup_filter_None_2. right.
      intros v _ Hfree. by apply Hres. }
  unfold deserializeMemory. rewrite Htype.
  rewrite bool_decide_eq_true_2 by done.
  unfold deserializeTraceMemory.
  rewrite Hcontent, Howner, Hconv, Hcreated, Hid, Hfree.
  destruct (json_Unmarshal contentBytes) as [[| | | | |content]|err]; simpl;
    try done; try (by eexists).
Qed.

End store.

(** A store holding one memory of alice, one of bob and a global one. *)
Definition sample_memory (name owner : string) : Memory :=
  {| ID := name; OwnerID := owner; ConversationID := "c1"; Type_ := "trace";
     Content := ANil; Metadata := ∅; CreatedAt := 0;
     Format := λ _, name; Embedding := [1%N] |}.

(** Times whose RFC 3339 text is, for the sample, the count of their
    seconds. *)
Definition sample_format_RFC3339 (t : Z) : string := pretty (t `div` 1000000000)%Z.

Definition sample_parse_RFC3339 (s : string) : option Z :=
  if bool_decide (s = "0") then Some 0%Z
  else if bool_decide (s = "1700000000") then Some 1700000000000000000%Z
  else None.

Definition sample_Store : ChromemStore → Memory → ChromemStore * result unit :=
  Store (λ v, v) (λ _, Err "no embedding function")
        (λ _, Ok "{}") sample_format_RFC3339.

Definition sample_Query
  : ChromemStore → string → list float32 → Z → ChromemStore * result (list Memory) :=
  Query (λ _ _, 0%N) N.leb (λ _, Ok (AMap [])) sample_parse_RFC3339 (λ s, s) (λ _, "?").

Definition sample_store : ChromemStore :=
  let s := (sample_Store New (sample_memory "m1" "alice")).1 in
  let s := (sample_Store s (sample_memory "m2" "bob")).1 in
  (sample_Store s (sample_memory "m3" EmptyString)).1.

(** [Query_owner_partition] at the sample store: alice's query returns her
    one memory although ten were asked for. *)
Lemma Query_owner_partition_witness :
  ∃ s' memories,
    sample_Query sample_store "alice" [1%N] 10 = (s', Ok memories) ∧
    ID <$> memories = ["m1"] ∧
    ∀ mem, mem ∈ memories → OwnerID mem = "alice".
Proof.
  destruct (sample_Query sample_store "alice" [1%N] 10) as [s' [memories|e]] eqn:E.
  - exists s', memories. split; [done|]. split.
    + assert (H : (ID <$> default [] (match (sample_Query sample_store "alice" [1%N] 10).2
                                      with Ok l => Some l | Err _ => None end)) = ["m1"])
        by (vm_compute; reflexivity).
      rewrite E in H. exact H.
    + intros mem.
      exact (proj1 (Query_owner_partition (λ _ _, 0%N) N.leb (λ v, v)
                      (λ _, Err "no embedding function") (λ _, Ok "{}")
                      (λ _, Ok (AMap [])) sample_format_RFC3339 sample_parse_RFC3339
                      (λ s, s) (λ _, "?") sample_store "alice" [1%N] 10)
               s' memories mem E).
  - exfalso.
    assert (H : match (sample_Query sample_store "alice" [1%N] 10).2
                with Ok _ => true | Err _ => false end = true)
      by (vm_compute; reflexivity).
    by rewrite E in H.
Defined.

(** [Query_at_most_limit] at the sample store. *)
Lemma Query_at_most_limit_witness :
  ∃ s' memories,
    sample_Query sample_store "alice" [1%N] 10 = (s', Ok memories) ∧
    length memories ≤ 10.
Proof.
  destruct (sample_Query sample_store "alice" [1%N] 10) as [s' [memories|e]] eqn:E.
  - exists s', memories. split; [done|].
    exact (Query_at_most_limit (λ _ _, 0%N) N.leb (λ _, Ok (AMap []))
             sample_parse_RFC3339 (λ s, s) (λ _, "?") sample_store "alice" [1%N] 10
             s' memories E).
  - exfalso.
    assert (H : match (sample_Query sample_store "alice" [1%N] 10).2
                with Ok _ => true | Err _ => false end = true)
      by (vm_compute; reflexivity).
    by rewrite E in H.
Defined.

(** [Query_new_user]: carol asks an empty store. *)
Lemma Query_new_user_witness :
  sample_Query New "carol" [1%N] 10 =
    ({| db := ["user_carol"]; collections := {[ "carol" := ∅ ]} |}, Ok []).
Proof.
  exact (Query_new_user (λ _ _, 0%N) N.leb (λ _, Ok (AMap [])) sample_parse_RFC3339
           (λ s, s) (λ _, "?") New "carol" [1%N] 10 eq_refl
           (λ E, eq_ind [1%N] (λ l, match l with [] => False | _ => True end) I [] E)).
Defined.

(** [collectionName_apart]: alice's collection is not the global one. *)
Lemma collectionName_apart_witness :
  collectionName "alice" ≠ collectionName EmptyString.
Proof. apply collectionName_apart. discriminate. Defined.

(** A trace memory made a little after the second 1700000000, with a custom
    metadata entry that is not a string, and a JSON codec that knows its
    content. *)
Definition sample_trace_memory : TraceMemory :=
  {| id := "m1"; ownerID := "alice"; conversationID := "c1";
     createdAt := 1700000000123456789;
     embedding := [1%N]; importance := 0.75%float;
     metadata := {[ "action" := AString "send_money"; "success" := ABool false ]};
     Thought := "Balance is sufficient"; Action := "send_money";
     Observation := "Failed: recipient not found"; Success := false |}.

Definition sample_json_Marshal (v : Any) : result string :=
  match v with
  | ABool b => Ok (if b then "true" else "false")
  | AMap _ => Ok "content of m1"
  | _ => Err "unsupported"
  end.

Definition sample_json_Unmarshal (s : string) : result Any :=
  if bool_decide (s = "content of m1") then Ok (TraceMemory_Content sample_trace_memory)
  else Err "invalid character".

(** [serialize_deserialize] at the sample memory: what comes back from the
    store has the owner and the trace fields of what went in, the default
    importance, "false" for the metadata entry that was the boolean false,
    and the creation time without its fraction of a second. *)
Lemma serialize_deserialize_witness :
  ∃ stored,
    serializeMemory sample_json_Marshal sample_format_RFC3339
      (TraceMemory_Memory (λ s, s) (λ _, "?") sample_trace_memory) = Ok stored ∧
    ∀ r, res_ID r = "m1" → res_Metadata r = sm_Metadata stored →
         res_Content r = sm_ContentJSON stored →
         ∃ mem, deserializeMemory sample_json_Unmarshal sample_parse_RFC3339
                  (λ s, s) (λ _, "?") r = Ok mem ∧
                OwnerID mem = "alice" ∧ ID mem = "m1" ∧
                CreatedAt mem = 1700000000000000000%Z ∧
                Content mem = TraceMemory_Content sample_trace_memory ∧
                Metadata mem !! "success" = Some (AString "false").
Proof.
  destruct (serializeMemory sample_json_Marshal sample_format_RFC3339
              (TraceMemory_Memory (λ s, s) (λ _, "?") sample_trace_memory))
    as [stored|e] eqn:E.
  - exists stored. split; [done|]. intros r Hid Hmeta Hcontent.
    assert (Hkeys : ∀ k, k ∈ reserved_keys → metadata sample_trace_memory !! k = None).
    { intros k Hk. unfold reserved_keys in Hk.
      repeat (apply elem_of_cons in Hk as [->|Hk]; [vm_compute; reflexivity|]).
      by apply elem_of_nil in Hk. }
    pose proof (serialize_deserialize sample_json_Marshal sample_json_Unmarshal
                  sample_format_RFC3339 sample_parse_RFC3339 (λ s, s) (λ _, "?")
                  sample_trace_memory stored r Hkeys E Hid Hmeta Hcontent) as H.
    assert (Hjson : sm_ContentJSON stored = "content of m1").
    { unfold serializeMemory in E. simpl in E. by injection E as <-. }
    rewrite Hjson in H. simpl in H.
    eexists. split; [exact H|].
    split_and!; [done..| | |]; simpl; vm_compute; reflexivity.
  - exfalso. unfold serializeMemory in E. simpl in E. discriminate E.
Defined.

End Chromem.

(* ===================================================================== *)
(** * examples/hackathon-starter/main.go: scheduled payments *)
(* ===================================================================== *)

Module Payments.

(** [ScheduledPayment].  A [time.Time] is carried as its instant, in
    nanoseconds since the Unix epoch; the table keeps times as RFC 3339 text
    in UTC, which has whole seconds and, for the years 0000 to 9999 that it
    can express, orders as the instants do. *)
Record ScheduledPayment : Type := {
  ID : string;
  Recipient : string;
  Amount : string;
  Currency : string;
  Note : string;
  ScheduledAt : Z;
  CreatedAt : Z;
  Status : string;
  Error : string
}.

(** [PaymentStore]: the rows of table [scheduled_payments], in insertion
    order, and the condition of the database connection ([Some e] when every
    statement fails with [e]). *)
Record PaymentStore : Type := {
  rows : list ScheduledPayment;
  fault : option string
}.

Definition with_rows (s : PaymentStore) (rows : list ScheduledPayment) : PaymentStore :=
  {| rows := rows; fault := fault s |}.

Definition set_status (status errMsg : string) (p : ScheduledPayment) : ScheduledPayment :=
  {| ID := ID p; Recipient := Recipient p; Amount := Amount p;
     Currency := Currency p; Note := Note p; ScheduledAt := ScheduledAt p;
     CreatedAt := CreatedAt p; Status := status; Error := errMsg |}.

Definition earlier (p q : ScheduledPayment) : Prop := (ScheduledAt p ≤ ScheduledAt q)%Z.

#[export] Instance earlier_dec p q : Decision (earlier p q).
Proof. unfold earlier. apply _. Defined.

(** [t.UTC().Format(time.RFC3339)], read back by [time.Parse]: the instant
    with its fraction of a second cut off. *)
Definition whole_second (t : Z) : Z := (t `div` 1000000000 * 1000000000)%Z.

(** The row that the INSERT of [Add] writes for [p]: the times as their
    RFC 3339 text holds them, the [error] column at its default. *)
Definition inserted (p : ScheduledPayment) : ScheduledPayment :=
  {| ID := ID p; Recipient := Recipient p; Amount := Amount p;
     Currency := Currency p; Note := Note p;
     ScheduledAt := whole_second (ScheduledAt p);
     CreatedAt := whole_second (CreatedAt p);
     Status := Status p; Error := EmptyString |}.

(** The error of the SQLite driver (modernc.org/sqlite) for a second row
    under a primary key, with the extended result code of
    SQLITE_CONSTRAINT_PRIMARYKEY. *)
Definition unique_violation : string :=
  "constraint failed: UNIQUE constraint failed: scheduled_payments.id (1555)".

(** [PaymentStore.Add]: INSERT; [id] is the primary key. *)
Definition Add (s : PaymentStore) (p : ScheduledPayment) : PaymentStore * option string :=
  match fault s with
  | Some e => (s, Some e)
  | None =>
      if bool_decide (ID p ∈ ID <$> rows s)
      then (s, Some unique_violation)
      else (with_rows s (rows s ++ [inserted p]), None)
  end.

(** [ORDER BY scheduled_at ASC] over rows read in insertion order: a row
    goes before the first row that is not earlier than it, so that rows
    with the same time keep the order of their insertion. *)
Fixpoint insert_by_time (p : ScheduledPayment) (l : list ScheduledPayment)
  : list ScheduledPayment :=
  match l with
  | [] => [p]
  | q :: rest => if decide (earlier p q) then p :: l else q :: insert_by_time p rest
  end.

Definition order_by_scheduled_at (l : list ScheduledPayment) : list ScheduledPayment :=
  foldr insert_by_time [] l.

(** [PaymentStore.GetPending]:
    [WHERE status = 'pending' ORDER BY scheduled_at ASC] *)
Definition GetPending (s : PaymentStore) : result (list ScheduledPayment) :=
  match fault s with
  | Some e => Err e
  | None => Ok (order_by_scheduled_at (filter (λ p, Status p = "pending") (rows s)))
  end.

(** [PaymentStore.GetDue], [now] being the reading of the clock:
    [WHERE status = 'pending' AND scheduled_at <= ? ORDER BY scheduled_at ASC]
    with [time.Now().UTC().Format(time.RFC3339)] for the parameter. *)
Definition GetDue (s : PaymentStore) (now : Z) : result (list ScheduledPayment) :=
  match fault s with
  | Some e => Err e
  | None =>
      Ok (order_by_scheduled_at
            (filter (λ p, Status p = "pending" ∧ (ScheduledAt p ≤ whole_second now)%Z)
                    (rows s)))
  end.

(** [PaymentStore.UpdateStatus]:
    [UPDATE ... SET status = ?, error = ? WHERE id = ?] *)
Definition UpdateStatus (s : PaymentStore) (id status errMsg : string)
  : PaymentStore * option string :=
  match fault s with
  | Some e => (s, Some e)
  | None =>
      (with_rows s ((λ p, if bool_decide (ID p = id)
                          then set_status status errMsg p else p) <$> rows s),
       None)
  end.

(** [PaymentStore.Cancel]:
    [UPDATE ... SET status = 'cancelled' WHERE id = ? AND status = 'pending'],
    an error when no row was affected. *)
Definition Cancel (s : PaymentStore) (id : string) : PaymentStore * option string :=
  match fault s with
  | Some e => (s, Some e)
  | None =>
      let hit p := bool_decide (ID p = id ∧ Status p = "pending") in
      let n := length (filter (λ p, hit p = true) (rows s)) in
      if bool_decide (n = 0)
      then (s, Some ("payment " +:+ id +:+ " not found or not in pending status"))
      else (with_rows s ((λ p, if hit p
                               then set_status "cancelled" (Error p) p else p)
                         <$> rows s),
            None)
  end.

(** Tool-side records. *)
Record ToolParams : Type := {
  UserID : string;
  Input : string;
  RequestID : string
}.

Record ToolResult : Type := {
  Success : bool;
  Data : Any;
  ResultError : string
}.

Record ExecuteRequest : Type := {
  req_UserID : string;
  req_Tool : string;
  req_Input : string;
  req_RequestID : string
}.

Record ExecuteResponse : Type := {
  resp_Success : bool;
  resp_Data : string;
  resp_Error : string
}.

(** The inputs of [schedule_payment] and of [send_money] ([ScheduledAt] is
    unused by the latter). *)
Record Params : Type := {
  p_Recipient : string;
  p_Amount : string;
  p_Currency : string;
  p_ScheduledAt : string;
  p_Note : string
}.

(** A [time.Time] as [time.Parse] returns it: the instant, and the offset
    of the zone that the text named, which [Format] shows. *)
Record Time : Type := {
  instant : Z;
  zone : Z
}.

(** [time.RFC3339] *)
Definition RFC3339 : string := "2006-01-02T15:04:05Z07:00".

(** What a handler acts on: the payment store, and the Liminal account, of
    which the model records the write requests sent to it. *)
Record World : Type := {
  store : PaymentStore;
  writes : list ExecuteRequest
}.

Definition failed (msg : string) : ToolResult :=
  {| Success := false; Data := ANil; ResultError := msg |}.

(** [strings.TrimPrefix(s, "@")] *)
Definition TrimPrefix_at (s : string) : string :=
  match s with
  | String c rest => if bool_decide (c = Ascii.ascii_of_nat 64) then rest else s
  | EmptyString => s
  end.

(** The row that [schedule_payment] saves. *)
Definition new_payment (params : Params) (scheduledAt created : Z) (uuid : string)
  : ScheduledPayment :=
  {| ID := uuid; Recipient := p_Recipient params; Amount := p_Amount params;
     Currency := p_Currency params; Note := p_Note params;
     ScheduledAt := scheduledAt; CreatedAt := created;
     Status := "pending"; Error := EmptyString |}.

(** ** The scheduler and the status of a row over time

    The scheduler runs in a goroutine of its own, next to the handlers of the
    tools; what serialises them is the mutex of the store, which is held for
    one statement at a time.  The system is therefore modelled as a machine
    whose steps are the single store operations: those of the scheduler's
    loop, which keeps its place between them, and those of the tools. *)

(** Where the scheduler is in its loop. *)
Inductive scheduler : Type :=
  | Idle
    (** waiting for the ticker *)
  | Due (queue : list ScheduledPayment)
    (** in [for _, p := range due], about to mark the head as executing *)
  | Sending (p : ScheduledPayment) (rest : list ScheduledPayment)
    (** [p] marked as executing, [ExecuteWrite] under way *).

Record System : Type := {
  sys_store : PaymentStore;
  sys_scheduler : scheduler;
  sys_sent : list ScheduledPayment
}.

Inductive event : Type :=
  | Tick (now : Z)
    (** the ticker fires: [store.GetDue()] *)
  | Mark
    (** [store.UpdateStatus(p.ID, "executing", empty)] *)
  | Sent (outcome : result ExecuteResponse)
    (** [ExecuteWrite] has returned: [store.UpdateStatus(p.ID, ...)] *)
  | Scheduled (params : Params) (scheduledAt created : Z) (uuid : string)
    (** [schedule_payment] has validated its input: [store.Add(payment)] *)
  | Cancelled (id : string)
    (** [cancel_scheduled_payment]: [store.Cancel(id)] *)
  | Fault (f : option string)
    (** the database starts or stops failing *).

(** One step of the system; an event that is not due leaves it as it is. *)
Definition step (sys : System) (ev : event) : System :=
  let s := sys_store sys in
  match ev, sys_scheduler sys with
  | Tick now, (Idle | Due []) =>
      match GetDue s now with
      | Err _ => {| sys_store := s; sys_scheduler := Idle; sys_sent := sys_sent sys |}
      | Ok due => {| sys_store := s; sys_scheduler := Due due; sys_sent := sys_sent sys |}
      end
  | Mark, Due (p :: rest) =>
      (* Mark as executing to prevent double-execution *)
      match UpdateStatus s (ID p) "executing" EmptyString with
      | (s, Some _) =>
          {| sys_store := s; sys_scheduler := Due rest; sys_sent := sys_sent sys |}
      | (s, None) =>
          {| sys_store := s; sys_scheduler := Sending p rest;
             sys_sent := sys_sent sys |}
      end
  | Sent outcome, Sending p rest =>
      let s :=
        match outcome with
        | Err e => (UpdateStatus s (ID p) "failed" ("execution error: " +:+ e)).1
        | Ok resp =>
            if negb (resp_Success resp)
            then (UpdateStatus s (ID p) "failed"
                    ("send_money failed: " +:+ resp_Error resp)).1
            else (UpdateStatus s (ID p) "executed" EmptyString).1
        end in
      {| sys_store := s; sys_scheduler := Due rest; sys_sent := sys_sent sys ++ [p] |}
  | Scheduled params scheduledAt created uuid, sched =>
      {| sys_store := (Add s (new_payment params scheduledAt created uuid)).1;
         sys_scheduler := sched; sys_sent := sys_sent sys |}
  | Cancelled id, sched =>
      {| sys_store := (Cancel s id).1; sys_scheduler := sched;
         sys_sent := sys_sent sys |}
  | Fault f, sched =>
      {| sys_store := {| rows := rows s; fault := f |}; sys_scheduler := sched;
         sys_sent := sys_sent sys |}
  | _, _ => sys
  end.

Definition run (sys : System) (evs : list event) : System := foldl step sys evs.

(** The edges of the status graph. *)
Definition edge (from to : string) : Prop :=
  (from = "pending" ∧ to = "executing") ∨
  (from = "executing" ∧ to = "executed") ∨
  (from = "executing" ∧ to = "failed") ∨
  (from = "pending" ∧ to = "cancelled").

(** From one store to the next, every row keeps its place and identity and
    its status stays or moves along an edge, and the rows that are new are
    pending. *)
Definition follows_edges (s s' : PaymentStore) : Prop :=
  ∃ old new,
    rows s' = old ++ new ∧
    Forall2 (λ p p', ID p' = ID p ∧ (Status p' = Status p ∨ edge (Status p) (Status p')))
            (rows s) old ∧
    Forall (λ p, Status p = "pending") new.

(** Every row with identifier [id] has status [status]. *)
Definition all_with_id (s : PaymentStore) (id status : string) : Prop :=
  ∀ p, p ∈ rows s → ID p = id → Status p = status.

(** What the scheduler remembers of the store still holds: the payment it is
    about to mark is pending, the payment it is sending is executing. *)
Definition not_stale (sys : System) : Prop :=
  match sys_scheduler sys with
  | Due (p :: _) => all_with_id (sys_store sys) (ID p) "pending"
  | Sending p _ => all_with_id (sys_store sys) (ID p) "executing"
  | _ => True
  end.

(** Some row with identifier [id] is pending. *)
Definition has_pending (s : PaymentStore) (id : string) : Prop :=
  ∃ p, p ∈ rows s ∧ ID p = id ∧ Status p = "pending".

(** The events of the scheduler working through its list undisturbed, the
    sends ending with the given outcomes. *)
Definition pass_events (outcomes : list (result ExecuteResponse)) : list event :=
  outcomes ≫= λ outcome, [Mark; Sent outcome].

(** What the scheduler records for a send that ended with [outcome]. *)
Definition recorded_as (outcome : result ExecuteResponse) (p p' : ScheduledPayment)
  : Prop :=
  match outcome with
  | Err e => p' = set_status "failed" ("execution error: " +:+ e) p
  | Ok resp =>
      if resp_Success resp then p' = set_status "executed" EmptyString p
      else p' = set_status "failed" ("send_money failed: " +:+ resp_Error resp) p
  end.

(** What a scheduler pass over the payments [due], whose sends ended with
    [outcomes], makes of a row: a row under the identifier of no due payment
    is as it was; any other row carries the outcome of the send of the due
    payment with its identifier (of the last one, should there be
    several). *)
Definition settled (due : list ScheduledPayment)
    (outcomes : list (result ExecuteResponse)) (p p' : ScheduledPayment) : Prop :=
  ((ID p ∉ ID <$> due) ∧ p' = p) ∨
  ∃ i d outcome,
    due !! i = Some d ∧ outcomes !! i = Some outcome ∧ ID d = ID p ∧
    (∀ j d', i < j → due !! j = Some d' → ID d' ≠ ID p) ∧
    recorded_as outcome p p'.

Definition statuses (sys : System) : list (string * string) :=
  (λ p, (ID p, Status p)) <$> rows (sys_store sys).

(** Two payments to alice, scheduled for the very second of the epoch and
    saved a minute before: both are due at time 100, a hundred nanoseconds
    into that second. *)
Definition due_payment (id : string) : ScheduledPayment :=
  {| ID := id; Recipient := "@alice"; Amount := "10"; Currency := "USDC";
     Note := EmptyString; ScheduledAt := 0; CreatedAt := -60000000000;
     Status := "pending"; Error := EmptyString |}.

Definition two_due : System :=
  {| sys_store := {| rows := [due_payment "p1"; due_payment "p2"]; fault := None |};
     sys_scheduler := Idle; sys_sent := [] |}.

Definition sent_ok : event :=
  Sent (Ok {| resp_Success := true; resp_Data := "{}"; resp_Error := EmptyString |}).

Section tools.
(** SQLite: [CAST(amount AS REAL)] and the aggregate [SUM]. *)
Variable sql_cast_real : string → float.
Variable sql_sum : list float → float.
(** Standard library: [strconv.ParseFloat(s, 64)] (value and error),
    [time.Parse(time.RFC3339, s)], [Time.Format(layout)], [encoding/json],
    [fmt] verbs. *)
Variable ParseFloat : string → float * option string.
Variable parse_RFC3339 : string → result Time.
Variable time_Format : Time → string → string.
Variable json_Unmarshal : string → result Any.
Variable json_Unmarshal_params : string → result Params.
Variable json_Marshal : Any → string.
Variable fmt_2f : float → string.
(** The Liminal executor: what it answers to a read and to a write. *)
Variable Execute : ExecuteRequest → result ExecuteResponse.
Variable ExecuteWrite : ExecuteRequest → result ExecuteResponse.

(** [PaymentStore.GetPendingTotalByCurrency]:
    [SELECT currency, SUM(CAST(amount AS REAL)) ... WHERE status = 'pending'
     GROUP BY currency] *)
Definition pending_amounts (s : PaymentStore) (currency : string) : list float :=
  (λ p, sql_cast_real (Amount p))
    <$> filter (λ p, Status p = "pending" ∧ Currency p = currency) (rows s).

Definition GetPendingTotalByCurrency (s : PaymentStore) : result (gmap string float) :=
  match fault s with
  | Some e => Err e
  | None =>
      let currencies :=
        remove_dups (Currency <$> filter (λ p, Status p = "pending") (rows s)) in
      Ok (list_to_map ((λ c, (c, sql_sum (pending_amounts s c))) <$> currencies))
  end.

(** [pendingTotals[currency]]: zero when the currency has no pending row. *)
Definition total_of (totals : gmap string float) (currency : string) : float :=
  default 0%float (totals !! currency).

(** Decoding into [map[string]interface{}]: JSON [null] leaves the map nil. *)
Definition unmarshal_object (data : string) : option (list (string * Any)) :=
  match json_Unmarshal data with
  | Ok (AMap m) => Some m
  | Ok ANil => Some []
  | _ => None
  end.

(** One [field] of a balance entry: a positive amount, as a string or as a
    number. *)
Definition positive_amount (v : option Any) : option float :=
  match v with
  | Some (AString bal) =>
      let f := (ParseFloat bal).1 in if (0 <? f)%float then Some f else None
  | Some (ANumber bal) => if (0 <? bal)%float then Some bal else None
  | _ => None
  end.

(** Format 1 of [parseBalanceFromResponse]: the first entry of [balances] in
    the wanted currency with a positive ["amount"], else ["balance"]. *)
Fixpoint balance_in_list (balances : list Any) (currency : string) : option float :=
  match balances with
  | [] => None
  | b :: balances =>
      let here :=
        match as_map (Some b) with
        | Some bMap =>
            if bool_decide (default EmptyString (as_string (field bMap "currency"))
                            = currency)
            then match positive_amount (field bMap "amount") with
                 | Some f => Some f
                 | None => positive_amount (field bMap "balance")
                 end
            else None
        | None => None
        end in
      match here with
      | Some f => Some f
      | None => balance_in_list balances currency
      end
  end.

(** [parseBalanceFromResponse(data, currency)] *)
Definition parseBalanceFromResponse (data : string) (currency : string) : float :=
  match unmarshal_object data with
  | None => 0%float
  | Some response =>
      match (match as_list (field response "balances") with
             | Some balances => balance_in_list balances currency
             | None => None
             end) with
      | Some f => f
      | None =>
          match field response "balance" with
          | Some (AString bal) => (ParseFloat bal).1
          | Some (ANumber bal) => bal
          | _ =>
              match field response currency with
              | Some (AString bal) => (ParseFloat bal).1
              | Some (ANumber bal) => bal
              | _ => 0%float
              end
          end
      end
  end.

(** The request for the live balance in [currency]. *)
Definition balance_request (toolParams : ToolParams) (currency : string) : ExecuteRequest :=
  {| req_UserID := UserID toolParams; req_Tool := "get_balance";
     req_Input := json_Marshal (AMap [("currency", AString currency)]);
     req_RequestID := RequestID toolParams |}.

(** The request that looks the recipient up. *)
Definition search_request (toolParams : ToolParams) (recipient : string) : ExecuteRequest :=
  (* Strip @ prefix for search (API expects plain name) *)
  let searchQuery := TrimPrefix_at recipient in
  let searchInput := json_Marshal (AMap [("query", AString searchQuery)]) in
  {| req_UserID := UserID toolParams; req_Tool := "search_users";
     req_Input := searchInput; req_RequestID := RequestID toolParams |}.

(** The search answered with an empty [users] array. *)
Definition no_users_found (data : string) : bool :=
  match unmarshal_object data with
  | Some searchData =>
      match as_list (field searchData "users") with
      | Some users => bool_decide (length users = 0)
      | None => false
      end
  | None => false
  end.

(** The write request that the [send_money] wrapper delegates. *)
Definition send_request (toolParams : ToolParams) : ExecuteRequest :=
  {| req_UserID := UserID toolParams; req_Tool := "send_money";
     req_Input := Input toolParams; req_RequestID := RequestID toolParams |}.

(** The handler of [schedule_payment]; [now] and [created] are the two
    readings of the clock and [uuid] the fresh identifier. *)
Definition schedule_payment (w : World) (now created : Z) (uuid : string)
    (toolParams : ToolParams) : World * ToolResult :=
  (* Parse input *)
  match json_Unmarshal_params (Input toolParams) with
  | Err e => (w, failed ("invalid input: " +:+ e))
  | Ok params =>
  (* Validate amount is a positive number *)
  let '(amountFloat, err) := ParseFloat (p_Amount params) in
  if bool_decide (err ≠ None) || (amountFloat <=? 0)%float
  then (w, failed "amount must be a positive number") else
  (* Validate scheduled_at is in the future *)
  match parse_RFC3339 (p_ScheduledAt params) with
  | Err e => (w, failed ("invalid date format, expected ISO 8601: " +:+ e))
  | Ok scheduledAt =>
  if bool_decide (instant scheduledAt < now)%Z
  then (w, failed "scheduled date must be in the future") else
  (* VALIDATION 1: Check recipient exists via search_users *)
  match Execute (search_request toolParams (p_Recipient params)) with
  | Err e => (w, failed ("failed to validate recipient: " +:+ e))
  | Ok searchResp =>
  if negb (resp_Success searchResp)
  then (w, failed ("recipient not found: " +:+ p_Recipient params)) else
  (* Check that search actually returned results *)
  if no_users_found (resp_Data searchResp)
  then (w, failed ("recipient not found: " +:+ p_Recipient params)) else
  (* VALIDATION 2: Check available balance *)
  match Execute (balance_request toolParams (p_Currency params)) with
  | Err e => (w, failed ("failed to check balance: " +:+ e))
  | Ok balanceResp =>
  if negb (resp_Success balanceResp)
  then (w, failed "failed to retrieve balance") else
  let currentBalance :=
    parseBalanceFromResponse (resp_Data balanceResp) (p_Currency params) in
  (* Get pending scheduled totals *)
  match GetPendingTotalByCurrency (store w) with
  | Err e => (w, failed ("failed to check pending payments: " +:+ e))
  | Ok pendingTotals =>
  let available := (currentBalance - total_of pendingTotals (p_Currency params))%float in
  if (available <? amountFloat)%float
  then (w, failed ("insufficient available balance: " +:+ fmt_2f currentBalance
                   +:+ " " +:+ p_Currency params +:+ " ("
                   +:+ fmt_2f (total_of pendingTotals (p_Currency params))
                   +:+ " reserved in scheduled payments)")) else
  (* All validations passed -- save to SQLite *)
  let payment := new_payment params (instant scheduledAt) created uuid in
  match Add (store w) payment with
  | (s, Some e) =>
      ({| store := s; writes := writes w |}, failed ("failed to save payment: " +:+ e))
  | (s, None) =>
      ({| store := s; writes := writes w |},
       {| Success := true;
          Data := AMap [("payment_id", AString (ID payment));
                        ("recipient", AString (Recipient payment));
                        ("amount", AString (Amount payment));
                        ("currency", AString (Currency payment));
                        ("scheduled_at", AString (time_Format scheduledAt RFC3339));
                        ("status", AString "pending");
                        ("message",
                         AString ("Payment of " +:+ Amount payment +:+ " "
                                  +:+ Currency payment +:+ " to " +:+ Recipient payment
                                  +:+ " scheduled for "
                                  +:+ time_Format scheduledAt
                                        "Mon Jan 2, 2006 at 3:04 PM UTC"))];
          ResultError := EmptyString |})
  end end end end end end.

(** The handler of the [send_money] wrapper. *)
Definition send_money (w : World) (toolParams : ToolParams) : World * ToolResult :=
  (* Parse input to get amount and currency for validation *)
  match json_Unmarshal_params (Input toolParams) with
  | Err e => (w, failed ("invalid input: " +:+ e))
  | Ok params =>
  let '(amountFloat, err) := ParseFloat (p_Amount params) in
  if bool_decide (err ≠ None) || (amountFloat <=? 0)%float
  then (w, failed "amount must be a positive number") else
  (* Check balance via executor *)
  match Execute (balance_request toolParams (p_Currency params)) with
  | Err e => (w, failed ("failed to check balance: " +:+ e))
  | Ok balanceResp =>
  if negb (resp_Success balanceResp)
  then (w, failed "failed to retrieve balance") else
  let currentBalance :=
    parseBalanceFromResponse (resp_Data balanceResp) (p_Currency params) in
  (* Subtract pending scheduled payments *)
  match GetPendingTotalByCurrency (store w) with
  | Err e => (w, failed ("failed to check pending payments: " +:+ e))
  | Ok pendingTotals =>
  let available := (currentBalance - total_of pendingTotals (p_Currency params))%float in
  if (available <? amountFloat)%float
  then (w, failed ("insufficient available balance: you have "
                   +:+ fmt_2f currentBalance +:+ " " +:+ p_Currency params +:+ " but "
                   +:+ fmt_2f (total_of pendingTotals (p_Currency params))
                   +:+ " is reserved for scheduled payments (available: "
                   +:+ fmt_2f available +:+ " " +:+ p_Currency params +:+ ")")) else
  (* Balance OK -- delegate to the real Liminal send_money *)
  let request := send_request toolParams in
  let w := {| store := store w; writes := writes w ++ [request] |} in
  match ExecuteWrite request with
  | Err e => (w, failed ("send failed: " +:+ e))
  | Ok resp =>
      if negb (resp_Success resp) then (w, failed (resp_Error resp))
      else (w, {| Success := true; Data := AString (resp_Data resp);
                  ResultError := EmptyString |})
  end end end end.

(** ** The balance guard *)

(** The reserved total of a currency: the sum of the amounts of its pending
    rows, zero when it has none. *)
Definition reserved (s : PaymentStore) (currency : string) : float :=
  match pending_amounts s currency with
  | [] => 0%float
  | amounts => sql_sum amounts
  end.

(** The currency of an entry of [balances]: [bMap["currency"].(string)], the
    empty string when the entry has none. *)
Definition entry_currency (entry : list (string * Any)) : string :=
  default EmptyString (as_string (field entry "currency")).

(** What [get_balance] reports as the live balance of a currency, in the
    format of the Liminal API: the response is an object whose [balances]
    array has, as its first entry in the currency, an object that gives the
    positive [balance] under ["amount"], as a string or as a number. *)
Definition reports (balanceData currency : string) (balance : float) : Prop :=
  ∃ response before entry rest,
    json_Unmarshal balanceData = Ok (AMap response) ∧
    field response "balances" = Some (AList (before ++ AMap entry :: rest)) ∧
    Forall (λ b, ∀ other, b = AMap other → entry_currency other ≠ currency) before ∧
    entry_currency entry = currency ∧
    ((∃ text, field entry "amount" = Some (AString text) ∧
              (ParseFloat text).1 = balance) ∨
     field entry "amount" = Some (ANumber balance)) ∧
    (0 <? balance)%float = true.

(** The rejection for want of available balance. *)
Definition insufficient (r : ToolResult) : Prop :=
  Success r = false ∧
  String.prefix "insufficient available balance" (ResultError r) = true.

(** An invocation of [schedule_payment] with amount [a], whose input decodes
    to [params], that passes the validations preceding the balance check, the
    answer of [get_balance] being [balanceData]. *)
Definition schedule_validated (now : Z) (toolParams : ToolParams) (params : Params)
    (a : float) (scheduledAt : Time) (balanceData : string) : Prop :=
  json_Unmarshal_params (Input toolParams) = Ok params ∧
  ParseFloat (p_Amount params) = (a, None) ∧ (a <=? 0)%float = false ∧
  parse_RFC3339 (p_ScheduledAt params) = Ok scheduledAt ∧
  ¬ (instant scheduledAt < now)%Z ∧
  (∃ searchResp,
     Execute (search_request toolParams (p_Recipient params)) = Ok searchResp ∧
     resp_Success searchResp = true ∧ no_users_found (resp_Data searchResp) = false) ∧
  (∃ balanceResp,
     Execute (balance_request toolParams (p_Currency params)) = Ok balanceResp ∧
     resp_Success balanceResp = true ∧ resp_Data balanceResp = balanceData).

(** The same for the [send_money] wrapper. *)
Definition send_validated (toolParams : ToolParams) (params : Params)
    (a : float) (balanceData : string) : Prop :=
  json_Unmarshal_params (Input toolParams) = Ok params ∧
  ParseFloat (p_Amount params) = (a, None) ∧ (a <=? 0)%float = false ∧
  (∃ balanceResp,
     Execute (balance_request toolParams (p_Currency params)) = Ok balanceResp ∧
     resp_Success balanceResp = true ∧ resp_Data balanceResp = balanceData).

Lemma GetPendingTotalByCurrency_total s currency :
  fault s = None →
  ∃ totals, GetPendingTotalByCurrency s = Ok totals ∧
            total_of totals currency = reserved s currency.
Proof.
  intros Hf. unfold GetPendingTotalByCurrency. rewrite Hf.
  eexists. split; [reflexivity|]. unfold total_of, reserved.
  set (pend := filter (λ p, Status p = "pending") (rows s)).
  set (cs := remove_dups (Currency <$> pend)).
  set (l := (λ c, (c, sql_sum (pending_amounts s c))) <$> cs).
  assert (Hfst : l.*1 = cs).
  { unfold l. rewrite <- list_fmap_compose. apply list_fmap_id. }
  destruct (decide (currency ∈ cs)) as [Hin|Hout].
  - rewrite (elem_of_list_to_map_1 l currency (sql_sum (pending_amounts s currency))).
    + simpl. destruct (pending_amounts s currency) eqn:E; [|done].
      exfalso. apply elem_of_remove_dups, list_elem_of_fmap in Hin as (p & -> & Hp).
      apply list_elem_of_filter in Hp as [Hpend Hrow].
      unfold pending_amounts in E. apply fmap_nil_inv in E.
      assert (Hp : p ∈ filter (λ p0, Status p0 = "pending" ∧ Currency p0 = Currency p)
                              (rows s))
        by (by apply list_elem_of_filter).
      rewrite E in Hp. by apply elem_of_nil in Hp.
    + rewrite Hfst. apply NoDup_remove_dups.
    + unfold l. apply list_elem_of_fmap. by exists currency.
  - rewrite not_elem_of_list_to_map_1 by (by rewrite Hfst). simpl.
    destruct (pending_amounts s currency) as [|a amounts] eqn:E; [reflexivity|].
    exfalso. apply Hout. unfold pending_amounts in E.
    apply fmap_cons_inv in E as (p & ps & _ & _ & F).
    assert (Hp : p ∈ filter (λ p0, Status p0 = "pending" ∧ Currency p0 = currency)
                            (rows s))
      by (rewrite F; left).
    apply list_elem_of_filter in Hp as [[Hpend <-] Hrow].
    apply elem_of_remove_dups, list_elem_of_fmap. exists p. split; [done|].
    by apply list_elem_of_filter.
Qed.

(** [parseBalanceFromResponse] finds the balance that the response
    reports. *)
Lemma balance_in_list_reports before entry rest currency balance :
  Forall (λ b, ∀ other, b = AMap other → entry_currency other ≠ currency) before →
  entry_currency entry = currency →
  ((∃ text, field entry "amount" = Some (AString text) ∧
            (ParseFloat text).1 = balance) ∨
   field entry "amount" = Some (ANumber balance)) →
  (0 <? balance)%float = true →
  balance_in_list (before ++ AMap entry :: rest) currency = Some balance.
Proof.
  intros Hbefore Hcur Hamount Hpos.
  induction before as [|b before IH]; simpl.
  - fold (entry_currency entry). rewrite bool_decide_eq_true_2 by done.
    destruct Hamount as [(text & -> & Htext)| ->]; simpl.
    + by rewrite Htext, Hpos.
    + by rewrite Hpos.
  - apply Forall_cons in Hbefore as [Hb Hbefore]. rewrite (IH Hbefore).
    destruct b as [| | | | |other]; simpl; try done.
    fold (entry_currency other).
    rewrite bool_decide_eq_false_2; [done|]. by apply Hb.
Qed.

Lemma parseBalanceFromResponse_reports balanceData currency balance :
  reports balanceData currency balance →
  parseBalanceFromResponse balanceData currency = balance.
Proof.
  intros (response & before & entry & rest & Hjson & Hlist & Hbefore & Hcur
          & Hamount & Hpos).
  unfold parseBalanceFromResponse, unmarshal_object. rewrite Hjson, Hlist. simpl.
  by rewrite (balance_in_list_reports before entry rest currency balance).
Qed.

Lemma schedule_payment_guard w now created uuid toolParams params a scheduledAt
    balanceData balance :
  schedule_validated now toolParams params a scheduledAt balanceData →
  reports balanceData (p_Currency params) balance →
  fault (store w) = None →
  let outcome := schedule_payment w now created uuid toolParams in
  if (balance - reserved (store w) (p_Currency params) <? a)%float
  then insufficient outcome.2 ∧ outcome.1 = w
  else ¬ insufficient outcome.2 ∧
       writes outcome.1 = writes w ∧
       store outcome.1 =
         (Add (store w) (new_payment params (instant scheduledAt) created uuid)).1.
Proof.
  intros (Hin & Hamt & Hpos & Hdate & Hfuture & (sr & Hs & Hsok & Husers)
          & (br & Hb & Hbok & <-)) Hlive%parseBalanceFromResponse_reports Hf.
  destruct (GetPendingTotalByCurrency_total (store w) (p_Currency params) Hf)
    as (totals & Htot & Hres).
  cbv zeta. unfold schedule_payment.
  rewrite Hin, Hamt, Hpos, Hdate, Hs, Hsok, Husers, Hb, Hbok, Htot, Hres, Hlive.
  rewrite (bool_decide_eq_false_2 (None ≠ None)) by (by intros []).
  rewrite (bool_decide_eq_false_2 (instant scheduledAt < now)%Z) by done.
  simpl.
  destruct (_ <? a)%float; simpl.
  - by repeat split.
  - destruct (Add (store w) _) as [s [e|]]; simpl; (split; [by intros [? ?]|done]).
Qed.

Lemma send_money_guard w toolParams params a balanceData balance :
  send_validated toolParams params a balanceData →
  reports balanceData (p_Currency params) balance →
  fault (store w) = None →
  let outcome := send_money w toolParams in
  if (balance - reserved (store w) (p_Currency params) <? a)%float
  then insufficient outcome.2 ∧ outcome.1 = w
  else outcome.1 = {| store := store w;
                      writes := writes w ++ [send_request toolParams] |}.
Proof.
  intros (Hin & Hamt & Hpos & (br & Hb & Hbok & <-))
         Hlive%parseBalanceFromResponse_reports Hf.
  destruct (GetPendingTotalByCurrency_total (store w) (p_Currency params) Hf)
    as (totals & Htot & Hres).
  cbv zeta. unfold send_money.
  rewrite Hin, Hamt, Hpos, Hb, Hbok, Htot, Hres, Hlive.
  rewrite (bool_decide_eq_false_2 (None ≠ None)) by (by intros []).
  simpl.
  destruct (_ <? a)%float; simpl.
  - by repeat split.
  - destruct (ExecuteWrite _) as [resp|e]; [|done].
    by destruct (resp_Success resp).
Qed.


(** ** What the handlers do to the world *)

(** An amount that passes the check [amountFloat <= 0] is positive or not a
    number. *)
Lemma not_leb_zero (a : float) :
  (a <=? 0)%float = false → (0 <? a)%float = true ∨ is_nan a = true.
Proof.
  unfold is_nan. rewrite FloatAxioms.leb_spec, FloatAxioms.ltb_spec, FloatAxioms.eqb_spec.
  replace (Prim2SF 0) with (S754_zero false) by (vm_compute; reflexivity).
  destruct (Prim2SF a) as [s|s| |s m e]; simpl.
  - by destruct s.
  - destruct s; [done|]. by left.
  - by right.
  - destruct s; [done|]. by left.
Qed.

(** X15.  [schedule_payment] never sends money.  When it fails, the store
    is as it was; when it succeeds, its input decoded to parameters with an
    amount that parsed to a positive number or to NaN (which the check
    [amountFloat <= 0] lets through) and a time not before the clock reading
    taken for the check, and the store has gained exactly one row: the
    pending payment with these parameters under the new identifier, its
    times cut to whole seconds. *)
Theorem schedule_payment_effects w now created uuid toolParams :
  let outcome := schedule_payment w now created uuid toolParams in
  writes outcome.1 = writes w ∧
  if Success outcome.2 then
    ∃ params a scheduledAt,
      json_Unmarshal_params (Input toolParams) = Ok params ∧
      ParseFloat (p_Amount params) = (a, None) ∧
      ((0 <? a)%float = true ∨ is_nan a = true) ∧
      parse_RFC3339 (p_ScheduledAt params) = Ok scheduledAt ∧
      (now ≤ instant scheduledAt)%Z ∧
      (uuid ∉ ID <$> rows (store w)) ∧
      rows (store outcome.1) =
        rows (store w)
        ++ [{| ID := uuid; Recipient := p_Recipient params;
               Amount := p_Amount params; Currency := p_Currency params;
               Note := p_Note params;
               ScheduledAt := whole_second (instant scheduledAt);
               CreatedAt := whole_second created;
               Status := "pending"; Error := EmptyString |}]
  else outcome.1 = w.
Proof.
  cbv zeta. unfold schedule_payment. destruct w as [s ws]. simpl.
  destruct (json_Unmarshal_params _) as [params|]; [|done].
  destruct (ParseFloat (p_Amount params)) as [a err] eqn:Ha.
  destruct err as [err|].
  { rewrite bool_decide_eq_true_2 by done. done. }
  rewrite bool_decide_eq_false_2 by (by intros []). simpl.
  destruct (a <=? 0)%float eqn:Hpos; [done|].
  destruct (parse_RFC3339 _) as [scheduledAt|] eqn:Hdate; [|done].
  case_bool_decide as Hnow; [done|].
  destruct (Execute (search_request _ _)) as [searchResp|]; [|done].
  destruct (resp_Success searchResp); [|done]. simpl.
  destruct (no_users_found _); [done|].
  destruct (Execute (balance_request _ _)) as [balanceResp|]; [|done].
  destruct (resp_Success balanceResp); [|done]. simpl.
  destruct (GetPendingTotalByCurrency s) as [pendingTotals|]; [|done].
  destruct (_ <? a)%float; [done|].
  unfold Add. destruct (fault s); [done|]. simpl.
  case_bool_decide as Hid; [done|]. simpl. split; [done|].
  exists params, a, scheduledAt. split_and!; try done; [by apply not_leb_zero|lia].
Qed.

(** X16.  The [send_money] wrapper leaves the payment store alone and
    delegates at most one send, the caller's own request; it reports
    success only when that send was delegated and the executor reported
    success, and then returns the executor's data. *)
Theorem send_money_effects w toolParams :
  let outcome := send_money w toolParams in
  store outcome.1 = store w ∧
  (writes outcome.1 = writes w ∨
   writes outcome.1 = writes w ++ [send_request toolParams]) ∧
  (Success outcome.2 = true →
   writes outcome.1 = writes w ++ [send_request toolParams] ∧
   ∃ resp, ExecuteWrite (send_request toolParams) = Ok resp ∧
           resp_Success resp = true ∧ Data outcome.2 = AString (resp_Data resp)).
Proof.
  assert (Hrejected : ∀ msg,
            store (w, failed msg).1 = store w ∧
            (writes (w, failed msg).1 = writes w ∨
             writes (w, failed msg).1 = writes w ++ [send_request toolParams]) ∧
            (Success (w, failed msg).2 = true →
             writes (w, failed msg).1 = writes w ++ [send_request toolParams] ∧
             ∃ resp, ExecuteWrite (send_request toolParams) = Ok resp ∧
                     resp_Success resp = true ∧
                     Data (w, failed msg).2 = AString (resp_Data resp))).
  { intros msg. simpl. split_and!; [done|by left|discriminate]. }
  cbv zeta. unfold send_money.
  destruct (json_Unmarshal_params _) as [params|]; [|apply Hrejected].
  destruct (ParseFloat (p_Amount params)) as [a err].
  destruct (bool_decide (err ≠ None) || (a <=? 0)%float); [apply Hrejected|].
  destruct (Execute _) as [balanceResp|]; [|apply Hrejected].
  destruct (negb (resp_Success balanceResp)); [apply Hrejected|].
  destruct (GetPendingTotalByCurrency (store w)) as [pendingTotals|];
    [|apply Hrejected].
  destruct (_ <? a)%float; [apply Hrejected|].
  destruct (ExecuteWrite _) as [resp|] eqn:Hwrite;
    [|simpl; split_and!; [done|by right|discriminate]].
  destruct (resp_Success resp) eqn:Hok; simpl;
    [|split_and!; [done|by right|discriminate]].
  split_and!; [done|by right|]. intros _. split; [done|]. by exists resp.
Qed.

End tools.

(** ** The scenario of the specification: 10 USDC are reserved by a pending
    scheduled payment and the live balance is 25 USDC; to send 20 USDC is
    refused, to send 10 USDC is not. *)

Definition sample_ParseFloat (s : string) : float * option string :=
  if bool_decide (s = "10") then (10%float, None)
  else if bool_decide (s = "20") then (20%float, None)
  else if bool_decide (s = "25") then (25%float, None)
  else (0%float, Some "invalid syntax").

(** A decoder of tool inputs that takes the input for the amount. *)
Definition sample_params (amount : string) : Params :=
  {| p_Recipient := "@alice"; p_Amount := amount; p_Currency := "USDC";
     p_ScheduledAt := "2026-02-16T09:00:00Z"; p_Note := EmptyString |}.

Definition sample_json_Unmarshal (data : string) : result Any :=
  if bool_decide (data = "balance")
  then Ok (AMap [("balances",
                  AList [AMap [("currency", AString "EURC"); ("amount", AString "20")];
                         AMap [("currency", AString "USDC"); ("amount", AString "25")]])])
  else if bool_decide (data = "nobody") then Ok (AMap [("users", AList [])])
  else Ok (AMap [("users", AList [AString "alice"])]).

(** An account in which the search for [@alice] finds her and any other
    search finds nobody. *)
Definition sample_Execute (req : ExecuteRequest) : result ExecuteResponse :=
  Ok {| resp_Success := true;
        resp_Data := if bool_decide (req_Tool req = "get_balance") then "balance"
                     else if bool_decide (req_Input req = "alice") then "users"
                     else "nobody";
        resp_Error := EmptyString |}.

Definition sample_json_Marshal (v : Any) : string :=
  match v with
  | AMap [(_, AString s)] => s
  | _ => "{}"
  end.

Definition sample_toolParams (amount : string) : ToolParams :=
  {| UserID := "u1"; Input := amount; RequestID := "r1" |}.

Definition sample_world : World :=
  {| store := {| rows := [ {| ID := "p1"; Recipient := "@alice"; Amount := "10";
                              Currency := "USDC"; Note := EmptyString;
                              ScheduledAt := 2000000000; CreatedAt := 1000000000;
                              Status := "pending"; Error := EmptyString |} ];
                 fault := None |};
     writes := [] |}.

Definition sample_send_money : World → ToolParams → World * ToolResult :=
  send_money (λ s, (sample_ParseFloat s).1) (foldr PrimFloat.add 0%float)
    sample_ParseFloat sample_json_Unmarshal (λ input, Ok (sample_params input))
    sample_json_Marshal (λ _, "?") sample_Execute sample_Execute.

(** [schedule_payment] with a recipient of the caller's choice. *)
Definition sample_schedule_payment (recipient : string)
  : World → ToolParams → World * ToolResult :=
  λ w toolParams,
    schedule_payment (λ s, (sample_ParseFloat s).1) (foldr PrimFloat.add 0%float)
      sample_ParseFloat (λ _, Ok {| instant := 5000000000; zone := 0 |})
      (λ _ _, "2026-02-16T09:00:00Z") sample_json_Unmarshal
      (λ input, Ok {| p_Recipient := recipient; p_Amount := input;
                      p_Currency := "USDC";
                      p_ScheduledAt := "2026-02-16T09:00:00Z";
                      p_Note := EmptyString |})
      sample_json_Marshal (λ _, "?") sample_Execute
      w 3000000000 3000000001 "p2" toolParams.



(** ** The steps and the edges *)

Lemma follows_edges_refl s : follows_edges s s.
Proof.
  exists (rows s), []. rewrite app_nil_r. split_and!; [done| |done].
  apply Forall2_same_length_lookup_2; [done|]. intros i p p' H1 H2.
  rewrite H1 in H2. injection H2 as <-. auto.
Qed.

(** [Cancel] moves pending rows to cancelled and no other row. *)
Lemma Cancel_follows_edges s id : follows_edges s (Cancel s id).1.
Proof.
  unfold Cancel. destruct (fault s); [apply follows_edges_refl|].
  cbv zeta. case_bool_decide; [apply follows_edges_refl|]. cbn [fst with_rows rows].
  eexists _, []. rewrite app_nil_r. split_and!; [done| |done].
  apply Forall2_fmap_r, Forall2_same_length_lookup_2; [done|].
  intros i p p' H1 H2. rewrite H1 in H2. injection H2 as <-.
  cbv beta delta [compose].
  case_bool_decide as Hhit; simpl; [|auto].
  split; [done|]. right. unfold edge. destruct Hhit as [_ ->]. auto.
Qed.

(** [Add], as [schedule_payment] calls it, adds one pending row. *)
Lemma Add_follows_edges s params scheduledAt created uuid :
  follows_edges s (Add s (new_payment params scheduledAt created uuid)).1.
Proof.
  unfold Add. destruct (fault s); [apply follows_edges_refl|].
  case_bool_decide; [apply follows_edges_refl|]. simpl.
  eexists (rows s), [_]. split_and!; [done| |by repeat constructor].
  apply Forall2_same_length_lookup_2; [done|]. intros i p p' H1 H2.
  rewrite H1 in H2. injection H2 as <-. auto.
Qed.

(** The steps of the tools follow the edges whatever the state. *)
Lemma tool_steps_follow_edges sys ev :
  (∀ outcome, ev ≠ Sent outcome) → ev ≠ Mark →
  follows_edges (sys_store sys) (sys_store (step sys ev)).
Proof.
  intros Hsent Hmark. destruct ev as [now| |outcome|params at_ created uuid|id|f];
    try done; unfold step.
  - destruct (sys_scheduler sys) as [|[|]|]; try apply follows_edges_refl;
      destruct (GetDue _ _); apply follows_edges_refl.
  - by destruct (Hsent outcome).
  - apply Add_follows_edges.
  - apply Cancel_follows_edges.
  - simpl. destruct (follows_edges_refl (sys_store sys)) as (old & new & ? & ? & ?).
    by exists old, new.
Qed.

(** [UpdateStatus] follows an edge when the rows it updates are where the
    edge starts. *)
Lemma UpdateStatus_follows_edges s id from to errMsg :
  all_with_id s id from → edge from to →
  follows_edges s (UpdateStatus s id to errMsg).1.
Proof.
  intros Hall Hedge. unfold UpdateStatus.
  destruct (fault s); [apply follows_edges_refl|]. cbn [fst with_rows rows].
  eexists _, []. rewrite app_nil_r. split_and!; [done| |done].
  apply Forall2_fmap_r, Forall2_same_length_lookup_2; [done|].
  intros i p p' H1 H2. rewrite H1 in H2. injection H2 as <-.
  cbv beta delta [compose]. case_bool_decide as Hid; simpl; [|auto].
  split; [done|]. right.
  by rewrite (Hall p (list_elem_of_lookup_2 _ _ _ H1) Hid).
Qed.

(** As long as what the scheduler remembers is not stale, every step of the
    system follows the edges. *)
Lemma step_follows_edges sys ev :
  not_stale sys → follows_edges (sys_store sys) (sys_store (step sys ev)).
Proof.
  intros Hfresh.
  destruct ev as [now| |outcome|params at_ created uuid|id|f];
    try (by apply tool_steps_follow_edges).
  - unfold step, not_stale in *.
    destruct (sys_scheduler sys) as [|[|p rest]|]; try apply follows_edges_refl.
    pose proof (UpdateStatus_follows_edges (sys_store sys) (ID p) "pending"
                  "executing" EmptyString Hfresh) as H.
    destruct (UpdateStatus _ _ _ _) as [s' [err|]]; apply H; unfold edge; auto.
  - unfold step, not_stale in *.
    destruct (sys_scheduler sys) as [|?|p rest]; try apply follows_edges_refl.
    destruct outcome as [resp|err]; [destruct (resp_Success resp)|]; simpl;
      apply (UpdateStatus_follows_edges _ _ "executing"); unfold edge; auto.
Qed.

(** C6 at a concrete run.  The ticker fires with two payments due; while the
    first is being sent the user cancels the second, and is told so; the
    scheduler, going by the list it read at the tick, then marks the
    cancelled row as executing and sends it. *)
Theorem cancelled_payment_is_executed :
  statuses (run two_due [Tick 100; Mark; Cancelled "p2"])
    = [("p1", "executing"); ("p2", "cancelled")] ∧
  (Cancel (sys_store (run two_due [Tick 100; Mark])) "p2").2 = None ∧
  statuses (run two_due [Tick 100; Mark; Cancelled "p2"; sent_ok; Mark])
    = [("p1", "executed"); ("p2", "executing")] ∧
  statuses (run two_due [Tick 100; Mark; Cancelled "p2"; sent_ok; Mark; sent_ok])
    = [("p1", "executed"); ("p2", "executed")] ∧
  ID <$> sys_sent (run two_due [Tick 100; Mark; Cancelled "p2"; sent_ok; Mark; sent_ok])
    = ["p1"; "p2"] ∧
  ¬ follows_edges
      (sys_store (run two_due [Tick 100; Mark; Cancelled "p2"; sent_ok]))
      (sys_store (run two_due [Tick 100; Mark; Cancelled "p2"; sent_ok; Mark])).
Proof.
  split_and!; try (vm_compute; reflexivity).
  intros (old & new & Hrows & Hold & _).
  assert (Hbefore : rows (sys_store (run two_due [Tick 100; Mark; Cancelled "p2"; sent_ok]))
            = [set_status "executed" EmptyString (due_payment "p1");
               set_status "cancelled" EmptyString (due_payment "p2")])
    by (vm_compute; reflexivity).
  assert (Hafter : rows (sys_store (run two_due
                     [Tick 100; Mark; Cancelled "p2"; sent_ok; Mark]))
            = [set_status "executed" EmptyString (due_payment "p1");
               set_status "executing" EmptyString (due_payment "p2")])
    by (vm_compute; reflexivity).
  rewrite Hafter in Hrows. rewrite Hbefore in Hold.
  apply Forall2_cons_inv_l in Hold as (p1' & old1 & _ & Hold & ->).
  apply Forall2_cons_inv_l in Hold as (p2' & old2 & [_ H2] & Hold & ->).
  apply Forall2_nil_inv_l in Hold as ->.
  simpl in Hrows. injection Hrows as _ <- _. simpl in H2.
  unfold edge in H2. destruct H2 as [|[[? ?]|[[? ?]|[[? ?]|[? ?]]]]]; discriminate.
Qed.

(** ** The store as its callers see it *)

#[local] Instance earlier_transitive : Transitive earlier.
Proof. unfold earlier. intros p q r. lia. Qed.

#[local] Instance earlier_total : Total earlier.
Proof. unfold earlier. intros p q. lia. Qed.

Lemma insert_by_time_Permutation p l : insert_by_time p l ≡ₚ p :: l.
Proof.
  induction l as [|q l IH]; simpl; [done|].
  destruct (decide (earlier p q)); [done|]. rewrite IH. apply Permutation_swap.
Qed.

Lemma order_by_scheduled_at_Permutation l : order_by_scheduled_at l ≡ₚ l.
Proof.
  induction l as [|p l IH]; simpl; [done|].
  by rewrite insert_by_time_Permutation, IH.
Qed.

Lemma insert_by_time_sorted p l :
  StronglySorted earlier l → StronglySorted earlier (insert_by_time p l).
Proof.
  induction 1 as [|q l Hl IH Hq]; simpl; [by repeat constructor|].
  destruct (decide (earlier p q)) as [Hpq|Hpq].
  - constructor; [by constructor|]. constructor; [done|].
    eapply Forall_impl; [exact Hq|]. intros r Hr. by etrans.
  - constructor; [done|]. rewrite insert_by_time_Permutation.
    constructor; [|done]. by destruct (total earlier p q).
Qed.

Lemma order_by_scheduled_at_sorted l : StronglySorted earlier (order_by_scheduled_at l).
Proof.
  induction l as [|p l IH]; simpl; [constructor|]. by apply insert_by_time_sorted.
Qed.

(** Where a row goes in a list of two parts. *)
Lemma insert_by_time_app p before after :
  insert_by_time p (before ++ after) =
    if bool_decide (Exists (earlier p) before)
    then insert_by_time p before ++ after
    else before ++ insert_by_time p after.
Proof.
  induction before as [|q before IH]; [done|].
  cbn [app insert_by_time].
  destruct (decide (earlier p q)) as [Hpq|Hpq].
  - rewrite bool_decide_eq_true_2; [done|]. by left.
  - rewrite IH. case_bool_decide as Hex.
    + rewrite bool_decide_eq_true_2; [done|]. by right.
    + rewrite bool_decide_eq_false_2; [done|].
      by intros [?|?]%Exists_cons.
Qed.

(** The row inserted last comes after the rows that are not later than it
    and before those that are. *)
Lemma order_by_scheduled_at_snoc l x :
  ∃ before after,
    order_by_scheduled_at l = before ++ after ∧
    order_by_scheduled_at (l ++ [x]) = before ++ x :: after ∧
    Forall (λ q, ScheduledAt q ≤ ScheduledAt x)%Z before ∧
    Forall (λ q, ScheduledAt x < ScheduledAt q)%Z after.
Proof.
  induction l as [|y l (before & after & Hl & Hlx & Hbefore & Hafter)]; simpl.
  - by exists [], [].
  - rewrite Hl, Hlx, !insert_by_time_app.
    case_bool_decide as Hex.
    + exists (insert_by_time y before), after. split_and!; [done..| |done].
      rewrite insert_by_time_Permutation. constructor; [|done].
      apply Exists_exists in Hex as (q & Hq & Hyq).
      rewrite Forall_forall in Hbefore. specialize (Hbefore q Hq).
      unfold earlier in Hyq. lia.
    + simpl. destruct (decide (earlier y x)) as [Hyx|Hyx].
      * exists (before ++ [y]), after. rewrite <- !app_assoc. simpl.
        split_and!; [|done| |done].
        -- f_equal. destruct after as [|q after]; simpl; [done|].
           rewrite decide_True; [done|].
           apply Forall_cons in Hafter as [Hq _]. unfold earlier in *. lia.
        -- apply Forall_app. split; [done|]. by apply Forall_singleton.
      * exists before, (insert_by_time y after). split_and!; [done..|].
        rewrite insert_by_time_Permutation. constructor; [|done].
        unfold earlier in Hyx. lia.
Qed.





Lemma has_pending_filter s id :
  length (filter (λ p, bool_decide (ID p = id ∧ Status p = "pending") = true) (rows s)) = 0
  ↔ ¬ has_pending s id.
Proof.
  rewrite length_zero_iff_nil. split.
  - intros Hnil (p & Hin & Hid & Hst).
    assert (Hp : p ∈ filter (λ p, bool_decide (ID p = id ∧ Status p = "pending") = true)
                            (rows s)).
    { apply list_elem_of_filter. split; [|done]. by apply bool_decide_eq_true_2. }
    rewrite Hnil in Hp. by apply elem_of_nil in Hp.
  - intros Hno.
    destruct (filter _ (rows s)) as [|q l] eqn:E; [done|]. exfalso. apply Hno.
    assert (Hq : q ∈ q :: l) by left. rewrite <- E in Hq.
    apply list_elem_of_filter in Hq as [Hhit%bool_decide_eq_true_1 Hin].
    exists q. by destruct Hhit.
Qed.

(** X13.  On a working database, [Cancel] succeeds exactly when a row with
    the identifier is pending.  It then turns those rows to cancelled and
    touches nothing else, so that no row with the identifier is pending any
    more and cancelling again fails; when it fails the store is as it
    was. *)
Theorem Cancel_once s id :
  fault s = None →
  (¬ has_pending s id →
   Cancel s id =
     (s, Some ("payment " +:+ id +:+ " not found or not in pending status"))) ∧
  (has_pending s id →
   ∃ s', Cancel s id = (s', None) ∧ ¬ has_pending s' id ∧
     Cancel s' id =
       (s', Some ("payment " +:+ id +:+ " not found or not in pending status")) ∧
     Forall2 (λ p p', if bool_decide (ID p = id ∧ Status p = "pending")
                      then p' = set_status "cancelled" (Error p) p else p' = p)
             (rows s) (rows s')).
Proof.
  intros Hf.
  assert (Hfail : ∀ s0, fault s0 = None → ¬ has_pending s0 id →
            Cancel s0 id =
              (s0, Some ("payment " +:+ id +:+ " not found or not in pending status"))).
  { intros s0 Hf0 Hno%has_pending_filter. unfold Cancel. rewrite Hf0. cbv zeta.
    by rewrite bool_decide_eq_true_2. }
  split; [by apply Hfail|]. intros Hsome.
  unfold Cancel at 1. rewrite Hf. cbv zeta.
  rewrite bool_decide_eq_false_2 by (by rewrite has_pending_filter; intros []).
  eexists. split; [reflexivity|].
  assert (Hgone : ¬ has_pending
            (with_rows s ((λ p, if bool_decide (ID p = id ∧ Status p = "pending")
                                then set_status "cancelled" (Error p) p else p)
                          <$> rows s)) id).
  { intros (p' & Hin & Hid & Hst). simpl in Hin.
    apply list_elem_of_fmap in Hin as (p & -> & Hin).
    case_bool_decide as Hhit; [done|]. by apply Hhit. }
  split_and!; [done|by apply Hfail|].
  simpl. apply Forall2_fmap_r, Forall2_same_length_lookup_2; [done|].
  intros i p p' H1 H2. rewrite H1 in H2. injection H2 as <-.
  cbv beta delta [compose].
  by destruct (bool_decide (ID p = id ∧ Status p = "pending")).
Qed.

(** [Cancel_once]: the second payment of the sample is cancelled, once. *)
Lemma Cancel_once_witness :
  ∃ s', Cancel (sys_store two_due) "p2" = (s', None) ∧
        (λ p, (ID p, Status p)) <$> rows s' = [("p1", "pending"); ("p2", "cancelled")] ∧
        is_Some (Cancel s' "p2").2.
Proof.
  destruct (proj2 (Cancel_once (sys_store two_due) "p2" eq_refl))
    as (s' & Hcancel & _ & Hagain & _).
  - exists (due_payment "p2"). split_and!; [|done..]. right. left.
  - exists s'. split_and!; [done| |by rewrite Hagain].
    unfold Cancel in Hcancel. simpl in Hcancel. injection Hcancel as <-.
    vm_compute. reflexivity.
Defined.

(** ** The reservation and the store *)

Lemma filter_ext_in {A} (P Q : A → Prop) `{∀ x, Decision (P x)} `{∀ x, Decision (Q x)}
    (l : list A) :
  (∀ x, x ∈ l → (P x ↔ Q x)) → filter P l = filter Q l.
Proof.
  induction l as [|x l IH]; intros Hl; [done|].
  rewrite !filter_cons.
  assert (Hx : P x ↔ Q x) by (apply Hl; left).
  assert (Hrest : filter P l = filter Q l) by (apply IH; intros y Hy; apply Hl; by right).
  destruct (decide (P x)), (decide (Q x)); try tauto; by rewrite Hrest.
Qed.

Lemma filter_fmap_list {A B} (f : A → B) (P : B → Prop) `{∀ x, Decision (P x)}
    (l : list A) :
  filter P (f <$> l) = f <$> filter (P ∘ f) l.
Proof.
  induction l as [|x l IH]; [done|]. rewrite fmap_cons, !filter_cons.
  unfold compose at 1. destruct (decide (P (f x))); by rewrite IH.
Qed.

(** X29.  The amounts that count as reserved in a currency follow the
    store: a payment added as pending adds its amount to those of its
    currency, and [Cancel] removes the amounts of the pending rows under the
    cancelled identifier (nothing, when it fails). *)
Theorem reservation_follows_store (sql_cast_real : string → float) s currency :
  fault s = None →
  (∀ p, Status p = "pending" → ID p ∉ ID <$> rows s →
     pending_amounts sql_cast_real (Add s p).1 currency =
       pending_amounts sql_cast_real s currency
       ++ (if bool_decide (Currency p = currency)
           then [sql_cast_real (Amount p)] else [])) ∧
  (∀ id,
     pending_amounts sql_cast_real (Cancel s id).1 currency =
       (λ p, sql_cast_real (Amount p))
         <$> filter (λ p, (Status p = "pending" ∧ Currency p = currency) ∧ ID p ≠ id)
               (rows s)).
Proof.
  intros Hf. split.
  - intros p Hp Hid. unfold Add, pending_amounts. rewrite Hf.
    rewrite bool_decide_eq_false_2 by done. simpl.
    rewrite filter_app, fmap_app. f_equal.
    rewrite filter_cons, filter_nil. simpl. rewrite Hp.
    case_bool_decide as Hc.
    + rewrite decide_True; [done|by split].
    + rewrite decide_False; [done|]. by intros [_ ?].
  - intros id. unfold Cancel, pending_amounts. rewrite Hf. cbv zeta.
    case_bool_decide as Hnone; cbn [fst with_rows rows].
    + f_equal. apply filter_ext_in. intros p Hin.
      apply has_pending_filter in Hnone.
      split; [|tauto]. intros [Hst Hc]. split; [done|]. intros Hid.
      apply Hnone. by exists p.
    + rewrite filter_fmap_list, <- list_fmap_compose.
      erewrite (filter_ext_in _ (λ p, (Status p = "pending" ∧ Currency p = currency)
                                      ∧ ID p ≠ id)).
      * apply list_fmap_ext. intros i p _. unfold compose.
        by case_bool_decide.
      * intros p _. unfold compose. case_bool_decide as Hhit; simpl.
        -- split; [by intros [? _]|]. by intros [_ ?]; destruct Hhit.
        -- split; [|tauto]. intros [Hst Hc]. split; [done|]. intros Hid.
           by apply Hhit.
Qed.

Lemma reservation_follows_store_witness :
  pending_amounts (λ s, (sample_ParseFloat s).1)
    (Cancel (sys_store two_due) "p2").1 "USDC"
  = (λ p, (sample_ParseFloat (Amount p)).1) <$> [due_payment "p1"].
Proof.
  rewrite (proj2 (reservation_follows_store (λ s, (sample_ParseFloat s).1)
                    (sys_store two_due) "USDC" eq_refl) "p2").
  reflexivity.
Defined.

(** ** A pass of the scheduler *)

Lemma UpdateStatus_working s id status errMsg :
  fault s = None →
  UpdateStatus s id status errMsg =
    (with_rows s ((λ p, if bool_decide (ID p = id)
                        then set_status status errMsg p else p) <$> rows s), None).
Proof. intros Hf. unfold UpdateStatus. by rewrite Hf. Qed.

Lemma recorded_as_again outcome status errMsg p p' :
  recorded_as outcome (set_status status errMsg p) p' → recorded_as outcome p p'.
Proof. unfold recorded_as. destruct outcome as [resp|e]; [destruct (resp_Success resp)|]; done. Qed.

(** A row settled with respect to the rest of the list, after the head of
    the list has had its two updates. *)
Lemma settled_cons d rest outcome outcomes status errMsg p p' :
  recorded_as outcome p (set_status status errMsg p) →
  settled rest outcomes
    (if bool_decide (ID p = ID d) then set_status status errMsg p else p) p' →
  settled (d :: rest) (outcome :: outcomes) p p'.
Proof.
  intros Hrec. unfold settled. case_bool_decide as Hid.
  - intros [[Hout ->]|(i & d1 & o1 & Hd1 & Ho1 & Hid1 & Hlast & Hrec1)]; right.
    + exists 0, d, outcome. split_and!; [done..| |done].
      intros [|j] d' Hj Hd'; [lia|]. simpl in Hd'. intros Hsame. apply Hout.
      simpl. rewrite <- Hsame. apply list_elem_of_fmap. exists d'.
      split; [done|]. by eapply list_elem_of_lookup_2.
    + exists (S i), d1, o1. split_and!; [done..| |by eapply recorded_as_again].
      intros [|j] d' Hj Hd'; [lia|]. apply (Hlast j d'); [lia|done].
  - intros [[Hout ->]|(i & d1 & o1 & Hd1 & Ho1 & Hid1 & Hlast & Hrec1)].
    + left. split; [|done]. simpl. intros [?|?]%elem_of_cons; [by apply Hid|done].
    + right. exists (S i), d1, o1. split_and!; [done..| |done].
      intros [|j] d' Hj Hd'; [lia|]. apply (Hlast j d'); [lia|done].
Qed.

Lemma pass_from_due due :
  ∀ outcomes sys,
    sys_scheduler sys = Due due → fault (sys_store sys) = None →
    length outcomes = length due →
    let sys' := run sys (pass_events outcomes) in
    sys_scheduler sys' = Due [] ∧ sys_sent sys' = sys_sent sys ++ due ∧
    fault (sys_store sys') = None ∧
    Forall2 (settled due outcomes) (rows (sys_store sys)) (rows (sys_store sys')).
Proof.
  induction due as [|p rest IH]; intros outcomes sys Hsched Hf Hlen.
  - destruct outcomes; [|done]. simpl. rewrite app_nil_r. split_and!; try done.
    apply Forall2_same_length_lookup_2; [done|]. intros i q q' H1 H2.
    rewrite H1 in H2. injection H2 as <-. left. split; [|done]. apply not_elem_of_nil.
  - destruct outcomes as [|outcome outcomes]; [done|]. simpl in Hlen.
    cbv zeta. unfold pass_events, run. cbn [mbind list_bind]. 
    change (foldl step sys ([Mark; Sent outcome] ++ (outcomes ≫= λ o, [Mark; Sent o])))
      with (foldl step sys ([Mark; Sent outcome] ++ pass_events outcomes)).
    rewrite foldl_app. cbn [foldl].
    set (status := match outcome with
                   | Ok resp => if negb (resp_Success resp) then "failed" else "executed"
                   | Err _ => "failed"
                   end).
    set (errMsg := match outcome with
                   | Ok resp => if negb (resp_Success resp)
                                then "send_money failed: " +:+ resp_Error resp
                                else EmptyString
                   | Err e => "execution error: " +:+ e
                   end).
    set (s1 := with_rows (sys_store sys)
                 ((λ q, if bool_decide (ID q = ID p)
                        then set_status "executing" EmptyString q else q)
                  <$> rows (sys_store sys))).
    set (s2 := with_rows s1
                 ((λ q, if bool_decide (ID q = ID p)
                        then set_status status errMsg q else q) <$> rows s1)).
    assert (Hstep : step (step sys Mark) (Sent outcome) =
                    {| sys_store := s2; sys_scheduler := Due rest;
                       sys_sent := sys_sent sys ++ [p] |}).
    { unfold step at 2. rewrite Hsched, (UpdateStatus_working _ _ _ _ Hf).
      unfold step. cbn [sys_scheduler sys_store sys_sent]. fold s1.
      assert (Hf1 : fault s1 = None) by done.
      unfold s2, status, errMsg.
      destruct outcome as [resp|e]; [destruct (resp_Success resp)|]; simpl negb;
        cbv iota; by rewrite (UpdateStatus_working _ _ _ _ Hf1). }
    rewrite Hstep.
    destruct (IH outcomes {| sys_store := s2; sys_scheduler := Due rest;
                             sys_sent := sys_sent sys ++ [p] |})
      as (Hs & Hsent & Hfault & Hrows); [done|done|lia|].
    cbv zeta in Hs, Hsent, Hfault, Hrows. unfold run in *.
    split_and!; [done| |done|].
    + rewrite Hsent. simpl. by rewrite <- app_assoc.
    + assert (Hr2 : rows s2 =
                ((λ q, if bool_decide (ID q = ID p)
                       then set_status status errMsg q else q)
                 ∘ (λ q, if bool_decide (ID q = ID p)
                         then set_status "executing" EmptyString q else q))
                <$> rows (sys_store sys)).
      { unfold s2, s1. simpl. by rewrite <- list_fmap_compose. }
      cbn [sys_store] in Hrows. rewrite Hr2 in Hrows.
      rewrite Forall2_fmap_l in Hrows.
      eapply Forall2_impl; [exact Hrows|]. intros q q' Hq.
      cbv beta delta [compose] in Hq.
      apply (settled_cons p rest outcome outcomes status errMsg).
      * unfold recorded_as, status, errMsg.
        destruct outcome as [resp|e]; [destruct (resp_Success resp)|]; done.
      * destruct (decide (ID q = ID p)) as [Hid|Hid].
        -- rewrite bool_decide_eq_true_2 by done.
           rewrite (bool_decide_eq_true_2 (ID q = ID p)) in Hq by done.
           rewrite (bool_decide_eq_true_2 (ID (set_status "executing" EmptyString q) = ID p))
             in Hq by done.
           exact Hq.
        -- rewrite bool_decide_eq_false_2 by done.
           by rewrite !(bool_decide_eq_false_2 (ID q = ID p)) in Hq by done.
Qed.

(** X14.  A pass of the scheduler that no tool call interleaves with: the
    ticker fires, the scheduler reads the due payments and, for each in
    turn, marks it executing, sends it and records the outcome.  Every due
    payment is sent once, in the order of the list.  Afterwards a row under
    the identifier of a due payment is executed when the send of that
    payment succeeded, and failed, with the error of the executor, when it
    did not; every other row is as it was. *)
Theorem scheduler_pass sys now due outcomes :
  sys_scheduler sys = Idle → fault (sys_store sys) = None →
  GetDue (sys_store sys) now = Ok due → length outcomes = length due →
  let sys' := run sys (Tick now :: pass_events outcomes) in
  sys_scheduler sys' = Due [] ∧ sys_sent sys' = sys_sent sys ++ due ∧
  Forall2
    (λ p p',
       ((ID p ∉ ID <$> due) ∧ p' = p) ∨
       ∃ i d outcome,
         due !! i = Some d ∧ outcomes !! i = Some outcome ∧ ID d = ID p ∧
         (∀ j d', i < j → due !! j = Some d' → ID d' ≠ ID p) ∧
         match outcome with
         | Err e => p' = set_status "failed" ("execution error: " +:+ e) p
         | Ok resp =>
             if resp_Success resp then p' = set_status "executed" EmptyString p
             else p' = set_status "failed"
                         ("send_money failed: " +:+ resp_Error resp) p
         end)
    (rows (sys_store sys)) (rows (sys_store sys')).
Proof.
  intros Hidle Hf Hdue Hlen. cbv zeta. unfold run. cbn [foldl].
  assert (Hstep : step sys (Tick now) =
                  {| sys_store := sys_store sys; sys_scheduler := Due due;
                     sys_sent := sys_sent sys |}).
  { unfold step. by rewrite Hidle, Hdue. }
  rewrite Hstep.
  destruct (pass_from_due due outcomes
              {| sys_store := sys_store sys; sys_scheduler := Due due;
                 sys_sent := sys_sent sys |}) as (Hs & Hsent & _ & Hrows); try done.
Qed.

(** [scheduler_pass] at the sample: the first send succeeds, the second is
    refused. *)
Lemma scheduler_pass_witness :
  (λ p, (ID p, Status p, Error p))
    <$> rows (sys_store (run two_due (Tick 100 :: pass_events
              [Ok {| resp_Success := true; resp_Data := "{}"; resp_Error := EmptyString |};
               Ok {| resp_Success := false; resp_Data := EmptyString;
                     resp_Error := "insufficient funds" |}])))
  = [("p1", "executed", EmptyString);
     ("p2", "failed", "send_money failed: insufficient funds")] ∧
  ID <$> sys_sent (run two_due (Tick 100 :: pass_events
              [Ok {| resp_Success := true; resp_Data := "{}"; resp_Error := EmptyString |};
               Ok {| resp_Success := false; resp_Data := EmptyString;
                     resp_Error := "insufficient funds" |}]))
  = ["p1"; "p2"].
Proof.
  destruct (GetDue (sys_store two_due) 100) as [due|e] eqn:E; [|discriminate E].
  destruct (scheduler_pass two_due 100 due
              [Ok {| resp_Success := true; resp_Data := "{}"; resp_Error := EmptyString |};
               Ok {| resp_Success := false; resp_Data := EmptyString;
                     resp_Error := "insufficient funds" |}] eq_refl eq_refl E)
    as (_ & Hsent & _).
  - injection E as <-. vm_compute. reflexivity.
  - split; [vm_compute; reflexivity|].
    cbv zeta in Hsent. rewrite Hsent. injection E as <-. vm_compute. reflexivity.
Defined.

End Payments.

(* ===================================================================== *)
(** * engine/engine.go *)
(* ===================================================================== *)

Module Engine.

(** ** Strings

    A Go string is a sequence of bytes, which the functions of [strings]
    read as UTF-8. *)

Definition bytes_of (s : string) : list N :=
  Ascii.N_of_ascii <$> String.list_ascii_of_string s.

Definition string_of (l : list N) : string :=
  String.string_of_list_ascii (Ascii.ascii_of_N <$> l).

(** [utf8.RuneError] *)
Definition RuneError : N := 65533.

(** A continuation byte, [0x80] to [0xBF]. *)
Definition is_continuation (b : N) : bool := (128 <=? b)%N && (b <=? 191)%N.

(** [utf8.DecodeRuneInString(s)]: the first rune of [s] and its width in
    bytes; an encoding that is invalid, too long or cut short is the rune
    [RuneError] of width 1. *)
Definition DecodeRune (s : list N) : N * nat :=
  match s with
  | [] => (RuneError, 0)
  | b0 :: rest =>
      if (b0 <? 128)%N then (b0, 1)
      else if (194 <=? b0)%N && (b0 <=? 223)%N then
        match rest with
        | b1 :: _ =>
            if is_continuation b1 then (((b0 - 192) * 64 + (b1 - 128))%N, 2)
            else (RuneError, 1)
        | _ => (RuneError, 1)
        end
      else if (224 <=? b0)%N && (b0 <=? 239)%N then
        match rest with
        | b1 :: b2 :: _ =>
            let lo := if (b0 =? 224)%N then 160%N else 128%N in
            let hi := if (b0 =? 237)%N then 159%N else 191%N in
            if (lo <=? b1)%N && (b1 <=? hi)%N && is_continuation b2
            then (((b0 - 224) * 4096 + (b1 - 128) * 64 + (b2 - 128))%N, 3)
            else (RuneError, 1)
        | _ => (RuneError, 1)
        end
      else if (240 <=? b0)%N && (b0 <=? 244)%N then
        match rest with
        | b1 :: b2 :: b3 :: _ =>
            let lo := if (b0 =? 240)%N then 144%N else 128%N in
            let hi := if (b0 =? 244)%N then 143%N else 191%N in
            if (lo <=? b1)%N && (b1 <=? hi)%N && is_continuation b2
               && is_continuation b3
            then (((b0 - 240) * 262144 + (b1 - 128) * 4096 + (b2 - 128) * 64
                   + (b3 - 128))%N, 4)
            else (RuneError, 1)
        | _ => (RuneError, 1)
        end
      else (RuneError, 1)
  end.

(** How many bytes back the nearest byte that starts a rune is, among the
    bytes [l] that precede the last one, nearest first. *)
Fixpoint rune_start_within (l : list N) : option nat :=
  match l with
  | [] => None
  | b :: l => if is_continuation b then S <$> rune_start_within l else Some 1
  end.

(** [utf8.DecodeLastRuneInString(s)]: the last rune of [s] and its width.
    The search for the start of the rune goes back over at most three bytes
    before the last. *)
Definition DecodeLastRune (s : list N) : N * nat :=
  match reverse s with
  | [] => (RuneError, 0)
  | last :: before =>
      if (last <? 128)%N then (last, 1)
      else
        match rune_start_within (take 3 before) with
        | None => (RuneError, 1)
        | Some n =>
            let encoding := reverse (take n before) ++ [last] in
            let '(r, size) := DecodeRune encoding in
            if bool_decide (size = length encoding) then (r, size)
            else (RuneError, 1)
        end
  end.

(** [unicode.IsSpace(r)]: the white space of Latin-1 (tab, line feed,
    vertical tab, form feed, carriage return, space, U+0085, U+00A0) and,
    beyond it, the code points with the property White_Space (U+1680,
    U+2000 to U+200A, U+2028, U+2029, U+202F, U+205F, U+3000). *)
Definition IsSpace (r : N) : bool :=
  bool_decide (r ∈ [9; 10; 11; 12; 13; 32; 133; 160; 5760; 8232; 8233; 8239;
                    8287; 12288]%N)
  || ((8192 <=? r)%N && (r <=? 8202)%N).

(** [strings.TrimLeftFunc(s, unicode.IsSpace)], rune by rune. *)
Fixpoint trim_left (fuel : nat) (s : list N) : list N :=
  match fuel with
  | 0 => s
  | S fuel =>
      let '(r, size) := DecodeRune s in
      if bool_decide (0 < size) && IsSpace r then trim_left fuel (drop size s) else s
  end.

(** [strings.TrimRightFunc(s, unicode.IsSpace)] *)
Fixpoint trim_right (fuel : nat) (s : list N) : list N :=
  match fuel with
  | 0 => s
  | S fuel =>
      let '(r, size) := DecodeLastRune s in
      if bool_decide (0 < size) && IsSpace r
      then trim_right fuel (take (length s - size) s) else s
  end.

(** [strings.TrimSpace(s)].  The library goes over leading and trailing
    ASCII bytes itself and hands over to [TrimFunc(s, unicode.IsSpace)] at
    the first byte outside ASCII; the result is that of [TrimFunc] on the
    whole string. *)
Definition TrimSpace (s : string) : string :=
  let b := bytes_of s in
  let b := trim_left (length b) b in
  string_of (trim_right (length b) b).

Definition lower (c : Ascii.ascii) : Ascii.ascii :=
  let n := Ascii.nat_of_ascii c in
  if bool_decide (65 ≤ n ≤ 90) then Ascii.ascii_of_nat (n + 32) else c.

(** The loop of [strings.ToLower] over a string of ASCII bytes. *)
Fixpoint lower_ascii (s : string) : string :=
  match s with
  | String c rest => String (lower c) (lower_ascii rest)
  | EmptyString => s
  end.

(** [strings.Contains(s, substr)] *)
Fixpoint Contains (s substr : string) : bool :=
  String.prefix substr s ||
  match s with
  | String _ rest => Contains rest substr
  | EmptyString => false
  end.

Definition preventionMap : gmap string string :=
  {[ "send_money:insufficient_balance" :=
       "Check balance with get_balance before attempting transfer";
     "send_money:not_found" :=
       "Verify recipient exists with search_users before transfer";
     "send_money:invalid_input" :=
       "Validate amount is positive and recipient ID format is correct";
     "deposit_savings:insufficient_balance" :=
       "Check wallet balance before depositing to savings";
     "withdraw_savings:insufficient_balance" :=
       "Check savings balance with get_savings_balance before withdrawal" ]}.

(** [generatePrevention(action, errorType)] *)
Definition generatePrevention (action errorType : string) : string :=
  let key := action +:+ ":" +:+ errorType in
  match preventionMap !! key with
  | Some prevention => prevention
  | None =>
      (* Generic prevention by error type *)
      if bool_decide (errorType = "insufficient_balance")
      then "Check balance before attempting operation"
      else if bool_decide (errorType = "not_found")
      then "Verify the entity exists before referencing it"
      else if bool_decide (errorType = "invalid_input")
      then "Validate input parameters before submission"
      else if bool_decide (errorType = "rate_limit")
      then "Implement retry with backoff"
      else if bool_decide (errorType = "timeout")
      then "Retry operation with timeout handling"
      else "Review error message and adjust approach accordingly"
  end.

(** ** Data *)

Record ToolParams : Type := {
  P_UserID : string;
  P_Input : string;
  P_ConfirmationID : string;
  P_RequestID : string
}.

Record ToolResult : Type := {
  Success : bool;
  Data : Any;
  ResultError : string
}.

(** The [core.Tool] interface, as far as the engine calls it.  [Execute]
    returns a result pointer and an error, either of which may be nil;
    [FormatObservation] is the optional formatter. *)
Record Tool : Type := {
  Name : string;
  RequiresConfirmation : bool;
  GetSummary : string → string;
  Execute : ToolParams → option ToolResult * option string;
  FormatObservation : option (option ToolResult → option string → string)
}.

(** Content blocks of a message; the model's responses hold text and
    tool-use blocks (and possibly blocks of other types). *)
Inductive ContentBlock : Type :=
  | TextBlock (text : string)
  | ToolUseBlock (id name input : string)
  | ToolResultBlock (tool_use_id content : string) (is_error : bool)
  | OtherBlock (type : string).

Record Message : Type := {
  Role : string;
  Blocks : list ContentBlock
}.

(** [core.Trace] *)
Record Trace : Type := {
  TraceID : string;
  TraceSessionID : string;
  TurnNumber : Z;
  Thought : string;
  Action : string;
  ActionInput : string;
  Observation : string;
  TraceSuccess : bool;
  Timestamp : Z;
  Metadata : gmap string string
}.

(** [core.PendingAction] *)
Record PendingAction : Type := {
  PendingID : string;
  IdempotencyKey : string;
  PendingSessionID : string;
  PendingUserID : string;
  PendingTool : string;
  PendingInput : string;
  PendingThought : string;
  Summary : string;
  BlockID : string;
  CreatedAt : Z;
  ExpiresAt : Z
}.

Record ToolExecution : Type := {
  ExecTool : string;
  ExecInput : string;
  ExecError : string;
  ExecResult : option Any
}.

Record TokenUsage : Type := {
  InputTokens : Z;
  OutputTokens : Z
}.

Record AuditEntry : Type := {
  AuditID : string;
  AuditUserID : string;
  AuditSessionID : string;
  AuditParentID : option string;
  AgentName : string;
  ToolName : string;
  ToolInput : string;
  ToolOutput : option string;
  AuditError : option string;
  IsWriteOp : bool
}.

Record ExecutionLimits : Type := {
  MaxTurns : Z;
  LimitMaxTokens : Z;
  Timeout : Z;
  CanConfirm : bool
}.

Record Context : Type := {
  CtxUserID : string;
  ConversationID : string;
  Limits : option ExecutionLimits;
  CtxAuditParentID : option string
}.

Record Input : Type := {
  UserMessage : string;
  InputContext : option Context;
  History : list Message;
  SystemPrompt : string;
  Model : string;
  MaxTokens : Z;
  InputAgentName : string;
  AvailableTools : list string;
  StreamCallback : bool
}.

Inductive OutputType : Type :=
  | OutputComplete
  | OutputConfirmationNeeded
  | OutputError.

Record Output : Type := {
  Type_ : OutputType;
  Text : string;
  OutPendingAction : option PendingAction;
  ToolsUsed : list ToolExecution;
  ResponseBlocks : list ContentBlock;
  TokensUsed : TokenUsage;
  Error : option string
}.

(** The model's answer to one call. *)
Record Response : Type := {
  Content : list ContentBlock;
  UsageInput : Z;
  UsageOutput : Z
}.

(** Modelled from the spec: the session type of the engine package is not
    among the sources; section 3 and 4.4 give its fields and say that
    messages and traces are append-only. *)
Record Session : Type := {
  SessionID : string;
  SessionUserID : string;
  SessionConversationID : string;
  Messages : list Message;
  Traces : list Trace;
  TurnCount : Z
}.

(** Modelled from the spec: the session operations (section 4.4). *)
Definition AddMessage (s : Session) (m : Message) : Session :=
  {| SessionID := SessionID s; SessionUserID := SessionUserID s;
     SessionConversationID := SessionConversationID s;
     Messages := Messages s ++ [m]; Traces := Traces s; TurnCount := TurnCount s |}.

Definition RestoreHistory (s : Session) (history : list Message) : Session :=
  foldl AddMessage s history.

Definition AddUserMessage (s : Session) (text : string) : Session :=
  AddMessage s {| Role := "user"; Blocks := [TextBlock text] |}.

Definition AddAssistantMessage (s : Session) (text : string) : Session :=
  AddMessage s {| Role := "assistant"; Blocks := [TextBlock text] |}.

Definition AddAssistantResponse (s : Session) (resp : Response) : Session :=
  AddMessage s {| Role := "assistant"; Blocks := Content resp |}.

Definition AddToolResults (s : Session) (toolResults : list ContentBlock) : Session :=
  AddMessage s {| Role := "tool_result"; Blocks := toolResults |}.

Definition AddTrace (s : Session) (t : Trace) : Session :=
  {| SessionID := SessionID s; SessionUserID := SessionUserID s;
     SessionConversationID := SessionConversationID s;
     Messages := Messages s; Traces := Traces s ++ [t]; TurnCount := TurnCount s |}.

Definition IncrementTurnCount (s : Session) : Session :=
  {| SessionID := SessionID s; SessionUserID := SessionUserID s;
     SessionConversationID := SessionConversationID s;
     Messages := Messages s; Traces := Traces s; TurnCount := TurnCount s + 1 |}.

(** The optional collaborators. *)
Record GuardrailResult : Type := {
  Allowed : bool;
  Warning : string
}.

Record Guardrails : Type := {
  Check : string → result GuardrailResult
}.

Record MemoryManager : Type := {
  Retrieve : string → string → result string;
  RecordTraces : string → list Trace → option string;
  RecordConversation : string → string → string → option string
}.

(** [Engine].  Modelled from the spec: the tool registry (section 4.2) is
    not among the sources; [get(name)] is the lookup of a map keyed by tool
    name.  The audit logger only receives entries, so the model keeps whether
    one is configured. *)
Record Engine : Type := {
  registry : gmap string Tool;
  guardrails : option Guardrails;
  audit : bool;
  memory : option MemoryManager
}.

(** What a run acts on: its session, and what it has done to the world
    outside: the tool executions, the audit entries logged, the traces handed
    to the memory manager, the successes reported to the guardrails, and the
    number of identifiers and clock readings drawn so far. *)
Record World : Type := {
  session : Session;
  executed : list (Tool * ToolParams);
  audited : list AuditEntry;
  recorded : list (string * list Trace);
  successes : list string;
  clock : nat
}.

Definition with_session (w : World) (s : Session) : World :=
  {| session := s; executed := executed w; audited := audited w;
     recorded := recorded w; successes := successes w; clock := clock w |}.

Definition tick (w : World) : World :=
  {| session := session w; executed := executed w; audited := audited w;
     recorded := recorded w; successes := successes w; clock := S (clock w) |}.

Definition log_execution (w : World) (tool : Tool) (params : ToolParams) : World :=
  {| session := session w; executed := executed w ++ [(tool, params)];
     audited := audited w; recorded := recorded w; successes := successes w;
     clock := clock w |}.

Definition log_audit (w : World) (entry : AuditEntry) : World :=
  {| session := session w; executed := executed w;
     audited := audited w ++ [entry]; recorded := recorded w;
     successes := successes w; clock := clock w |}.

Definition log_recorded (w : World) (userID : string) (traces : list Trace) : World :=
  {| session := session w; executed := executed w; audited := audited w;
     recorded := recorded w ++ [(userID, traces)]; successes := successes w;
     clock := clock w |}.

Definition log_success (w : World) (userID : string) : World :=
  {| session := session w; executed := executed w; audited := audited w;
     recorded := recorded w; successes := successes w ++ [userID];
     clock := clock w |}.

(** What the loop gathers while it goes through the blocks of a response. *)
Record Gathered : Type := {
  toolResults : list ContentBlock;
  textResponse : string;
  toolsUsed : list ToolExecution
}.

Definition add_result (g : Gathered) (block : ContentBlock) : Gathered :=
  {| toolResults := toolResults g ++ [block]; textResponse := textResponse g;
     toolsUsed := toolsUsed g |}.

(** How the processing of one tool-use block ends: the loop goes on to the
    next block, or leaves the blocks with a confirmation to ask for, or the
    program panics. *)
Inductive BlockOutcome : Type :=
  | Next (g : Gathered)
  | NeedConfirmation (pending : PendingAction)
  | BlockPanic (msg : string).

(** How a run ends. *)
Inductive Outcome : Type :=
  | Returned (out : Output) (err : option string)
  | Failed (err : string)
    (** a nil output and an error *)
  | Panicked (msg : string)
  | OutOfFuel.

(** The double quote character, as a string. *)
Definition dquote : string := String (Ascii.ascii_of_nat 34) EmptyString.

Definition missing_thought_message : string :=
  "Error: Missing or empty " +:+ dquote +:+ "thought" +:+ dquote
  +:+ " field. Write operations require explicit reasoning." +:+ newline
  +:+ "Please explain:" +:+ newline
  +:+ "1. What you've verified (e.g., " +:+ dquote
  +:+ "Balance is $500, sufficient for $100 transfer" +:+ dquote +:+ ")" +:+ newline
  +:+ "2. Why you're taking this action (e.g., " +:+ dquote
  +:+ "User requested transfer to Alice" +:+ dquote +:+ ")" +:+ newline
  +:+ "3. What you expect to happen (e.g., " +:+ dquote
  +:+ "This will complete the payment" +:+ dquote +:+ ")".

Definition nil_dereference : string :=
  "runtime error: invalid memory address or nil pointer dereference".

Definition no_tokens : TokenUsage := {| InputTokens := 0; OutputTokens := 0 |}.

Definition error_output (msg : string) (tokens : TokenUsage) : Output :=
  {| Type_ := OutputError; Text := EmptyString; OutPendingAction := None;
     ToolsUsed := []; ResponseBlocks := []; TokensUsed := tokens;
     Error := Some msg |}.

(** [responseToBlocks(resp)] *)
Definition responseToBlocks (json_Marshal_raw : string → string) (resp : Response)
  : list ContentBlock :=
  omap (λ block, match block with
                 | TextBlock text => Some (TextBlock text)
                 | ToolUseBlock id name input =>
                     Some (ToolUseBlock id name (json_Marshal_raw input))
                 | _ => None
                 end) (Content resp).

Section engine.
(** The Anthropic client: one call of the messages API, streamed or not, with
    the model, the token limit, the system prompt, the messages and the tools
    offered. *)
Variable Messages_New :
  bool → string → Z → string → list Message → list string → result Response.
(** [encoding/json]: the thought of a tool input, the bytes of a raw message,
    the bytes of a value; [fmt]'s [%v]. *)
Variable json_Unmarshal_thought : string → result string.
Variable json_Marshal_raw : string → string.
Variable json_Marshal : Any → string.
Variable fmt_v : Any → string.
(** [strings.Map(unicode.ToLower, s)]: the lower-case mapping of Unicode,
    rune by rune. *)
Variable Map_unicode_ToLower : string → string.
(** [uuid.New().String()] and [time.Now().Unix()], by the number of draws. *)
Variable uuid_New : nat → string.
Variable time_Now : nat → Z.
(** [ctx.Err()] at the top of the loop, by the number of turns made. *)
Variable ctx_Err : Z → option string.
(** [GenerateIdempotencyKey(userID, tool, input)] and the default prompt. *)
Variable GenerateIdempotencyKey : string → string → string → string.
Variable DefaultSystemPrompt : string.

Variable e : Engine.

(** [strings.ToLower(s)]: the library lowers the letters A to Z itself when
    all the bytes are ASCII, and maps [unicode.ToLower] over the runes
    otherwise. *)
Definition ToLower (s : string) : string :=
  if forallb (λ b, b <? 128)%N (bytes_of s) then lower_ascii s
  else Map_unicode_ToLower s.

(** [categorizeError(errMsg)] *)
Definition categorizeError (errMsg : string) : string :=
  if bool_decide (errMsg = EmptyString) then "unknown" else
  let errLower := ToLower errMsg in
  if Contains errLower "insufficient" || Contains errLower "not enough"
  then "insufficient_balance"
  else if Contains errLower "not found" || Contains errLower "does not exist"
  then "not_found"
  else if Contains errLower "invalid" || Contains errLower "malformed"
  then "invalid_input"
  else if Contains errLower "unauthorized" || Contains errLower "forbidden"
  then "permission_denied"
  else if Contains errLower "timeout" || Contains errLower "deadline"
  then "timeout"
  else if Contains errLower "rate limit" || Contains errLower "too many"
  then "rate_limit"
  else if Contains errLower "network" || Contains errLower "connection"
  then "network_error"
  else "unknown".

(** [formatObservation(tool, result, err)] *)
Definition formatObservation (tool : Tool) (result : option ToolResult)
    (err : option string) : string :=
  match FormatObservation tool with
  | Some formatter => formatter result err
  | None =>
      (* Default fallback formatting *)
      match err, result with
      | Some err, _ => "Error: " +:+ err
      | None, None => "No result returned"
      | None, Some result =>
          if negb (Success result) then "Failed: " +:+ ResultError result
          else
            (* Format success based on data type *)
            match Data result with
            | AMap v =>
                match as_string (field v "message") with
                | Some msg => msg
                | None =>
                    match as_string (field v "status") with
                    | Some status => "Success: " +:+ status
                    | None => json_Marshal (AMap v)
                    end
                end
            | AString v => v
            | v => "Success: " +:+ fmt_v v
            end
      end
  end.

(** A trace with the fields of the THINK phase. *)
Definition new_trace (w : World) (thought action input : string) : Trace :=
  {| TraceID := uuid_New (clock w); TraceSessionID := SessionID (session w);
     TurnNumber := TurnCount (session w); Thought := thought; Action := action;
     ActionInput := input; Observation := EmptyString; TraceSuccess := false;
     Timestamp := time_Now (clock w); Metadata := ∅ |}.

Definition complete_trace (t : Trace) (success : bool) (observation : string)
    (metadata : gmap string string) : Trace :=
  {| TraceID := TraceID t; TraceSessionID := TraceSessionID t;
     TurnNumber := TurnNumber t; Thought := Thought t; Action := Action t;
     ActionInput := ActionInput t; Observation := observation;
     TraceSuccess := success; Timestamp := Timestamp t; Metadata := metadata |}.

(** OBSERVE: the trace completed from what the execution returned. *)
Definition observe (t : Trace) (tool : Tool) (action : string)
    (result : option ToolResult) (err : option string) : Trace :=
  let success :=
    match err, result with
    | None, Some result => Success result
    | _, _ => false
    end in
  let metadata := Metadata t in
  let metadata :=
    if success then metadata
    else
      let metadata :=
        match err, result with
        | Some err, _ => <["error" := err]> metadata
        | None, Some result =>
            if negb (Success result)
            then <["error" := ResultError result]> metadata else metadata
        | None, None => metadata
        end in
      (* Categorize error for reflexion *)
      let errorType := categorizeError (default EmptyString (metadata !! "error")) in
      <["prevention" := generatePrevention action errorType]>
        (<["error_type" := errorType]> metadata) in
  complete_trace t success (formatObservation tool result err) metadata.

(** The error recorded in a [ToolExecution]. *)
Definition execution_error (result : option ToolResult) (err : option string) : string :=
  match err, result with
  | Some err, _ => err
  | None, Some result => if negb (Success result) then ResultError result else EmptyString
  | None, None => EmptyString
  end.

(** One [tool_use] block of the response, in [Run]. *)
Definition tool_use (canConfirm : bool) (agentName : string)
    (auditParentID : option string) (w : World) (g : Gathered)
    (id toolName toolInput : string) : World * BlockOutcome :=
  (* PHASE 1: THINK - Extract thought from tool input *)
  match json_Unmarshal_thought toolInput with
  | Err err =>
      (w, Next (add_result g
                  (ToolResultBlock id ("invalid tool input JSON: " +:+ err) true)))
  | Ok rawThought =>
  let thought := TrimSpace rawThought in
  match registry e !! toolName with
  | None =>
      (w, Next (add_result g (ToolResultBlock id ("unknown tool: " +:+ toolName) true)))
  | Some tool =>
  (* PHASE 2: VALIDATE - Enforce thought presence for write operations *)
  if RequiresConfirmation tool && bool_decide (thought = EmptyString)
  then (w, Next (add_result g (ToolResultBlock id missing_thought_message true)))
  else
  (* Create trace object for this action *)
  let inputBytes := json_Marshal_raw toolInput in
  let trace := new_trace w thought toolName inputBytes in
  let w := tick w in
  (* Check if write operation requiring confirmation *)
  if RequiresConfirmation tool then
    if negb canConfirm then
      (* Store trace for blocked confirmation *)
      let trace :=
        complete_trace trace false
          "Operation blocked: confirmation not allowed in this context"
          (<["error" := "confirmation_disabled"]> (Metadata trace)) in
      let w := with_session w (AddTrace (session w) trace) in
      (w, Next (add_result g
                  (ToolResultBlock id "error: this operation requires user confirmation"
                     true)))
    else
      (* Generate pending confirmation *)
      let confirmationNeeded :=
        {| PendingID := uuid_New (clock w);
           IdempotencyKey :=
             GenerateIdempotencyKey (SessionUserID (session w)) toolName inputBytes;
           PendingSessionID := SessionID (session w);
           PendingUserID := SessionUserID (session w);
           PendingTool := toolName; PendingInput := inputBytes;
           PendingThought := thought; Summary := GetSummary tool inputBytes;
           BlockID := id; CreatedAt := time_Now (clock w);
           ExpiresAt := time_Now (clock w) + 600 |} in
      let w := tick w in
      (* Store trace with pending status *)
      let trace :=
        complete_trace trace false "Awaiting user confirmation"
          (<["status" := "pending_confirmation"]>
             (<["confirmation_id" := PendingID confirmationNeeded]> (Metadata trace))) in
      let w := with_session w (AddTrace (session w) trace) in
      (w, NeedConfirmation confirmationNeeded)
  else
  (* PHASE 3: ACT - Execute read-only tool *)
  let params :=
    {| P_UserID := SessionUserID (session w); P_Input := inputBytes;
       P_ConfirmationID := EmptyString; P_RequestID := SessionID (session w) |} in
  let '(result, err) := Execute tool params in
  let w := log_execution w tool params in
  let execution :=
    {| ExecTool := toolName; ExecInput := toolInput;
       ExecError := execution_error result err; ExecResult := None |} in
  (* PHASE 4: OBSERVE - Format observation *)
  let trace := observe trace tool toolName result err in
  (* Add trace to session *)
  let w := with_session w (AddTrace (session w) trace) in
  (* Log audit entry if configured *)
  let w :=
    if audit e then
      log_audit (tick w)
        {| AuditID := uuid_New (clock w); AuditUserID := SessionUserID (session w);
           AuditSessionID := SessionID (session w); AuditParentID := auditParentID;
           AgentName := agentName; ToolName := toolName; ToolInput := inputBytes;
           ToolOutput := (λ r, json_Marshal (Data r)) <$> result;
           AuditError :=
             match err, result with
             | Some err, _ => Some err
             | None, Some r =>
                 if bool_decide (ResultError r ≠ EmptyString)
                 then Some (ResultError r) else None
             | None, None => None
             end;
           IsWriteOp := RequiresConfirmation tool |}
    else w in
  (* Build tool result for Claude *)
  match err, result with
  | Some err, _ =>
      (w, Next {| toolResults := toolResults g ++ [ToolResultBlock id err true];
                  textResponse := textResponse g;
                  toolsUsed := toolsUsed g ++ [execution] |})
  | None, Some result =>
      if negb (Success result) then
        (w, Next {| toolResults :=
                      toolResults g ++ [ToolResultBlock id (ResultError result) true];
                    textResponse := textResponse g;
                    toolsUsed := toolsUsed g ++ [execution] |})
      else
        let execution :=
          {| ExecTool := toolName; ExecInput := toolInput;
             ExecError := EmptyString; ExecResult := Some (Data result) |} in
        (w, Next {| toolResults :=
                      toolResults g
                      ++ [ToolResultBlock id (json_Marshal (Data result)) false];
                    textResponse := textResponse g;
                    toolsUsed := toolsUsed g ++ [execution] |})
  | None, None =>
      (* [json.Marshal(result.Data)] with [result == nil] *)
      (w, BlockPanic nil_dereference)
  end
  end end.

(** The blocks of one response, in order, up to the first one that needs a
    confirmation. *)
Fixpoint process_blocks (canConfirm : bool) (agentName : string)
    (auditParentID : option string) (w : World) (g : Gathered)
    (blocks : list ContentBlock)
  : World * (Gathered * option PendingAction + string) :=
  match blocks with
  | [] => (w, inl (g, None))
  | TextBlock text :: blocks =>
      process_blocks canConfirm agentName auditParentID w
        {| toolResults := toolResults g; textResponse := textResponse g +:+ text;
           toolsUsed := toolsUsed g |} blocks
  | ToolUseBlock id name input :: blocks =>
      match tool_use canConfirm agentName auditParentID w g id name input with
      | (w, Next g) => process_blocks canConfirm agentName auditParentID w g blocks
      | (w, NeedConfirmation pending) => (w, inl (g, Some pending))
      | (w, BlockPanic msg) => (w, inr msg)
      end
  | _ :: blocks => process_blocks canConfirm agentName auditParentID w g blocks
  end.

(** Modelled from the spec: [NewSession(userID, conversationID)], the tool
    list of the registry and its filter by names are not among the sources. *)
Definition NewSession (w : World) (userID conversationID : string) : World :=
  tick (with_session w
          {| SessionID := uuid_New (clock w); SessionUserID := userID;
             SessionConversationID := conversationID; Messages := [];
             Traces := []; TurnCount := 0 |}).

Definition ToAPITools : list string := elements (dom (registry e)).

Definition ToAPIToolsFiltered (names : list string) : list string :=
  filter (λ name, name ∈ names) ToAPITools.

Definition empty_world : World :=
  {| session := {| SessionID := EmptyString; SessionUserID := EmptyString;
                   SessionConversationID := EmptyString; Messages := [];
                   Traces := []; TurnCount := 0 |};
     executed := []; audited := []; recorded := []; successes := []; clock := 0 |}.

(** PHASE 5: the traces go to the memory manager; its errors are logged and
    dropped. *)
Definition record_traces (input : Input) (w : World) : World :=
  match memory e, InputContext input with
  | Some _, Some ctx =>
      if bool_decide (0 < length (Traces (session w)))
      then log_recorded w (CtxUserID ctx) (Traces (session w))
      else w
  | _, _ => w
  end.

(** The [for] loop of [Run]. *)
Fixpoint loop (fuel : nat) (input : Input) (model : string) (maxTokens : Z)
    (systemPrompt : string) (maxTurns : Z) (canConfirm : bool)
    (apiTools : list string) (agentName : string) (auditParentID : option string)
    (w : World) (totalTokens : TokenUsage) : World * Outcome :=
  match fuel with
  | 0 => (w, OutOfFuel)
  | S fuel =>
  (* Check context cancellation *)
  match ctx_Err (TurnCount (session w)) with
  | Some err => (w, Returned (error_output ("timed out: " +:+ err) totalTokens) None)
  | None =>
  (* Check turn limit *)
  if bool_decide (maxTurns ≤ TurnCount (session w))%Z
  then (w, Returned (error_output ("exceeded maximum turns (" +:+ pretty maxTurns
                                   +:+ ")") totalTokens) None)
  else
  let w := with_session w (IncrementTurnCount (session w)) in
  (* Call Claude API *)
  match Messages_New (StreamCallback input) model maxTokens systemPrompt
          (Messages (session w)) apiTools with
  | Err err =>
      (w, Returned (error_output ("claude API error: " +:+ err) totalTokens) (Some err))
  | Ok resp =>
  (* Accumulate token usage *)
  let totalTokens :=
    {| InputTokens := InputTokens totalTokens + UsageInput resp;
       OutputTokens := OutputTokens totalTokens + UsageOutput resp |} in
  (* Process response blocks *)
  match process_blocks canConfirm agentName auditParentID w
          {| toolResults := []; textResponse := EmptyString; toolsUsed := [] |}
          (Content resp) with
  | (w, inr msg) => (w, Panicked msg)
  | (w, inl (g, Some confirmationNeeded)) =>
      (* If confirmation needed, return for user approval *)
      let w := with_session w (AddAssistantResponse (session w) resp) in
      (w, Returned {| Type_ := OutputConfirmationNeeded; Text := textResponse g;
                      OutPendingAction := Some confirmationNeeded;
                      ToolsUsed := toolsUsed g;
                      ResponseBlocks := responseToBlocks json_Marshal_raw resp;
                      TokensUsed := totalTokens; Error := None |} None)
  | (w, inl (g, None)) =>
      if bool_decide (length (toolResults g) = 0) then
        (* If no tool calls, we're done *)
        let w := with_session w (AddAssistantMessage (session w) (textResponse g)) in
        (* Record success with guardrails *)
        let w :=
          match guardrails e, InputContext input with
          | Some _, Some ctx => log_success w (CtxUserID ctx)
          | _, _ => w
          end in
        let w := record_traces input w in
        (w, Returned {| Type_ := OutputComplete; Text := textResponse g;
                        OutPendingAction := None; ToolsUsed := toolsUsed g;
                        ResponseBlocks := []; TokensUsed := totalTokens;
                        Error := None |} None)
      else
        (* Continue loop with tool results *)
        let w := with_session w (AddAssistantResponse (session w) resp) in
        let w := with_session w (AddToolResults (session w) (toolResults g)) in
        loop fuel input model maxTokens systemPrompt maxTurns canConfirm apiTools
          agentName auditParentID w totalTokens
  end end end end.

(** The session that [RunConfirmedAction] reconstitutes and [Run] starts
    from: a new session with the history replayed. *)
Definition resume (input : Input) : World :=
  (* Create session *)
  let userID := default EmptyString (CtxUserID <$> InputContext input) in
  let conversationID := default EmptyString (ConversationID <$> InputContext input) in
  let w := NewSession empty_world userID conversationID in
  (* Restore history *)
  with_session w (RestoreHistory (session w) (History input)).

(** ... to which [Run] adds the user message. *)
Definition start (input : Input) : World :=
  let w := resume input in
  if bool_decide (UserMessage input ≠ EmptyString)
  then with_session w (AddUserMessage (session w) (UserMessage input)) else w.

(** The limits of a run: the turn limit and whether it may ask for
    confirmation. *)
Definition maxTurns_of (input : Input) : Z :=
  match InputContext input ≫= Limits with
  | Some limits => MaxTurns limits
  | None => 20
  end.

Definition canConfirm_of (input : Input) : bool :=
  match InputContext input ≫= Limits with
  | Some limits => CanConfirm limits
  | None => true
  end.

(** [Engine.Run(ctx, input)], with the fuel of its loop. *)
Definition Run_with (fuel : nat) (input : Input) : World * Outcome :=
  let w := empty_world in
  (* Check guardrails if configured *)
  match (match guardrails e, InputContext input with
         | Some g, Some ctx =>
             match Check g (CtxUserID ctx) with
             | Err err => Some ("guardrails check failed: " +:+ err)
             | Ok result =>
                 if negb (Allowed result)
                 then Some ("request blocked by guardrails: " +:+ Warning result)
                 else None
             end
         | _, _ => None
         end) with
  | Some msg => (w, Returned (error_output msg no_tokens) None)
  | None =>
  (* PHASE 0: RETRIEVE MEMORIES *)
  let enrichment :=
    match memory e, InputContext input with
    | Some m, Some ctx =>
        if bool_decide (UserMessage input ≠ EmptyString) then
          match Retrieve m (CtxUserID ctx) (UserMessage input) with
          | Err _ => EmptyString
          | Ok enrichment => enrichment
          end
        else EmptyString
    | _, _ => EmptyString
    end in
  (* Apply defaults *)
  let model :=
    if bool_decide (Model input = EmptyString) then "claude-sonnet-4-20250514"
    else Model input in
  let maxTokens := if bool_decide (MaxTokens input = 0%Z) then 4096%Z else MaxTokens input in
  let systemPrompt :=
    if bool_decide (SystemPrompt input = EmptyString) then DefaultSystemPrompt
    else SystemPrompt input in
  (* PHASE 1: ENRICH SYSTEM PROMPT *)
  let systemPrompt :=
    if bool_decide (enrichment ≠ EmptyString)
    then systemPrompt +:+ newline +:+ newline +:+ enrichment else systemPrompt in
  (* Get limits from context *)
  let maxTurns := maxTurns_of input in
  let canConfirm := canConfirm_of input in
  (* Create session, restore history, add user message *)
  let w := start input in
  (* Get tools (filtered if AvailableTools is specified) *)
  let apiTools :=
    if bool_decide (0 < length (AvailableTools input))
    then ToAPIToolsFiltered (AvailableTools input) else ToAPITools in
  (* Get agent name for audit logging *)
  let agentName :=
    if bool_decide (InputAgentName input = EmptyString) then "default"
    else InputAgentName input in
  (* Get parent ID for audit chain *)
  let auditParentID := InputContext input ≫= CtxAuditParentID in
  loop fuel input model maxTokens systemPrompt maxTurns canConfirm apiTools
    agentName auditParentID w no_tokens
  end.

(** The loop makes at most [maxTurns] turns; one more iteration returns. *)
Definition Run (input : Input) : World * Outcome :=
  Run_with (S (Z.to_nat (maxTurns_of input))) input.

(** [Engine.RunConfirmedAction(ctx, input, action)] *)
Definition RunConfirmedAction (input : Input) (action : PendingAction) : World * Outcome :=
  (* Create session from input; restore history - this includes the original
     tool_use block *)
  let w := resume input in
  (* Extract thought (already stored in action) *)
  let thought := PendingThought action in
  (* Get tool from registry *)
  match registry e !! PendingTool action with
  | None => (w, Failed ("unknown tool: " +:+ PendingTool action))
  | Some tool =>
  (* Create trace object (THINK phase already done) *)
  let trace := new_trace w thought (PendingTool action) (PendingInput action) in
  let w := tick w in
  let trace :=
    complete_trace trace false EmptyString
      (<["confirmation_id" := PendingID action]>
         (<["confirmed" := "true"]> (Metadata trace))) in
  (* PHASE 3: ACT - Execute the confirmed tool *)
  let params :=
    {| P_UserID := PendingUserID action; P_Input := PendingInput action;
       P_ConfirmationID := EmptyString; P_RequestID := SessionID (session w) |} in
  let '(result, toolErr) := Execute tool params in
  let w := log_execution w tool params in
  (* PHASE 4: OBSERVE - Format observation and complete trace *)
  let trace := observe trace tool (PendingTool action) result toolErr in
  (* Add trace to session *)
  let w := with_session w (AddTrace (session w) trace) in
  (* Build tool result block for Claude *)
  match (match toolErr, result with
         | Some err, _ => Some (ToolResultBlock (BlockID action) err true)
         | None, Some result =>
             if negb (Success result)
             then Some (ToolResultBlock (BlockID action) (ResultError result) true)
             else Some (ToolResultBlock (BlockID action)
                          (json_Marshal (Data result)) false)
         | None, None => None
         end) with
  | None => (w, Panicked nil_dereference)
  | Some toolResult =>
  (* Add tool result to session *)
  let w := with_session w (AddToolResults (session w) [toolResult]) in
  (* Continue the loop - call Claude with the result *)
  let model :=
    if bool_decide (Model input = EmptyString) then "claude-sonnet-4-20250514"
    else Model input in
  let maxTokens := if bool_decide (MaxTokens input = 0%Z) then 4096%Z else MaxTokens input in
  let systemPrompt :=
    if bool_decide (SystemPrompt input = EmptyString) then DefaultSystemPrompt
    else SystemPrompt input in
  match Messages_New false model maxTokens systemPrompt (Messages (session w)) [] with
  | Err err => (w, Failed ("claude api error after confirmation: " +:+ err))
  | Ok resp =>
  (* Extract text response *)
  let textResponse :=
    foldl (λ text block, match block with
                         | TextBlock t => text +:+ t
                         | _ => text
                         end) EmptyString (Content resp) in
  let w := with_session w (AddAssistantResponse (session w) resp) in
  (* Build tool execution record *)
  let execution :=
    {| ExecTool := PendingTool action; ExecInput := PendingInput action;
       ExecError := execution_error result toolErr;
       ExecResult :=
         match toolErr, result with
         | None, Some r => if Success r then Some (Data r) else None
         | _, _ => None
         end |} in
  let w := record_traces input w in
  (w, Returned {| Type_ := OutputComplete; Text := textResponse;
                  OutPendingAction := None; ToolsUsed := [execution];
                  ResponseBlocks := responseToBlocks json_Marshal_raw resp;
                  TokensUsed := no_tokens; Error := None |} None)
  end end end.

(** ** What a run does to the world *)

(** A trace of a confirmation-required tool left by [Run]: a failure, awaiting
    confirmation or, where the run may not ask for one, blocked. *)
Definition pending_or_blocked (canConfirm : bool) (t : Trace) : Prop :=
  TraceSuccess t = false ∧
  (Observation t = "Awaiting user confirmation" ∨
   (canConfirm = false ∧
    Observation t = "Operation blocked: confirmation not allowed in this context" ∧
    Metadata t !! "error" = Some "confirmation_disabled")).

Definition trace_ok (canConfirm : bool) (t : Trace) : Prop :=
  ∀ tool, registry e !! Action t = Some tool → RequiresConfirmation tool = true →
          pending_or_blocked canConfirm t.

(** The reasons for which [Run] returns an error output: admission, the
    model provider, the turn limit, the deadline. *)
Definition abort_reason (msg : string) : Prop :=
  String.prefix "guardrails check failed: " msg = true ∨
  String.prefix "request blocked by guardrails: " msg = true ∨
  String.prefix "claude API error: " msg = true ∨
  String.prefix "exceeded maximum turns (" msg = true ∨
  String.prefix "timed out: " msg = true.

Definition read_only (call : Tool * ToolParams) : Prop :=
  RequiresConfirmation call.1 = false.

(** From [w] to [w']: the turn count is the same, and the executions and
    traces that were added are executions of read-only tools and traces that
    are [trace_ok]. *)
Definition extends (canConfirm : bool) (w w' : World) : Prop :=
  TurnCount (session w') = TurnCount (session w) ∧
  ∃ calls traces,
    executed w' = executed w ++ calls ∧
    Traces (session w') = Traces (session w) ++ traces ∧
    Forall read_only calls ∧ Forall (trace_ok canConfirm) traces.

(** The same without the turn count, which the loop advances. *)
Definition grows (canConfirm : bool) (w w' : World) : Prop :=
  ∃ calls traces,
    executed w' = executed w ++ calls ∧
    Traces (session w') = Traces (session w) ++ traces ∧
    Forall read_only calls ∧ Forall (trace_ok canConfirm) traces.

(** An audit entry that records a call: the registry has the called tool
    under the name of the entry, which carries the input and the user of the
    call and is not marked as a write operation. *)
Definition audit_of (call : Tool * ToolParams) (entry : AuditEntry) : Prop :=
  registry e !! ToolName entry = Some call.1 ∧
  ToolInput entry = P_Input call.2 ∧ AuditUserID entry = P_UserID call.2 ∧
  IsWriteOp entry = false.

(** From [w] to [w']: with an audit logger, the executions that were added
    have been audited one by one; without, nothing has been logged. *)
Definition audited_alike (w w' : World) : Prop :=
  ∃ calls entries,
    executed w' = executed w ++ calls ∧ audited w' = audited w ++ entries ∧
    if audit e then Forall2 audit_of calls entries else entries = [].

(** The error types of [categorizeError]. *)
Definition error_types : list string :=
  ["unknown"; "insufficient_balance"; "not_found"; "invalid_input";
   "permission_denied"; "timeout"; "rate_limit"; "network_error"].

Lemma extends_refl canConfirm w : extends canConfirm w w.
Proof. split; [done|]. exists [], []. by rewrite !app_nil_r. Qed.

Lemma extends_trans canConfirm w1 w2 w3 :
  extends canConfirm w1 w2 → extends canConfirm w2 w3 → extends canConfirm w1 w3.
Proof.
  intros [Ht1 (c1 & t1 & Hc1 & Htr1 & Hr1 & Hk1)] [Ht2 (c2 & t2 & Hc2 & Htr2 & Hr2 & Hk2)].
  split; [congruence|]. exists (c1 ++ c2), (t1 ++ t2).
  rewrite Hc2, Hc1, Htr2, Htr1, !app_assoc. split_and!; try done;
    by apply Forall_app.
Qed.

(** A world that differs in neither executions, traces nor turn count. *)
Lemma extends_same canConfirm w w' :
  executed w' = executed w → Traces (session w') = Traces (session w) →
  TurnCount (session w') = TurnCount (session w) → extends canConfirm w w'.
Proof. intros Hc Ht Hn. split; [done|]. exists [], []. by rewrite !app_nil_r. Qed.

Lemma tool_use_extends canConfirm agentName auditParentID w g id name input w' out :
  tool_use canConfirm agentName auditParentID w g id name input = (w', out) →
  extends canConfirm w w'.
Proof.
  unfold tool_use.
  destruct (json_Unmarshal_thought input) as [rawThought|err];
    [|intros [= <- _]; apply extends_refl].
  destruct (registry e !! name) as [tool|] eqn:Htool;
    [|intros [= <- _]; apply extends_refl].
  destruct (RequiresConfirmation tool) eqn:Hreq; simpl andb.
  - case_bool_decide; [intros [= <- _]; apply extends_refl|].
    destruct canConfirm; simpl negb; cbv iota; intros [= <- _].
    + split; [done|]. do 2 eexists. split_and!;
        [symmetry; apply app_nil_r|simpl; reflexivity|constructor|].
      apply Forall_singleton. intros tool' _ _. split; [done|]. by left.
    + split; [done|]. do 2 eexists. split_and!;
        [symmetry; apply app_nil_r|simpl; reflexivity|constructor|].
      apply Forall_singleton. intros tool' _ _. split; [done|]. right.
      split_and!; try done; simpl; apply lookup_insert_eq.
  - destruct (Execute tool _) as [result err] eqn:Hexec.
    assert (Hext : ∀ w0 : World,
      executed w0 = executed w ++ [(tool, {| P_UserID := SessionUserID (session (tick w));
                                              P_Input := json_Marshal_raw input;
                                              P_ConfirmationID := EmptyString;
                                              P_RequestID := SessionID (session (tick w)) |})] →
      Traces (session w0) =
        Traces (session w) ++ [observe (new_trace w (TrimSpace rawThought) name
                                          (json_Marshal_raw input)) tool name result err] →
      TurnCount (session w0) = TurnCount (session w) →
      extends canConfirm w w0).
    { intros w0 Hc Ht Hn. split; [done|]. do 2 eexists. split_and!; [done..| |].
      - by apply Forall_singleton.
      - apply Forall_singleton. intros tool' Htool' Hreq'. simpl in Htool'.
        assert (tool' = tool) as -> by congruence. congruence. }
    destruct (audit e), err as [err|], result as [result|];
      try destruct (Success result); simpl negb; cbv iota;
      intros [= <- _]; by apply Hext.
Qed.

Lemma process_blocks_extends canConfirm agentName auditParentID blocks :
  ∀ w g w' r,
    process_blocks canConfirm agentName auditParentID w g blocks = (w', r) →
    extends canConfirm w w'.
Proof.
  induction blocks as [|block blocks IH]; intros w g w' r; simpl.
  - intros [= <- _]. apply extends_refl.
  - destruct block as [text|id name input|? ? ?|?]; try apply IH.
    destruct (tool_use _ _ _ w g id name input) as [w1 [g1|pending|msg]] eqn:Huse;
      apply tool_use_extends in Huse.
    + intros H%IH. by eapply extends_trans.
    + by intros [= <- _].
    + by intros [= <- _].
Qed.

Lemma grows_same canConfirm w w' :
  executed w' = executed w → Traces (session w') = Traces (session w) →
  grows canConfirm w w'.
Proof. intros Hc Ht. exists [], []. by rewrite !app_nil_r. Qed.

Lemma grows_trans canConfirm w1 w2 w3 :
  grows canConfirm w1 w2 → grows canConfirm w2 w3 → grows canConfirm w1 w3.
Proof.
  intros (c1 & t1 & Hc1 & Htr1 & Hr1 & Hk1) (c2 & t2 & Hc2 & Htr2 & Hr2 & Hk2).
  exists (c1 ++ c2), (t1 ++ t2).
  rewrite Hc2, Hc1, Htr2, Htr1, !app_assoc. split_and!; try done;
    by apply Forall_app.
Qed.

Lemma record_traces_same input w :
  executed (record_traces input w) = executed w ∧
  session (record_traces input w) = session w.
Proof.
  unfold record_traces. destruct (memory e), (InputContext input); try done.
  by case_bool_decide.
Qed.

Lemma loop_grows fuel input model maxTokens systemPrompt maxTurns canConfirm apiTools
    agentName auditParentID :
  ∀ w totalTokens w' out,
    loop fuel input model maxTokens systemPrompt maxTurns canConfirm apiTools
      agentName auditParentID w totalTokens = (w', out) →
    grows canConfirm w w'.
Proof.
  induction fuel as [|fuel IH]; intros w totalTokens w' out; simpl.
  - intros [= <- _]. by apply grows_same.
  - destruct (ctx_Err _); [intros [= <- _]; by apply grows_same|].
    case_bool_decide; [intros [= <- _]; by apply grows_same|].
    destruct (Messages_New _ _ _ _ _ _) as [resp|err];
      [|intros [= <- _]; by apply grows_same].
    destruct (process_blocks _ _ _ _ _ _) as [w1 [[g [pending|]]|msg]] eqn:Hblocks;
      apply process_blocks_extends in Hblocks as [_ Hblocks];
      assert (Hg : grows canConfirm w w1) by exact Hblocks.
    + intros [= <- _]. eapply grows_trans; [exact Hg|]. by apply grows_same.
    + case_bool_decide.
      * intros [= <- _]. eapply grows_trans; [exact Hg|].
        destruct (record_traces_same input
                    (match guardrails e, InputContext input with
                     | Some _, Some ctx =>
                         log_success
                           (with_session w1
                              (AddAssistantMessage (session w1) (textResponse g)))
                           (CtxUserID ctx)
                     | _, _ =>
                         with_session w1
                           (AddAssistantMessage (session w1) (textResponse g))
                     end)) as [He Hs].
        apply grows_same; [rewrite He|rewrite Hs];
          by destruct (guardrails e), (InputContext input).
      * intros Hrest%IH. eapply grows_trans; [exact Hg|].
        eapply grows_trans; [|exact Hrest]. by apply grows_same.
    + intros [= <- _]. exact Hg.
Qed.

(** The fuel that [Run] gives its loop is enough. *)
Lemma loop_returns fuel input model maxTokens systemPrompt maxTurns canConfirm apiTools
    agentName auditParentID :
  ∀ w totalTokens,
    Z.to_nat (maxTurns - TurnCount (session w)) < fuel →
    (loop fuel input model maxTokens systemPrompt maxTurns canConfirm apiTools
       agentName auditParentID w totalTokens).2 ≠ OutOfFuel.
Proof.
  induction fuel as [|fuel IH]; intros w totalTokens Hfuel; simpl; [lia|].
  destruct (ctx_Err _); [done|].
  case_bool_decide as Hturns; [done|].
  destruct (Messages_New _ _ _ _ _ _) as [resp|err]; [|done].
  destruct (process_blocks _ _ _ _ _ _) as [w1 [[g [pending|]]|msg]] eqn:Hblocks;
    [done| |done].
  case_bool_decide; [done|].
  apply process_blocks_extends in Hblocks as [Hcount _]. simpl in Hcount.
  apply IH. simpl. rewrite Hcount. lia.
Qed.

Lemma RestoreHistory_keeps s history :
  Traces (foldl AddMessage s history) = Traces s ∧
  TurnCount (foldl AddMessage s history) = TurnCount s.
Proof.
  revert s.
  induction history as [|m history IH]; intros s; simpl; [done|].
  destruct (IH (AddMessage s m)) as [-> ->]. done.
Qed.

(** Where a run starts: nothing executed, no trace, no turn. *)
Lemma resume_empty input :
  executed (resume input) = [] ∧ Traces (session (resume input)) = [] ∧
  TurnCount (session (resume input)) = 0%Z.
Proof.
  unfold resume, RestoreHistory. simpl.
  by rewrite (proj1 (RestoreHistory_keeps _ _)), (proj2 (RestoreHistory_keeps _ _)).
Qed.

Lemma start_empty input :
  executed (start input) = [] ∧ Traces (session (start input)) = [] ∧
  TurnCount (session (start input)) = 0%Z.
Proof.
  unfold start. cbv zeta. case_bool_decide; [|apply resume_empty].
  simpl. apply resume_empty.
Qed.

Lemma Run_with_grows fuel input w' out :
  Run_with fuel input = (w', out) →
  Forall read_only (executed w') ∧
  Forall (trace_ok (canConfirm_of input)) (Traces (session w')).
Proof.
  unfold Run_with.
  destruct (match guardrails e, InputContext input with
            | Some g, Some ctx => _ | _, _ => None end);
    [intros [= <- _]; by split|].
  cbv zeta. intros (calls & traces & Hc & Ht & Hr & Hk)%loop_grows.
  destruct (start_empty input) as (He & Htr & _).
  rewrite Hc, Ht, He, Htr. by split.
Qed.

Lemma Run_returns input : (Run input).2 ≠ OutOfFuel.
Proof.
  unfold Run, Run_with.
  destruct (match guardrails e, InputContext input with
            | Some g, Some ctx => _ | _, _ => None end); [done|].
  cbv zeta. apply loop_returns.
  destruct (start_empty input) as (_ & _ & ->). lia.
Qed.

(** The trace that [RunConfirmedAction] appends is stamped as confirmed. *)
Lemma observe_keeps_confirmed t tool action result err :
  Metadata t !! "confirmed" = Some "true" →
  Metadata (observe t tool action result err) !! "confirmed" = Some "true".
Proof.
  intros H. unfold observe. simpl.
  destruct err as [err|], result as [result|]; try destruct (Success result);
    simpl; by rewrite ?lookup_insert_ne.
Qed.

Lemma RunConfirmedAction_traces input action t :
  t ∈ Traces (session (RunConfirmedAction input action).1) →
  Metadata t !! "confirmed" = Some "true".
Proof.
  unfold RunConfirmedAction. cbv zeta.
  assert (Hnone : Traces (session (resume input)) = []) by apply resume_empty.
  generalize dependent (resume input). intros w0 Hnone.
  destruct (registry e !! PendingTool action) as [tool|]; simpl;
    [|rewrite Hnone; by intros ?%elem_of_nil].
  destruct (Execute tool _) as [result toolErr].
  set (trace := observe _ tool _ result toolErr).
  assert (Hstamp : Metadata trace !! "confirmed" = Some "true").
  { apply observe_keeps_confirmed. simpl.
    rewrite lookup_insert_ne by done. apply lookup_insert_eq. }
  assert (Hin : t ∈ Traces (session w0) ++ [trace] →
                Metadata t !! "confirmed" = Some "true").
  { rewrite Hnone. simpl. by intros ->%list_elem_of_singleton. }
  destruct toolErr as [err|], result as [result|]; try destruct (Success result);
    simpl; try destruct (Messages_New _ _ _ _ _ _); simpl;
    rewrite ?(proj2 (record_traces_same _ _)); simpl; exact Hin.
Qed.

(** ** Confirmation-required tools in [Run] *)

(** The request passes the guardrails, where there are any. *)
Definition admitted (input : Input) : Prop :=
  match guardrails e, InputContext input with
  | Some g, Some ctx =>
      ∃ result, Check g (CtxUserID ctx) = Ok result ∧ Allowed result = true
  | _, _ => True
  end.

(** What the first call of the model in a run answers: the call is made
    with the defaults applied, the system prompt enriched with the memories
    retrieved, the messages the session starts from and the tools offered. *)
Definition first_call (input : Input) : result Response :=
  let enrichment :=
    match memory e, InputContext input with
    | Some m, Some ctx =>
        if bool_decide (UserMessage input ≠ EmptyString) then
          match Retrieve m (CtxUserID ctx) (UserMessage input) with
          | Err _ => EmptyString
          | Ok enrichment => enrichment
          end
        else EmptyString
    | _, _ => EmptyString
    end in
  let model :=
    if bool_decide (Model input = EmptyString) then "claude-sonnet-4-20250514"
    else Model input in
  let maxTokens := if bool_decide (MaxTokens input = 0%Z) then 4096%Z else MaxTokens input in
  let systemPrompt :=
    if bool_decide (SystemPrompt input = EmptyString) then DefaultSystemPrompt
    else SystemPrompt input in
  let systemPrompt :=
    if bool_decide (enrichment ≠ EmptyString)
    then systemPrompt +:+ newline +:+ newline +:+ enrichment else systemPrompt in
  let apiTools :=
    if bool_decide (0 < length (AvailableTools input))
    then ToAPIToolsFiltered (AvailableTools input) else ToAPITools in
  Messages_New (StreamCallback input) model maxTokens systemPrompt
    (Messages (session (start input))) apiTools.

(** Blocks among which there is no tool-use block. *)
Definition no_tool_use (blocks : list ContentBlock) : Prop :=
  Forall (λ block, match block with ToolUseBlock _ _ _ => False | _ => True end) blocks.

(** The run has answered the response [resp] with the tool result [block],
    and with nothing else: the messages of its session go on with the
    response and the tool results. *)
Definition answered (input : Input) (resp : Response) (block : ContentBlock) : Prop :=
  (Messages (session (start input))
   ++ [ {| Role := "assistant"; Blocks := Content resp |};
        {| Role := "tool_result"; Blocks := [block] |} ])
  `prefix_of` Messages (session (Run input).1).

Lemma tool_use_messages canConfirm agentName auditParentID w g id name input w' out :
  tool_use canConfirm agentName auditParentID w g id name input = (w', out) →
  Messages (session w') = Messages (session w).
Proof.
  unfold tool_use.
  destruct (json_Unmarshal_thought input) as [rawThought|err]; [|by intros [= <- _]].
  destruct (registry e !! name) as [tool|]; [|by intros [= <- _]].
  destruct (RequiresConfirmation tool); simpl andb.
  - case_bool_decide; [by intros [= <- _]|].
    destruct canConfirm; simpl negb; cbv iota; by intros [= <- _].
  - destruct (Execute tool _) as [result err].
    destruct (audit e), err as [err|], result as [result|];
      try destruct (Success result); simpl negb; cbv iota; by intros [= <- _].
Qed.

Lemma process_blocks_messages canConfirm agentName auditParentID blocks :
  ∀ w g w' r,
    process_blocks canConfirm agentName auditParentID w g blocks = (w', r) →
    Messages (session w') = Messages (session w).
Proof.
  induction blocks as [|block blocks IH]; intros w g w' r; simpl.
  - by intros [= <- _].
  - destruct block as [text|id name input|? ? ?|?]; try apply IH.
    destruct (tool_use _ _ _ w g id name input) as [w1 [g1|pending|msg]] eqn:Huse;
      apply tool_use_messages in Huse.
    + intros H%IH. congruence.
    + intros [= <- _]. done.
    + intros [= <- _]. done.
Qed.

(** The loop adds to the messages of the session and takes none away. *)
Lemma loop_messages fuel input model maxTokens systemPrompt maxTurns canConfirm apiTools
    agentName auditParentID :
  ∀ w totalTokens w' out,
    loop fuel input model maxTokens systemPrompt maxTurns canConfirm apiTools
      agentName auditParentID w totalTokens = (w', out) →
    Messages (session w) `prefix_of` Messages (session w').
Proof.
  induction fuel as [|fuel IH]; intros w totalTokens w' out; simpl.
  - by intros [= <- _].
  - destruct (ctx_Err _); [by intros [= <- _]|].
    case_bool_decide; [by intros [= <- _]|].
    destruct (Messages_New _ _ _ _ _ _) as [resp|err]; [|by intros [= <- _]].
    destruct (process_blocks _ _ _ _ _ _) as [w1 [[g [pending|]]|msg]] eqn:Hblocks;
      apply process_blocks_messages in Hblocks; simpl in Hblocks.
    + intros [= <- _]. simpl. rewrite Hblocks. by apply prefix_app_r.
    + case_bool_decide.
      * intros [= <- _]. rewrite (proj2 (record_traces_same _ _)).
        destruct (guardrails e), (InputContext input); simpl; rewrite Hblocks;
          by apply prefix_app_r.
      * intros Hrest%IH. simpl in Hrest. rewrite Hblocks in Hrest.
        etrans; [|exact Hrest]. rewrite <- app_assoc. by apply prefix_app_r.
    + intros [= <- _]. by rewrite Hblocks.
Qed.

(** Blocks that are no tool-use blocks leave the world and the tool results
    as they are. *)
Lemma process_blocks_no_tool_use canConfirm agentName auditParentID w before rest :
  no_tool_use before →
  ∀ g, ∃ g',
    toolResults g' = toolResults g ∧ toolsUsed g' = toolsUsed g ∧
    process_blocks canConfirm agentName auditParentID w g (before ++ rest)
    = process_blocks canConfirm agentName auditParentID w g' rest.
Proof.
  induction 1 as [|block before Hblock _ IH]; intros g; [by exists g|].
  destruct block as [text|id name input|? ? ?|?]; [|done| |]; simpl.
  - destruct (IH {| toolResults := toolResults g;
                    textResponse := textResponse g +:+ text;
                    toolsUsed := toolsUsed g |}) as (g' & ? & ? & ?).
    by exists g'.
  - apply IH.
  - apply IH.
Qed.

(** What [Run] does to a tool-use block of a confirmation-required tool. *)
Lemma tool_use_confirmation (canConfirm : bool) agentName auditParentID w g id name
    input tool rawThought :
  json_Unmarshal_thought input = Ok rawThought →
  registry e !! name = Some tool → RequiresConfirmation tool = true →
  if bool_decide (TrimSpace rawThought = EmptyString) then
    tool_use canConfirm agentName auditParentID w g id name input
    = (w, Next (add_result g (ToolResultBlock id missing_thought_message true)))
  else if canConfirm then
    ∃ w' pending,
      tool_use canConfirm agentName auditParentID w g id name input
      = (w', NeedConfirmation pending) ∧
      executed w' = executed w ∧ TurnCount (session w') = TurnCount (session w) ∧
      Messages (session w') = Messages (session w) ∧
      PendingTool pending = name ∧ PendingInput pending = json_Marshal_raw input ∧
      PendingThought pending = TrimSpace rawThought ∧ BlockID pending = id ∧
      PendingUserID pending = SessionUserID (session w)
  else
    ∃ w',
      tool_use canConfirm agentName auditParentID w g id name input
      = (w', Next (add_result g
                     (ToolResultBlock id "error: this operation requires user confirmation"
                        true))) ∧
      executed w' = executed w ∧ TurnCount (session w') = TurnCount (session w) ∧
      Messages (session w') = Messages (session w).
Proof.
  intros Hjson Htool Hreq. unfold tool_use. rewrite Hjson, Htool, Hreq. simpl andb.
  case_bool_decide as Hblank; [done|].
  destruct canConfirm; simpl negb; cbv iota.
  - do 2 eexists. by split_and!.
  - eexists. by split_and!.
Qed.

(** A pending action is for a confirmation-required tool called with a
    thought, in a run that may ask for confirmation. *)
Lemma tool_use_pending canConfirm agentName auditParentID w g id name input w' pending :
  tool_use canConfirm agentName auditParentID w g id name input
  = (w', NeedConfirmation pending) →
  canConfirm = true ∧ PendingThought pending ≠ EmptyString ∧
  ∃ tool, registry e !! PendingTool pending = Some tool ∧
          RequiresConfirmation tool = true.
Proof.
  unfold tool_use.
  destruct (json_Unmarshal_thought input) as [rawThought|err]; [|done].
  destruct (registry e !! name) as [tool|] eqn:Htool; [|done].
  destruct (RequiresConfirmation tool) eqn:Hreq; simpl andb.
  - case_bool_decide as Hblank; [done|].
    destruct canConfirm; simpl negb; cbv iota; [|done].
    intros [= _ <-]. simpl. split_and!; [done..|]. by exists tool.
  - destruct (Execute tool _) as [result err].
    destruct (audit e), err as [err|], result as [result|];
      try destruct (Success result); done.
Qed.

Lemma process_blocks_pending canConfirm agentName auditParentID blocks :
  ∀ w g w' g' pending,
    process_blocks canConfirm agentName auditParentID w g blocks
    = (w', inl (g', Some pending)) →
    canConfirm = true ∧ PendingThought pending ≠ EmptyString ∧
    ∃ tool, registry e !! PendingTool pending = Some tool ∧
            RequiresConfirmation tool = true.
Proof.
  induction blocks as [|block blocks IH]; intros w g w' g' pending; simpl; [done|].
  destruct block as [text|id name input|? ? ?|?]; try apply IH.
  destruct (tool_use _ _ _ w g id name input) as [w1 [g1|p|msg]] eqn:Huse.
  - apply IH.
  - intros [= _ _ <-]. by eapply tool_use_pending.
  - done.
Qed.

Lemma loop_confirmation_needed fuel input model maxTokens systemPrompt maxTurns canConfirm
    apiTools agentName auditParentID :
  ∀ w totalTokens w' out err,
    loop fuel input model maxTokens systemPrompt maxTurns canConfirm apiTools
      agentName auditParentID w totalTokens = (w', Returned out err) →
    Type_ out = OutputConfirmationNeeded →
    err = None ∧ canConfirm = true ∧
    ∃ pending tool,
      OutPendingAction out = Some pending ∧
      registry e !! PendingTool pending = Some tool ∧
      RequiresConfirmation tool = true ∧ PendingThought pending ≠ EmptyString.
Proof.
  induction fuel as [|fuel IH]; intros w totalTokens w' out err; simpl; [done|].
  destruct (ctx_Err _) as [cause|]; [by intros [= _ <- _]|].
  case_bool_decide; [by intros [= _ <- _]|].
  destruct (Messages_New _ _ _ _ _ _) as [resp|cause]; [|by intros [= _ <- _]].
  destruct (process_blocks _ _ _ _ _ _) as [w1 [[g [pending|]]|msg]] eqn:Hblocks;
    [| |done].
  - intros [= _ <- <-] _. simpl.
    apply process_blocks_pending in Hblocks as (-> & Hthought & tool & Htool & Hreq).
    split_and!; [done..|]. by exists pending, tool.
  - case_bool_decide; [by intros [= _ <- _]|]. apply IH.
Qed.

(** [Run], where the request is admitted, is the loop from where the session
    starts. *)
Lemma Run_admitted input :
  admitted input →
  ∃ model maxTokens systemPrompt apiTools agentName,
    first_call input
    = Messages_New (StreamCallback input) model maxTokens systemPrompt
        (Messages (session (start input))) apiTools ∧
    Run input
    = loop (S (Z.to_nat (maxTurns_of input))) input model maxTokens systemPrompt
        (maxTurns_of input) (canConfirm_of input) apiTools agentName
        (InputContext input ≫= CtxAuditParentID) (start input) no_tokens.
Proof.
  intros Hadm. unfold Run, Run_with, first_call, admitted in *.
  destruct (guardrails e) as [g|], (InputContext input) as [ctx|];
    try (cbv zeta; do 5 eexists; split; reflexivity).
  destruct Hadm as (result & -> & ->). simpl negb. cbv iota zeta.
  do 5 eexists. split; reflexivity.
Qed.

(** The first turn of a run whose model asks, before any other tool, for a
    confirmation-required tool. *)
Lemma Run_confirmation_block input resp before id name toolInput rest tool rawThought :
  admitted input → ctx_Err 0 = None → (0 < maxTurns_of input)%Z →
  first_call input = Ok resp →
  Content resp = before ++ ToolUseBlock id name toolInput :: rest →
  no_tool_use before →
  json_Unmarshal_thought toolInput = Ok rawThought →
  registry e !! name = Some tool → RequiresConfirmation tool = true →
  if bool_decide (TrimSpace rawThought = EmptyString) then
    no_tool_use rest →
    answered input resp (ToolResultBlock id missing_thought_message true)
  else if canConfirm_of input then
    ∃ out pending,
      (Run input).2 = Returned out None ∧
      Type_ out = OutputConfirmationNeeded ∧
      OutPendingAction out = Some pending ∧
      PendingTool pending = name ∧ PendingInput pending = json_Marshal_raw toolInput ∧
      PendingThought pending = TrimSpace rawThought ∧ BlockID pending = id ∧
      executed (Run input).1 = [] ∧
      TurnCount (session (Run input).1) = 1%Z
  else
    no_tool_use rest →
    answered input resp
      (ToolResultBlock id "error: this operation requires user confirmation" true).
Proof.
  intros Hadm Hctx Hturns Hcall Hcontent Hbefore Hjson Htool Hreq.
  destruct (Run_admitted input Hadm)
    as (model & maxTokens & systemPrompt & apiTools & agentName & Hfirst & Hrun).
  rewrite Hfirst in Hcall.
  destruct (start_empty input) as (Hexec & _ & Hcount).
  set (w0 := with_session (start input) (IncrementTurnCount (session (start input)))).
  set (g0 := {| toolResults := []; textResponse := EmptyString; toolsUsed := [] |}).
  destruct (process_blocks_no_tool_use (canConfirm_of input) agentName
              (InputContext input ≫= CtxAuditParentID) w0 before
              (ToolUseBlock id name toolInput :: rest) Hbefore g0)
    as (g1 & Hresults & Hused & Hblocks).
  pose proof (tool_use_confirmation (canConfirm_of input) agentName
                (InputContext input ≫= CtxAuditParentID) w0 g1 id name toolInput
                tool rawThought Hjson Htool Hreq) as Huse.
  (* the loop after a block that was answered with an error *)
  assert (Hcontinue : ∀ w1 block,
    Messages (session w1) = Messages (session (start input)) →
    tool_use (canConfirm_of input) agentName (InputContext input ≫= CtxAuditParentID)
      w0 g1 id name toolInput = (w1, Next (add_result g1 block)) →
    no_tool_use rest → answered input resp block).
  { intros w1 block Hmsgs Hnext Hrest. unfold answered. rewrite Hrun. clear Hrun.
    cbn [loop]. rewrite Hcount, Hctx.
    rewrite bool_decide_eq_false_2 by lia. fold w0.
    change (Messages (session w0)) with (Messages (session (start input))).
    rewrite Hcall. fold g0. rewrite Hcontent, Hblocks.
    cbn [process_blocks]. rewrite Hnext.
    destruct (process_blocks_no_tool_use (canConfirm_of input) agentName
                (InputContext input ≫= CtxAuditParentID) w1 rest [] Hrest
                (add_result g1 block)) as (g2 & Hresults2 & _ & Hblocks2).
    rewrite app_nil_r in Hblocks2. rewrite Hblocks2. cbn [process_blocks].
    rewrite Hresults2. cbn [add_result toolResults]. rewrite Hresults. cbn [g0 toolResults].
    rewrite bool_decide_eq_false_2 by done.
    destruct (loop _ _ _ _ _ _ _ _ _ _ _ _) as [w' out] eqn:Hloop.
    apply loop_messages in Hloop. simpl in Hloop |- *.
    rewrite Hmsgs, <- app_assoc in Hloop. rewrite <- Hcontent. exact Hloop. }
  case_bool_decide as Hblank.
  - apply (Hcontinue w0); [done|exact Huse].
  - destruct (canConfirm_of input) eqn:Hcan.
    + destruct Huse as (w1 & pending & Huse & Hexec1 & Hcount1 & _ & Hp).
      rewrite Hrun. cbn [loop]. rewrite Hcount, Hctx.
      rewrite bool_decide_eq_false_2 by lia. fold w0.
      change (Messages (session w0)) with (Messages (session (start input))).
      rewrite Hcall. fold g0. rewrite Hcontent, Hblocks.
      cbn [process_blocks]. rewrite Huse. cbn [fst snd].
      do 2 eexists. split_and!; [reflexivity|done|reflexivity|try apply Hp..].
      * simpl. rewrite Hexec1. exact Hexec.
      * simpl. rewrite Hcount1. simpl. rewrite Hcount. done.
    + destruct Huse as (w1 & Huse & _ & _ & Hmsgs).
      apply (Hcontinue w1); [exact Hmsgs|exact Huse].
Qed.


(** C1 (amended).  Every trace that [Run] leaves for a confirmation-required
    tool is a failure whose observation is "Awaiting user confirmation" or,
    in a run that may not ask for confirmation, "Operation blocked:
    confirmation not allowed in this context" (with the error
    "confirmation_disabled" in its metadata); every trace that
    [RunConfirmedAction] leaves carries the metadata confirmed = "true". *)
Theorem confirmation_traces :
  (∀ input t tool,
     t ∈ Traces (session (Run input).1) →
     registry e !! Action t = Some tool → RequiresConfirmation tool = true →
     TraceSuccess t = false ∧
     (Observation t = "Awaiting user confirmation" ∨
      (canConfirm_of input = false ∧
       Observation t = "Operation blocked: confirmation not allowed in this context" ∧
       Metadata t !! "error" = Some "confirmation_disabled"))) ∧
  (∀ input action t,
     t ∈ Traces (session (RunConfirmedAction input action).1) →
     Metadata t !! "confirmed" = Some "true").
Proof.
  split.
  - intros input t tool Hin Htool Hreq.
    destruct (Run input) as [w out] eqn:Hrun.
    apply Run_with_grows in Hrun as [_ Htraces].
    rewrite Forall_forall in Htraces. by apply (Htraces t Hin tool).
  - apply RunConfirmedAction_traces.
Qed.

(** ** Errors inside a tool-use block *)

(** X17.  The errors that the loop recovers from: a tool input that does
    not decode, an unknown tool, a confirmation-required tool called with a
    thought that is empty once the white space around it, Unicode's
    included, is trimmed, and a read-only tool whose execution fails with an
    error or with an unsuccessful result are each answered with an error
    tool result, and the next block is processed (a successful result is
    answered with its data).  A read-only tool that returns neither result nor error makes
    the program panic. *)
Lemma tool_use_recovers canConfirm agentName auditParentID w g id name input :
  (∀ err, json_Unmarshal_thought input = Err err →
     tool_use canConfirm agentName auditParentID w g id name input
     = (w, Next (add_result g
                   (ToolResultBlock id ("invalid tool input JSON: " +:+ err) true)))) ∧
  (∀ rawThought, json_Unmarshal_thought input = Ok rawThought →
     registry e !! name = None →
     tool_use canConfirm agentName auditParentID w g id name input
     = (w, Next (add_result g (ToolResultBlock id ("unknown tool: " +:+ name) true)))) ∧
  (∀ rawThought tool, json_Unmarshal_thought input = Ok rawThought →
     registry e !! name = Some tool → RequiresConfirmation tool = true →
     TrimSpace rawThought = EmptyString →
     tool_use canConfirm agentName auditParentID w g id name input
     = (w, Next (add_result g (ToolResultBlock id missing_thought_message true)))) ∧
  (∀ rawThought tool params result err,
     json_Unmarshal_thought input = Ok rawThought →
     registry e !! name = Some tool → RequiresConfirmation tool = false →
     params = {| P_UserID := SessionUserID (session w);
                 P_Input := json_Marshal_raw input;
                 P_ConfirmationID := EmptyString;
                 P_RequestID := SessionID (session w) |} →
     Execute tool params = (result, err) →
     match err, result with
     | Some msg, _ =>
         ∃ w' g', tool_use canConfirm agentName auditParentID w g id name input
                  = (w', Next g') ∧
                  toolResults g' = toolResults g ++ [ToolResultBlock id msg true]
     | None, Some r =>
         ∃ w' g', tool_use canConfirm agentName auditParentID w g id name input
                  = (w', Next g') ∧
                  toolResults g' =
                    toolResults g
                    ++ [if Success r
                        then ToolResultBlock id (json_Marshal (Data r)) false
                        else ToolResultBlock id (ResultError r) true]
     | None, None =>
         ∃ w', tool_use canConfirm agentName auditParentID w g id name input
               = (w', BlockPanic nil_dereference)
     end).
Proof.
  unfold tool_use. split_and!.
  - by intros err ->.
  - by intros rawThought -> ->.
  - intros rawThought tool -> -> -> ->. done.
  - intros rawThought tool params result err -> -> -> -> Hexec. simpl andb. cbv iota.
    simpl in Hexec |- *. rewrite Hexec.
    destruct err as [msg|], result as [r|]; try destruct (Success r);
      simpl; by eauto.
Qed.

Lemma prefix_append (p s : string) : String.prefix p (p +:+ s) = true.
Proof.
  induction p as [|a p IH]; simpl; [by destruct s|].
  by destruct (Ascii.ascii_dec a a).
Qed.

#[local] Ltac find_reason :=
  unfold abort_reason;
  repeat (try (left; apply prefix_append); right); apply prefix_append.

(** An error output of [Run] is one of admission, model provider, turn
    limit or deadline. *)
Lemma loop_error_outputs fuel input model maxTokens systemPrompt maxTurns canConfirm
    apiTools agentName auditParentID :
  ∀ w totalTokens w' out err,
    loop fuel input model maxTokens systemPrompt maxTurns canConfirm apiTools
      agentName auditParentID w totalTokens = (w', Returned out err) →
    Type_ out = OutputError →
    ∃ msg, Error out = Some msg ∧ abort_reason msg.
Proof.
  induction fuel as [|fuel IH]; intros w totalTokens w' out err; simpl; [done|].
  destruct (ctx_Err _) as [cause|].
  { intros [= _ <- _] _. eexists. split; [reflexivity|]. find_reason. }
  case_bool_decide.
  { intros [= _ <- _] _. eexists. split; [reflexivity|]. find_reason. }
  destruct (Messages_New _ _ _ _ _ _) as [resp|cause].
  2:{ intros [= _ <- _] _. eexists. split; [reflexivity|]. find_reason. }
  destruct (process_blocks _ _ _ _ _ _) as [w1 [[g [pending|]]|msg]]; [| |done].
  - by intros [= _ <- _].
  - case_bool_decide; [by intros [= _ <- _]|]. apply IH.
Qed.

(** X18.  When [Run] returns an output of type [OutputError], its error is
    one of: the guardrails check failed, the request was blocked by the
    guardrails, the model API failed, the turn limit was exceeded, the
    context was cancelled or timed out. *)
Lemma Run_error_outputs input out err :
  (Run input).2 = Returned out err → Type_ out = OutputError →
  ∃ msg, Error out = Some msg ∧ abort_reason msg.
Proof.
  unfold Run, Run_with.
  destruct (guardrails e) as [g|], (InputContext input) as [ctx|];
    try (destruct (loop _ _ _ _ _ _ _ _ _ _ _ _) as [w' o] eqn:Hloop; simpl;
         intros ->; by eapply loop_error_outputs).
  destruct (Check g (CtxUserID ctx)) as [result|cause].
  - destruct (Allowed result); simpl negb; cbv iota.
    + destruct (loop _ _ _ _ _ _ _ _ _ _ _ _) as [w' o] eqn:Hloop; simpl.
      intros ->. by eapply loop_error_outputs.
    + simpl. intros [= <- _] _. eexists. split; [reflexivity|].
      find_reason.
  - simpl. intros [= <- _] _. eexists. split; [reflexivity|].
    find_reason.
Qed.

(** ** Termination *)

Lemma loop_turns fuel input model maxTokens systemPrompt maxTurns canConfirm apiTools
    agentName auditParentID :
  ∀ w totalTokens w' out,
    loop fuel input model maxTokens systemPrompt maxTurns canConfirm apiTools
      agentName auditParentID w totalTokens = (w', out) →
    (TurnCount (session w) ≤ TurnCount (session w')
     ≤ TurnCount (session w) `max` maxTurns)%Z.
Proof.
  induction fuel as [|fuel IH]; intros w totalTokens w' out; simpl.
  - intros [= <- _]. lia.
  - destruct (ctx_Err _); [intros [= <- _]; lia|].
    case_bool_decide as Hturns; [intros [= <- _]; lia|].
    destruct (Messages_New _ _ _ _ _ _) as [resp|err];
      [|intros [= <- _]; simpl; lia].
    destruct (process_blocks _ _ _ _ _ _) as [w1 [[g [pending|]]|msg]] eqn:Hblocks;
      apply process_blocks_extends in Hblocks as [Hcount _]; simpl in Hcount.
    + intros [= <- _]. simpl. lia.
    + case_bool_decide.
      * intros [= <- _]. rewrite (proj2 (record_traces_same _ _)).
        destruct (guardrails e), (InputContext input); simpl; lia.
      * intros Hrest%IH. simpl in Hrest. lia.
    + intros [= <- _]. lia.
Qed.

(** X19.  [Run] always returns: its loop makes at most as many turns as the
    turn limit allows (20 when the context sets no limits), each with one
    call of the model. *)
Theorem Run_stops input :
  (Run input).2 ≠ OutOfFuel ∧
  (0 ≤ TurnCount (session (Run input).1) ≤ 0 `max` maxTurns_of input)%Z.
Proof.
  split; [apply Run_returns|].
  unfold Run, Run_with.
  destruct (match guardrails e, InputContext input with
            | Some g, Some ctx => _ | _, _ => None end); [simpl; lia|].
  cbv zeta.
  destruct (loop _ _ _ _ _ _ _ _ _ _ _ _) as [w' out] eqn:Hloop.
  apply loop_turns in Hloop.
  destruct (start_empty input) as (_ & _ & Hzero). rewrite Hzero in Hloop.
  exact Hloop.
Qed.

(** ** The trace of an execution *)

Lemma categorizeError_type errMsg : categorizeError errMsg ∈ error_types.
Proof.
  unfold categorizeError, error_types.
  repeat (match goal with
          | |- context [if ?b then _ else _] => destruct b
          end; [set_solver|]).
  set_solver.
Qed.

Lemma generatePrevention_nonempty action errorType :
  generatePrevention action errorType ≠ EmptyString.
Proof.
  unfold generatePrevention.
  destruct (preventionMap !! _) as [prevention|] eqn:E.
  - unfold preventionMap in E.
    repeat (apply lookup_insert_Some in E as [[_ <-]|[_ E]]; [done|]).
    by apply lookup_singleton_Some in E as [_ <-].
  - by repeat case_bool_decide.
Qed.

(** X20.  The trace that OBSERVE completes is a success exactly when the
    tool returned no error and a successful result, and then the metadata
    are as they were.  Every other trace carries an error type, one of the
    eight of [categorizeError], and a non-empty prevention, the one that
    [generatePrevention] gives for the action and that type. *)
Theorem observe_reflexion t tool action result err :
  let t' := observe t tool action result err in
  (TraceSuccess t' = true ↔ err = None ∧ ∃ r, result = Some r ∧ Success r = true) ∧
  (TraceSuccess t' = true → Metadata t' = Metadata t) ∧
  (TraceSuccess t' = false →
   ∃ errorType,
     Metadata t' !! "error_type" = Some errorType ∧ errorType ∈ error_types ∧
     Metadata t' !! "prevention" = Some (generatePrevention action errorType) ∧
     generatePrevention action errorType ≠ EmptyString).
Proof.
  cbv zeta. unfold observe.
  assert (Hfailed : ∀ metadata : gmap string string,
    ∃ errorType,
      <["prevention" := generatePrevention action
                          (categorizeError (default EmptyString (metadata !! "error")))]>
        (<["error_type" := categorizeError (default EmptyString (metadata !! "error"))]>
           metadata) !! "error_type" = Some errorType ∧
      errorType ∈ error_types ∧
      <["prevention" := generatePrevention action
                          (categorizeError (default EmptyString (metadata !! "error")))]>
        (<["error_type" := categorizeError (default EmptyString (metadata !! "error"))]>
           metadata) !! "prevention" = Some (generatePrevention action errorType) ∧
      generatePrevention action errorType ≠ EmptyString).
  { intros metadata. eexists. split_and!.
    - rewrite lookup_insert_ne by done. apply lookup_insert_eq.
    - apply categorizeError_type.
    - apply lookup_insert_eq.
    - apply generatePrevention_nonempty. }
  destruct err as [msg|], result as [r|]; try destruct (Success r) eqn:Hok; simpl.
  - split_and!; [by split; [|intros [? _]]|done|intros _; apply Hfailed].
  - split_and!; [by split; [|intros [? _]]|done|intros _; apply Hfailed].
  - split_and!; [by split; [|intros [? _]]|done|intros _; apply Hfailed].
  - split_and!; [|done|done]. split; [intros _|done]. split; [done|].
    exists r. by rewrite Hok.
  - split_and!; [|done|intros _; apply Hfailed].
    split; [done|]. intros [_ (r' & [= <-] & Hr')]. congruence.
  - split_and!; [|done|intros _; apply Hfailed].
    split; [done|]. by intros [_ (r' & ? & _)].
Qed.

(** ** The audit log *)

Lemma audited_alike_same w w' :
  executed w' = executed w → audited w' = audited w → audited_alike w w'.
Proof.
  intros Hc Ha. exists [], []. rewrite !app_nil_r. split_and!; [done..|].
  by destruct (audit e).
Qed.

Lemma audited_alike_trans w1 w2 w3 :
  audited_alike w1 w2 → audited_alike w2 w3 → audited_alike w1 w3.
Proof.
  intros (c1 & a1 & Hc1 & Ha1 & H1) (c2 & a2 & Hc2 & Ha2 & H2).
  exists (c1 ++ c2), (a1 ++ a2). rewrite Hc2, Hc1, Ha2, Ha1, !app_assoc.
  split_and!; [done..|]. destruct (audit e).
  - by apply Forall2_app.
  - by subst.
Qed.

Lemma tool_use_audited canConfirm agentName auditParentID w g id name input w' out :
  tool_use canConfirm agentName auditParentID w g id name input = (w', out) →
  audited_alike w w'.
Proof.
  unfold tool_use.
  destruct (json_Unmarshal_thought input) as [rawThought|err];
    [|intros [= <- _]; by apply audited_alike_same].
  destruct (registry e !! name) as [tool|] eqn:Htool;
    [|intros [= <- _]; by apply audited_alike_same].
  destruct (RequiresConfirmation tool) eqn:Hreq; simpl andb.
  - case_bool_decide; [intros [= <- _]; by apply audited_alike_same|].
    destruct canConfirm; simpl negb; cbv iota; intros [= <- _];
      by apply audited_alike_same.
  - destruct (Execute tool _) as [result err] eqn:Hexec.
    unfold audited_alike.
    destruct (audit e) eqn:Haudit.
    + destruct err as [err|], result as [result|];
        try destruct (Success result); simpl negb; cbv iota;
        intros [= <- _]; simpl; do 2 eexists;
        (split_and!; [reflexivity|reflexivity|]);
        (constructor; [unfold audit_of; simpl; by split_and!|constructor]).
    + destruct err as [err|], result as [result|];
        try destruct (Success result); simpl negb; cbv iota;
        intros [= <- _]; simpl; do 2 eexists;
        (split_and!; [reflexivity|symmetry; apply app_nil_r|reflexivity]).
Qed.

Lemma process_blocks_audited canConfirm agentName auditParentID blocks :
  ∀ w g w' r,
    process_blocks canConfirm agentName auditParentID w g blocks = (w', r) →
    audited_alike w w'.
Proof.
  induction blocks as [|block blocks IH]; intros w g w' r; simpl.
  - intros [= <- _]. by apply audited_alike_same.
  - destruct block as [text|id name input|? ? ?|?]; try apply IH.
    destruct (tool_use _ _ _ w g id name input) as [w1 [g1|pending|msg]] eqn:Huse;
      apply tool_use_audited in Huse.
    + intros H%IH. by eapply audited_alike_trans.
    + by intros [= <- _].
    + by intros [= <- _].
Qed.

Lemma record_traces_audited input w :
  audited (record_traces input w) = audited w.
Proof.
  unfold record_traces. destruct (memory e), (InputContext input); try done.
  by case_bool_decide.
Qed.

Lemma loop_audited fuel input model maxTokens systemPrompt maxTurns canConfirm apiTools
    agentName auditParentID :
  ∀ w totalTokens w' out,
    loop fuel input model maxTokens systemPrompt maxTurns canConfirm apiTools
      agentName auditParentID w totalTokens = (w', out) →
    audited_alike w w'.
Proof.
  induction fuel as [|fuel IH]; intros w totalTokens w' out; simpl.
  - intros [= <- _]. by apply audited_alike_same.
  - destruct (ctx_Err _); [intros [= <- _]; by apply audited_alike_same|].
    case_bool_decide; [intros [= <- _]; by apply audited_alike_same|].
    destruct (Messages_New _ _ _ _ _ _) as [resp|err];
      [|intros [= <- _]; by apply audited_alike_same].
    destruct (process_blocks _ _ _ _ _ _) as [w1 [[g [pending|]]|msg]] eqn:Hblocks;
      apply process_blocks_audited in Hblocks;
      assert (Hg : audited_alike w w1) by exact Hblocks.
    + intros [= <- _]. eapply audited_alike_trans; [exact Hg|].
      by apply audited_alike_same.
    + case_bool_decide.
      * intros [= <- _]. eapply audited_alike_trans; [exact Hg|].
        apply audited_alike_same.
        -- rewrite (proj1 (record_traces_same _ _)).
           by destruct (guardrails e), (InputContext input).
        -- rewrite record_traces_audited.
           by destruct (guardrails e), (InputContext input).
      * intros Hrest%IH. eapply audited_alike_trans; [exact Hg|].
        eapply audited_alike_trans; [|exact Hrest]. by apply audited_alike_same.
    + intros [= <- _]. exact Hg.
Qed.

(** X21.  With an audit logger configured, [Run] logs one audit entry for
    each tool execution, in order: the entry names the executed tool,
    carries the input and the user of the call, and is never marked as a
    write operation.  Without a logger nothing is logged. *)
Theorem Run_audits_executions input :
  if audit e
  then Forall2 audit_of (executed (Run input).1) (audited (Run input).1)
  else audited (Run input).1 = [].
Proof.
  unfold Run, Run_with.
  destruct (match guardrails e, InputContext input with
            | Some g, Some ctx => _ | _, _ => None end).
  { simpl. by destruct (audit e). }
  cbv zeta.
  destruct (loop _ _ _ _ _ _ _ _ _ _ _ _) as [w' out] eqn:Hloop.
  apply loop_audited in Hloop as (calls & entries & Hc & Ha & H).
  destruct (start_empty input) as (He & _ & _).
  assert (Hnone : audited (start input) = []).
  { unfold start, resume. cbv zeta. by case_bool_decide. }
  simpl. rewrite Hc, Ha, He, Hnone. simpl. exact H.
Qed.

(** ** The tools that an output reports *)

Lemma tool_use_reports canConfirm agentName auditParentID w g id name input w' g' :
  tool_use canConfirm agentName auditParentID w g id name input = (w', Next g') →
  length (toolsUsed g) ≤ length (toolResults g) →
  length (toolsUsed g') ≤ length (toolResults g').
Proof.
  unfold tool_use.
  destruct (json_Unmarshal_thought input) as [rawThought|err];
    [|intros [= _ <-]; simpl; rewrite length_app; simpl; lia].
  destruct (registry e !! name) as [tool|];
    [|intros [= _ <-]; simpl; rewrite length_app; simpl; lia].
  destruct (RequiresConfirmation tool); simpl andb.
  - case_bool_decide; [intros [= _ <-]; simpl; rewrite length_app; simpl; lia|].
    destruct canConfirm; simpl negb; cbv iota; [done|].
    intros [= _ <-]. simpl. rewrite length_app. simpl. lia.
  - destruct (Execute tool _) as [result err].
    destruct err as [err|], result as [result|];
      try destruct (Success result); simpl negb; cbv iota; try done;
      intros [= _ <-]; simpl; rewrite !length_app; simpl; lia.
Qed.

Lemma process_blocks_reports canConfirm agentName auditParentID blocks :
  ∀ w g w' g' pending,
    process_blocks canConfirm agentName auditParentID w g blocks
    = (w', inl (g', pending)) →
    length (toolsUsed g) ≤ length (toolResults g) →
    length (toolsUsed g') ≤ length (toolResults g').
Proof.
  induction blocks as [|block blocks IH]; intros w g w' g' pending; simpl.
  - by intros [= _ <- _].
  - destruct block as [text|id name input|? ? ?|?]; try apply IH.
    + intros H Hg. by apply (IH _ _ _ _ _ H).
    + destruct (tool_use _ _ _ w g id name input) as [w1 [g1|p|msg]] eqn:Huse.
      * intros H Hg. apply (IH _ _ _ _ _ H). by eapply tool_use_reports.
      * by intros [= _ <- _].
      * done.
Qed.

Lemma loop_complete fuel input model maxTokens systemPrompt maxTurns canConfirm apiTools
    agentName auditParentID :
  ∀ w totalTokens w' out err,
    loop fuel input model maxTokens systemPrompt maxTurns canConfirm apiTools
      agentName auditParentID w totalTokens = (w', Returned out err) →
    Type_ out = OutputComplete →
    ToolsUsed out = [] ∧ OutPendingAction out = None ∧ Error out = None ∧ err = None.
Proof.
  induction fuel as [|fuel IH]; intros w totalTokens w' out err; simpl; [done|].
  destruct (ctx_Err _) as [cause|]; [by intros [= _ <- _]|].
  case_bool_decide; [by intros [= _ <- _]|].
  destruct (Messages_New _ _ _ _ _ _) as [resp|cause]; [|by intros [= _ <- _]].
  destruct (process_blocks _ _ _ _ _ _) as [w1 [[g [pending|]]|msg]] eqn:Hblocks;
    [by intros [= _ <- _]| |done].
  case_bool_decide as Hnone; [|apply IH].
  intros [= _ <- <-] _. simpl. split_and!; try done.
  apply process_blocks_reports in Hblocks; [|simpl; lia].
  rewrite Hnone in Hblocks. apply nil_length_inv. lia.
Qed.

(** X28.  An output of [Run] of type [OutputComplete] reports no tool
    executions, whatever tools the run has executed: the list of tools used
    is started anew at each turn, and the turn that completes a run is one
    without tool results.  It carries neither pending action nor error. *)
Theorem Run_complete_reports_no_tools input out err :
  (Run input).2 = Returned out err → Type_ out = OutputComplete →
  ToolsUsed out = [] ∧ OutPendingAction out = None ∧ Error out = None ∧ err = None.
Proof.
  unfold Run, Run_with.
  destruct (match guardrails e, InputContext input with
            | Some g, Some ctx => _ | _, _ => None end); [by intros [= <- _]|].
  cbv zeta.
  destruct (loop _ _ _ _ _ _ _ _ _ _ _ _) as [w' o] eqn:Hloop. simpl.
  intros ->. by eapply loop_complete.
Qed.

(** ** The confirmed action *)

(** X22.  [RunConfirmedAction] on an action whose tool is not registered
    fails without executing anything.  Otherwise it executes the tool once,
    with the input and the user stored in the action and an empty
    confirmation id, whatever the tool returns and whatever the model
    answers afterwards; it leaves one trace and logs no audit entry, whether
    or not an audit logger is configured. *)
Theorem RunConfirmedAction_executes_once input action :
  match registry e !! PendingTool action with
  | None =>
      (RunConfirmedAction input action).2
        = Failed ("unknown tool: " +:+ PendingTool action) ∧
      executed (RunConfirmedAction input action).1 = []
  | Some tool =>
      (∃ params,
         executed (RunConfirmedAction input action).1 = [(tool, params)] ∧
         P_Input params = PendingInput action ∧
         P_UserID params = PendingUserID action ∧
         P_ConfirmationID params = EmptyString) ∧
      length (Traces (session (RunConfirmedAction input action).1)) = 1 ∧
      audited (RunConfirmedAction input action).1 = []
  end.
Proof.
  unfold RunConfirmedAction. cbv zeta.
  destruct (resume_empty input) as (He & Ht & _).
  assert (Ha : audited (resume input) = []) by done.
  generalize dependent (resume input). intros w0 He Ht Ha.
  destruct (registry e !! PendingTool action) as [tool|]; [|by split].
  destruct (Execute tool _) as [result toolErr].
  destruct toolErr as [err|], result as [result|]; try destruct (Success result);
    simpl; try destruct (Messages_New _ _ _ _ _ _); simpl;
    rewrite ?(proj1 (record_traces_same _ _)), ?(proj2 (record_traces_same _ _)),
      ?record_traces_audited; simpl; rewrite He, Ht, Ha; simpl;
    (split_and!; [|done..]; eexists; by split_and!).
Qed.

End engine.

(** ** A small agent

    Three tools: [get_balance] (read-only), [send_money] (requires
    confirmation) and [lookup], a read-only tool whose handler returns
    neither a result nor an error.  The model, asked for the first time,
    calls the tool that the user names; asked again, it answers with text. *)

Definition sample_registry : gmap string Tool :=
  {[ "get_balance" :=
       {| Name := "get_balance"; RequiresConfirmation := false;
          GetSummary := λ _, "Check balance";
          Execute := λ _, (Some {| Success := true;
                                   Data := AMap [("usd", AString "100.00")];
                                   ResultError := EmptyString |}, None);
          FormatObservation := None |};
     "send_money" :=
       {| Name := "send_money"; RequiresConfirmation := true;
          GetSummary := λ _, "Send 50 USDC to @alice";
          Execute := λ _, (Some {| Success := true;
                                   Data := AMap [("status", AString "sent")];
                                   ResultError := EmptyString |}, None);
          FormatObservation := None |};
     "lookup" :=
       {| Name := "lookup"; RequiresConfirmation := false;
          GetSummary := λ _, "Look up";
          Execute := λ _, (None, None);
          FormatObservation := None |} ]}.

Definition sample_engine : Engine :=
  {| registry := sample_registry; guardrails := None; audit := true; memory := None |}.

Definition sample_Messages_New (stream : bool) (model : string) (maxTokens : Z)
    (system : string) (messages : list Message) (tools : list string) : result Response :=
  match messages with
  | [ {| Role := _; Blocks := [TextBlock name] |} ] =>
      Ok {| Content := [TextBlock "On it. "; ToolUseBlock "toolu_1" name "{...}";
                        ToolUseBlock "toolu_2" "get_balance" "{...}"];
            UsageInput := 10; UsageOutput := 5 |}
  | _ => Ok {| Content := [TextBlock "Done."]; UsageInput := 10; UsageOutput := 5 |}
  end.

(** The agent whose model gives [thought] as the thought of every tool
    input. *)
Definition sample_Run_thinking (thought : string) (input : Input) : World * Outcome :=
  Run sample_Messages_New (λ _, Ok thought) (λ raw, raw) (λ _, "{}")
    (λ _, "?") (λ s, s) (λ n, "id-" +:+ pretty n) (λ n, Z.of_nat n) (λ _, None)
    (λ user tool input, user +:+ ":" +:+ tool +:+ ":" +:+ input)
    "You are a helpful financial assistant." sample_engine input.

Definition sample_Run (input : Input) : World * Outcome :=
  sample_Run_thinking "user asked for it" input.

Definition sample_RunConfirmedAction (input : Input) (action : PendingAction)
  : World * Outcome :=
  RunConfirmedAction sample_Messages_New (λ raw, raw) (λ _, "{}") (λ _, "?") (λ s, s)
    (λ n, "id-" +:+ pretty n) (λ n, Z.of_nat n)
    "You are a helpful financial assistant." sample_engine input action.

(** The user names a tool; the run may or may not ask for confirmation. *)
Definition sample_input (userMessage : string) (canConfirm : bool) : Input :=
  {| UserMessage := userMessage;
     InputContext :=
       Some {| CtxUserID := "u1"; ConversationID := "c1";
               Limits := Some {| MaxTurns := 5; LimitMaxTokens := 4096;
                                 Timeout := 0; CanConfirm := canConfirm |};
               CtxAuditParentID := None |};
     History := []; SystemPrompt := EmptyString; Model := EmptyString;
     MaxTokens := 0; InputAgentName := EmptyString; AvailableTools := [];
     StreamCallback := false |}.

Definition trace_summary (t : Trace) : string * string * bool * option string :=
  (Action t, Observation t, TraceSuccess t, Metadata t !! "confirmed").

Definition outcome_type (out : Outcome) : option OutputType :=
  match out with Returned out _ => Some (Type_ out) | _ => None end.

(** A thought that is one no-break space, U+00A0: the bytes C2 A0. *)
Definition no_break_space : string :=
  String (Ascii.ascii_of_nat 194) (String (Ascii.ascii_of_nat 160) EmptyString).



(** [tool_use_recovers] at the small agent: a thought of one no-break space
    counts as missing. *)
Lemma tool_use_recovers_witness :
  tool_use (λ _, Ok no_break_space) (λ raw, raw) (λ _, "{}") (λ _, "?") (λ s, s)
    (λ n, "id-" +:+ pretty n) (λ n, Z.of_nat n)
    (λ user tool input, user +:+ ":" +:+ tool +:+ ":" +:+ input)
    sample_engine true "default" None empty_world
    {| toolResults := []; textResponse := EmptyString; toolsUsed := [] |}
    "toolu_1" "send_money" "{...}"
  = (empty_world,
     Next {| toolResults := [ToolResultBlock "toolu_1" missing_thought_message true];
             textResponse := EmptyString; toolsUsed := [] |}).
Proof.
  exact (proj1 (proj2 (proj2 (tool_use_recovers (λ _, Ok no_break_space) (λ raw, raw)
                                (λ _, "{}") (λ _, "?") (λ s, s)
                                (λ n, "id-" +:+ pretty n) (λ n, Z.of_nat n)
                                (λ user tool input, user +:+ ":" +:+ tool +:+ ":" +:+ input)
                                sample_engine true "default" None empty_world
                                {| toolResults := []; textResponse := EmptyString;
                                   toolsUsed := [] |}
                                "toolu_1" "send_money" "{...}")))
           no_break_space
           {| Name := "send_money"; RequiresConfirmation := true;
              GetSummary := λ _, "Send 50 USDC to @alice";
              Execute := λ _, (Some {| Success := true;
                                       Data := AMap [("status", AString "sent")];
                                       ResultError := EmptyString |}, None);
              FormatObservation := None |}
           eq_refl eq_refl eq_refl eq_refl).
Defined.

(** C1 as stated fails on the branch it names: in a run that may not ask for
    confirmation, the trace of the confirmation-required [send_money] is
    left by [Run], is not awaiting confirmation and carries no [confirmed]
    metadata. *)
Lemma blocked_trace_is_not_awaiting :
  RequiresConfirmation <$> sample_registry !! "send_money" = Some true ∧
  trace_summary <$> Traces (session (sample_Run (sample_input "send_money" false)).1)
  = [("send_money", "Operation blocked: confirmation not allowed in this context",
      false, None);
     ("get_balance", "{}", true, None)] ∧
  ¬ (∀ t, t ∈ Traces (session (sample_Run (sample_input "send_money" false)).1) →
          Action t = "send_money" →
          (Observation t = "Awaiting user confirmation" ∧ TraceSuccess t = false) ∨
          Metadata t !! "confirmed" = Some "true").
Proof.
  assert (Hsummary :
    trace_summary <$> Traces (session (sample_Run (sample_input "send_money" false)).1)
    = [("send_money", "Operation blocked: confirmation not allowed in this context",
        false, None);
       ("get_balance", "{}", true, None)]) by (vm_compute; reflexivity).
  split_and!; [vm_compute; reflexivity|exact Hsummary|].
  intros Hall.
  destruct (Traces (session (sample_Run (sample_input "send_money" false)).1))
    as [|t ts]; [discriminate Hsummary|].
  unfold trace_summary in Hsummary. injection Hsummary as Ha Ho _ Hc _.
  destruct (Hall t (list_elem_of_here _ _) Ha) as [[Hobs _]|Hconf].
  - rewrite Ho in Hobs. discriminate Hobs.
  - rewrite Hc in Hconf. discriminate Hconf.
Qed.

(** [confirmation_traces] at the small agent. *)
Lemma confirmation_traces_witness :
  (∀ t, t ∈ Traces (session (sample_Run (sample_input "send_money" true)).1) →
        Action t = "send_money" →
        TraceSuccess t = false ∧ Observation t = "Awaiting user confirmation") ∧
  trace_summary <$> Traces (session (sample_Run (sample_input "send_money" true)).1)
  = [("send_money", "Awaiting user confirmation", false, None)].
Proof.
  split; [|vm_compute; reflexivity].
  intros t Hin Haction.
  destruct (proj1 (confirmation_traces sample_Messages_New
                     (λ _, Ok "user asked for it") (λ raw, raw) (λ _, "{}")
                     (λ _, "?") (λ s, s) (λ n, "id-" +:+ pretty n) (λ n, Z.of_nat n)
                     (λ _, None)
                     (λ user tool input, user +:+ ":" +:+ tool +:+ ":" +:+ input)
                     "You are a helpful financial assistant." sample_engine)
              (sample_input "send_money" true) t
              {| Name := "send_money"; RequiresConfirmation := true;
                 GetSummary := λ _, "Send 50 USDC to @alice";
                 Execute := λ _, (Some {| Success := true;
                                          Data := AMap [("status", AString "sent")];
                                          ResultError := EmptyString |}, None);
                 FormatObservation := None |} Hin)
    as [Hfail [Hobs|(Hcc & _)]].
  - rewrite Haction. vm_compute. reflexivity.
  - reflexivity.
  - by split.
  - discriminate Hcc.
Defined.

(** C4 at a concrete run.  The model calls [lookup], whose handler returns
    [(nil, nil)].  The engine records the execution as a failure ("No result
    returned") and then dereferences the nil result while it builds the tool
    result: the run panics instead of answering the block with an error
    tool result and going on. *)
Theorem nil_result_aborts_run :
  (sample_Run (sample_input "lookup" true)).2 = Panicked nil_dereference ∧
  trace_summary <$> Traces (session (sample_Run (sample_input "lookup" true)).1)
  = [("lookup", "No result returned", false, None)].
Proof. split; vm_compute; reflexivity. Qed.

(** [Run_complete_reports_no_tools]: asked for the balance, the small agent
    executes [get_balance] twice in its first turn and completes in the
    second; the output reports no tool. *)
Lemma Run_complete_reports_no_tools_witness :
  ∃ out err,
    (sample_Run (sample_input "get_balance" true)).2 = Returned out err ∧
    ToolsUsed out = [] ∧
    length (executed (sample_Run (sample_input "get_balance" true)).1) = 2.
Proof.
  assert (Htype : outcome_type (sample_Run (sample_input "get_balance" true)).2
                  = Some OutputComplete) by (vm_compute; reflexivity).
  destruct (sample_Run (sample_input "get_balance" true)).2 as [out err| | |] eqn:E;
    try discriminate Htype.
  injection Htype as Htype.
  destruct (Run_complete_reports_no_tools sample_Messages_New
              (λ _, Ok "user asked for it") (λ raw, raw) (λ _, "{}") (λ _, "?")
              (λ s, s) (λ n, "id-" +:+ pretty n) (λ n, Z.of_nat n) (λ _, None)
              (λ user tool input, user +:+ ":" +:+ tool +:+ ":" +:+ input)
              "You are a helpful financial assistant." sample_engine
              (sample_input "get_balance" true) out err E Htype) as (Hnone & _).
  exists out, err. split_and!; [done..|]. vm_compute. reflexivity.
Defined.

(** A run that is allowed no turn at all. *)
Definition sample_input_no_turns : Input :=
  {| UserMessage := "get_balance";
     InputContext :=
       Some {| CtxUserID := "u1"; ConversationID := "c1";
               Limits := Some {| MaxTurns := 0; LimitMaxTokens := 4096;
                                 Timeout := 0; CanConfirm := true |};
               CtxAuditParentID := None |};
     History := []; SystemPrompt := EmptyString; Model := EmptyString;
     MaxTokens := 0; InputAgentName := EmptyString; AvailableTools := [];
     StreamCallback := false |}.

(** [Run_error_outputs] at the run that is allowed no turn. *)
Lemma Run_error_outputs_witness :
  ∃ out err msg,
    (sample_Run sample_input_no_turns).2 = Returned out err ∧
    Error out = Some msg ∧ abort_reason msg.
Proof.
  assert (Htype : outcome_type (sample_Run sample_input_no_turns).2
                  = Some OutputError) by (vm_compute; reflexivity).
  destruct (sample_Run sample_input_no_turns).2 as [out err| | |] eqn:E;
    try discriminate Htype.
  injection Htype as Htype.
  destruct (Run_error_outputs sample_Messages_New (λ _, Ok "user asked for it")
              (λ raw, raw) (λ _, "{}") (λ _, "?") (λ s, s) (λ n, "id-" +:+ pretty n)
              (λ n, Z.of_nat n) (λ _, None)
              (λ user tool input, user +:+ ":" +:+ tool +:+ ":" +:+ input)
              "You are a helpful financial assistant." sample_engine
              sample_input_no_turns out err E Htype) as (msg & Hmsg & Hreason).
  by exists out, err, msg.
Defined.

End Engine.


(* ===================================================================== *)
(** * memory/trace_memory.go, memory/manager.go: what gets recorded *)
(* ===================================================================== *)

Module Recording.
Import Memory Manager.

(** [Interaction] *)
Record Interaction : Type := {
  UserMessage : string;
  AssistantResponse : string;
  Traces : list Engine.Trace
}.

(** [trace.Metadata["confirmed"] == "true"], the read of a missing key
    giving the empty string. *)
Definition confirmed (trace : Engine.Trace) : Prop :=
  default EmptyString (Engine.Metadata trace !! "confirmed") = "true".

#[local] Instance confirmed_dec trace : Decision (confirmed trace).
Proof. unfold confirmed. apply _. Defined.

(** The decimal constants of [assessTraceImportance] are read as Go reads
    them: the nearest binary64 values. *)
#[local] Set Warnings "-inexact-float".

(** [assessTraceImportance(trace)] *)
Definition assessTraceImportance (trace : Engine.Trace) : float :=
  let importance := 0.5%float in
  (* Failures are important for learning *)
  let importance :=
    if negb (Engine.TraceSuccess trace) then (importance + 0.3)%float
    else importance in
  (* Confirmations are high-value actions *)
  let importance :=
    if bool_decide (confirmed trace) then (importance + 0.2)%float else importance in
  (* Multi-word thoughts indicate complex reasoning *)
  let importance :=
    if bool_decide (50 < String.length (Engine.Thought trace))
    then (importance + 0.1)%float else importance in
  (* Cap at 1.0 *)
  if (1.0 <? importance)%float then 1.0%float else importance.

(** [TraceMemory.FormatForEmbedding] *)
Definition FormatForEmbedding (t : TraceMemory) : string :=
  "Thought: " +:+ Thought t +:+ newline +:+ "Action: " +:+ Action t +:+ newline
  +:+ "Observation: " +:+ Observation t.

(** [TraceMemory.SetEmbedding] *)
Definition SetEmbedding (t : TraceMemory) (emb : list float32) : TraceMemory :=
  {| id := id t; ownerID := ownerID t; conversationID := conversationID t;
     createdAt := createdAt t; embedding := emb; importance := importance t;
     metadata := metadata t; Thought := Thought t; Action := Action t;
     Observation := Observation t; Success := Success t |}.

Definition contextualActions : list string :=
  ["search_users"; "get_profile"; "get_transactions"; "analyze_spending"].

(** [SimpleManager.filterStorableTraces(traces)] *)
Definition filterStorableTraces (traces : list Engine.Trace) : list Engine.Trace :=
  (* Store multi-step traces (both successes and failures) *)
  if bool_decide (1 < length traces) then traces
  else
    match traces with
    | [trace] =>
        (* Store failures (for learning) *)
        if negb (Engine.TraceSuccess trace) then traces
        (* Store confirmations (important actions) *)
        else if bool_decide (confirmed trace) then traces
        (* Store contextually valuable actions *)
        else if bool_decide (Engine.Action trace ∈ contextualActions) then traces
        (* Store traces with substantive thoughts *)
        else if bool_decide (30 < String.length (Engine.Thought trace)) then traces
        else []
    | _ => []
    end.

(** A single trace that is worth storing. *)
Definition storable (trace : Engine.Trace) : Prop :=
  Engine.TraceSuccess trace = false ∨ confirmed trace ∨
  Engine.Action trace ∈ contextualActions ∨
  30 < String.length (Engine.Thought trace).

Section record.
Context {St : Type}.
(** [uuid.New().String()] and [time.Now()], by the number of draws;
    [fmt]'s [%q] and [%s]. *)
Variable uuid_New : nat → string.
Variable time_Now : nat → Z.
Variable fmt_q : string → string.
Variable fmt_s : Any → string.
(** The [Store] method of the manager's store: the new state of the store
    and the error. *)
Variable store_Store : St → Memory → St * option string.

(** [NewTraceMemory(ownerID, conversationID, trace)] *)
Definition NewTraceMemory (clock : nat) (ownerID conversationID : string)
    (trace : Engine.Trace) : TraceMemory :=
  (* Assess importance *)
  let importance := assessTraceImportance trace in
  (* Build metadata *)
  let metadata : gmap string Any :=
    {[ "action" := AString (Engine.Action trace);
       "success" := ABool (Engine.TraceSuccess trace) ]} in
  let metadata := (AString <$> Engine.Metadata trace) ∪ metadata in
  {| id := uuid_New clock; ownerID := ownerID; conversationID := conversationID;
     createdAt := time_Now clock; embedding := []; importance := importance;
     metadata := metadata; Thought := Engine.Thought trace;
     Action := Engine.Action trace; Observation := Engine.Observation trace;
     Success := Engine.TraceSuccess trace |}.

(** The memory that [Record] hands to the store for a trace, once the
    embedding has been computed. *)
Definition memory_of (clock : nat) (userID : string) (trace : Engine.Trace)
    (embedding : list float32) : Memory :=
  TraceMemory_Memory fmt_q fmt_s
    (SetEmbedding (NewTraceMemory clock userID (Engine.TraceSessionID trace) trace)
       embedding).

(** The loop of [Record] over the storable traces: a trace whose embedding
    or storage fails is skipped. *)
Fixpoint record_each (m : SimpleManager St) (userID : string)
    (traces : list Engine.Trace) (st : St) (clock : nat) : St * nat :=
  match traces with
  | [] => (st, clock)
  | trace :: traces =>
      (* Create TraceMemory *)
      let mem := NewTraceMemory clock userID (Engine.TraceSessionID trace) trace in
      (* Format memory for embedding *)
      let text := FormatForEmbedding mem in
      (* Generate embedding *)
      match Embed (embedder m) text with
      | Err _ => record_each m userID traces st (S clock)
      | Ok embedding =>
          (* Store *)
          let '(st, _) :=
            store_Store st (TraceMemory_Memory fmt_q fmt_s (SetEmbedding mem embedding)) in
          record_each m userID traces st (S clock)
      end
  end.

(** [SimpleManager.Record(ctx, userID, interaction)]: the store and the
    clock afterwards, and the error returned. *)
Definition Record (m : SimpleManager St) (userID : string) (interaction : Interaction)
    (st : St) (clock : nat) : St * nat * option string :=
  if negb (Enabled (config m)) then (st, clock, None)
  else
    (* Filter traces worth storing *)
    let storableTraces := filterStorableTraces (Traces interaction) in
    if bool_decide (length storableTraces = 0) then (st, clock, None)
    else (record_each m userID storableTraces st clock, None).

(** The text that [Record] has the embedder embed for a trace. *)
Definition trace_text (trace : Engine.Trace) : string :=
  "Thought: " +:+ Engine.Thought trace +:+ newline
  +:+ "Action: " +:+ Engine.Action trace +:+ newline
  +:+ "Observation: " +:+ Engine.Observation trace.

(** What [Record] hands to the store for the traces, the first of which
    takes the draw numbered [clock] of identifiers and clock readings: the
    memory of each trace whose text the embedder embeds, in the order of the
    traces. *)
Definition handed_over (m : SimpleManager St) (userID : string) (clock : nat)
    (traces : list Engine.Trace) : list Memory :=
  omap (λ '(draw, trace),
          match Embed (embedder m) (trace_text trace) with
          | Ok embedding => Some (memory_of draw userID trace embedding)
          | Err _ => None
          end)
       (zip (seq clock (length traces)) traces).

(** X24.  The importance that [assessTraceImportance] gives a trace lies
    between 0.5 and 1; that of a failed trace is at least 0.8. *)
Theorem assessTraceImportance_range (trace : Engine.Trace) :
  (0.5 <=? assessTraceImportance trace)%float = true ∧
  (assessTraceImportance trace <=? 1)%float = true ∧
  (if Engine.TraceSuccess trace then True
   else (0.5 + 0.3 <=? assessTraceImportance trace)%float = true).
Proof.
  unfold assessTraceImportance.
  destruct (Engine.TraceSuccess trace), (bool_decide (confirmed trace)),
    (bool_decide (50 < String.length (Engine.Thought trace)));
    vm_compute; auto.
Qed.

(** X25.  [filterStorableTraces] keeps all of the traces or none: all when
    there are two or more; a single trace when it failed, was confirmed, is
    an action of the contextual kind or has a thought of more than 30
    bytes; none otherwise. *)
Theorem filterStorableTraces_all_or_nothing (traces : list Engine.Trace) :
  (filterStorableTraces traces = traces ∨ filterStorableTraces traces = []) ∧
  (1 < length traces → filterStorableTraces traces = traces) ∧
  (∀ trace, traces = [trace] →
     (filterStorableTraces traces = [trace] ↔ storable trace)).
Proof.
  unfold filterStorableTraces. split_and!.
  - case_bool_decide; [by left|].
    destruct traces as [|trace [|? ?]]; [by left| |by right].
    destruct (Engine.TraceSuccess trace); simpl; [|by left].
    repeat case_bool_decide; auto.
  - intros Hlen. by rewrite bool_decide_eq_true_2.
  - intros trace ->. rewrite bool_decide_eq_false_2 by (simpl; lia).
    unfold storable.
    destruct (Engine.TraceSuccess trace); simpl; [|split; [by left|done]].
    repeat case_bool_decide; try (split; [auto|done]).
    split; [done|]. by intros [|[|[|]]].
Qed.

Lemma record_each_hands_over m userID traces :
  ∀ st clock,
    record_each m userID traces st clock
    = (foldl (λ st mem, (store_Store st mem).1) st (handed_over m userID clock traces),
       clock + length traces).
Proof.
  induction traces as [|trace traces IH]; intros st clock.
  - simpl. by rewrite Nat.add_0_r.
  - cbn [record_each]. unfold handed_over. cbn [length seq zip zip_with]. csimpl.
    change (FormatForEmbedding
              (NewTraceMemory clock userID (Engine.TraceSessionID trace) trace))
      with (trace_text trace).
    destruct (Embed (embedder m) (trace_text trace)) as [embedding|err].
    + destruct (store_Store st _) as [st1 err] eqn:Hstore.
      fold (memory_of clock userID trace embedding) in Hstore.
      rewrite IH. csimpl. rewrite Hstore.
      unfold handed_over. simpl. f_equal. lia.
    + rewrite IH. f_equal. lia.
Qed.

(** X26.  [Record] never returns an error, whatever the embedder and the
    store answer.  With the manager enabled it goes through the storable
    traces of the interaction in order, draws an identifier and a clock
    reading for each, and hands to the store, one after the other, the
    memory of every trace whose text the embedder embeds: a trace memory of
    the user with the session of the trace as conversation, made from the
    trace, with that embedding; a trace whose embedding fails is left out,
    and an error of the store changes nothing but the store.  A disabled
    manager hands over nothing and draws nothing. *)
Theorem Record_stores m userID interaction st clock :
  let storable :=
    if Enabled (config m) then filterStorableTraces (Traces interaction) else [] in
  let handed :=
    omap (λ '(draw, trace),
            match Embed (embedder m)
                    ("Thought: " +:+ Engine.Thought trace +:+ newline
                     +:+ "Action: " +:+ Engine.Action trace +:+ newline
                     +:+ "Observation: " +:+ Engine.Observation trace) with
            | Ok embedding => Some (memory_of draw userID trace embedding)
            | Err _ => None
            end)
         (zip (seq clock (length storable)) storable) in
  Record m userID interaction st clock
  = (foldl (λ st mem, (store_Store st mem).1) st handed, clock + length storable, None) ∧
  ∀ draw trace embedding,
    let mem := memory_of draw userID trace embedding in
    ID mem = uuid_New draw ∧ OwnerID mem = userID ∧
    ConversationID mem = Engine.TraceSessionID trace ∧ Type_ mem = "trace" ∧
    CreatedAt mem = time_Now draw ∧ Embedding mem = embedding ∧
    Content mem = AMap [("thought", AString (Engine.Thought trace));
                        ("action", AString (Engine.Action trace));
                        ("observation", AString (Engine.Observation trace));
                        ("success", ABool (Engine.TraceSuccess trace))].
Proof.
  cbv zeta. split; [|done].
  unfold Record. destruct (Enabled (config m)); simpl negb; cbv iota.
  - case_bool_decide as Hnone.
    + apply nil_length_inv in Hnone. rewrite Hnone. simpl. by rewrite Nat.add_0_r.
    + by rewrite record_each_hands_over.
  - simpl. by rewrite Nat.add_0_r.
Qed.

End record.

(** A store that keeps what it is handed, an embedder that fails on the
    text of traces of [get_balance], and two traces. *)
Definition failed_trace : Engine.Trace :=
  {| Engine.TraceID := "t1"; Engine.TraceSessionID := "s1"; Engine.TurnNumber := 1;
     Engine.Thought := "Send 50 to alice"; Engine.Action := "send_money";
     Engine.ActionInput := "{}"; Engine.Observation := "Failed: insufficient funds";
     Engine.TraceSuccess := false; Engine.Timestamp := 1700000000;
     Engine.Metadata := {[ "error" := "insufficient funds" ]} |}.

Definition balance_trace : Engine.Trace :=
  {| Engine.TraceID := "t0"; Engine.TraceSessionID := "s1"; Engine.TurnNumber := 1;
     Engine.Thought := "Check the balance"; Engine.Action := "get_balance";
     Engine.ActionInput := "{}"; Engine.Observation := "100.00";
     Engine.TraceSuccess := true; Engine.Timestamp := 1700000000;
     Engine.Metadata := ∅ |}.

Definition sample_manager : SimpleManager (list Memory) :=
  {| store := {| StoreQuery := λ st _ _ _, (st, Ok st) |};
     embedder :=
       {| Embed := λ text,
            if Engine.Contains text "Action: get_balance"
            then Err "embedder unavailable" else Ok [1%N];
          Dimensions := 1 |};
     config := {| Enabled := true; MinSimilarity := 0.5%float;
                  MaxMemoriesPerUser := 1000; DecayEnabled := false |} |}.

Definition sample_Record (interaction : Interaction)
  : list Memory * nat * option string :=
  Record (λ n, "mem-" +:+ pretty n) (λ n, Z.of_nat n) (λ s, s) (λ _, "?")
    (λ st mem, (st ++ [mem], None)) sample_manager "alice" interaction [] 0.

(** [filterStorableTraces_all_or_nothing]: the failed trace is kept. *)
Lemma filterStorableTraces_all_or_nothing_witness :
  filterStorableTraces [failed_trace] = [failed_trace].
Proof.
  apply (proj2 (proj2 (filterStorableTraces_all_or_nothing [failed_trace]))
           failed_trace eq_refl).
  by left.
Defined.

(** [Record_stores]: of the two traces, the first is not embedded; the
    second is stored as a memory of alice, under the second identifier
    drawn. *)
Lemma Record_stores_witness :
  ∃ st',
    sample_Record {| UserMessage := "send 50 to alice"; AssistantResponse := "Sorry.";
                     Traces := [balance_trace; failed_trace] |} = (st', 2, None) ∧
    (λ mem, (ID mem, OwnerID mem, ConversationID mem, Type_ mem)) <$> st'
    = [("mem-1", "alice", "s1", "trace")].
Proof.
  eexists. split.
  - exact (proj1 (Record_stores (λ n, "mem-" +:+ pretty n) (λ n, Z.of_nat n) (λ s, s)
                    (λ _, "?") (λ st mem, (st ++ [mem], None)) sample_manager "alice"
                    {| UserMessage := "send 50 to alice"; AssistantResponse := "Sorry.";
                       Traces := [balance_trace; failed_trace] |} [] 0)).
  - vm_compute. reflexivity.
Defined.

End Recording.

(* ===================================================================== *)
(** * memory/embedder/mock/mock.go *)
(* ===================================================================== *)

Module MockEmbedder.

(** [uint64] arithmetic wraps around at [2^64]; [int64(x)] reads the same
    bits as a signed number. *)
Definition wrap64 (z : Z) : Z := (z mod 2 ^ 64)%Z.

Definition int64 (z : Z) : Z :=
  (if bool_decide (wrap64 z < 2 ^ 63) then wrap64 z else wrap64 z - 2 ^ 64)%Z.

Definition bytes (text : string) : list Z :=
  (λ c, Z.of_nat (Ascii.nat_of_ascii c)) <$> String.list_ascii_of_string text.

(** [fnv.New64a()], [Write], [Sum64]: FNV-1a over the bytes of the text. *)
Definition fnv64a (text : string) : Z :=
  foldl (λ hash b, wrap64 (Z.lxor hash b * 1099511628211))
        14695981039346656037%Z (bytes text).

(** The linear congruential generator of the loop in [Embed]. *)
Definition lcg (seed : Z) : Z :=
  wrap64 (seed * 6364136223846793005 + 1442695040888963407).

Section floats.
(** The [float32] operations of the Go code: conversion from [int64],
    division, multiplication, addition, the square root taken through
    [float64], the test against zero, and [float32(math.MaxInt64)]. *)
Variable f32_of_int64 : Z → float32.
Variable f32_div : float32 → float32 → float32.
Variable f32_mul : float32 → float32 → float32.
Variable f32_add : float32 → float32 → float32.
Variable f32_sqrt : float32 → float32.
Variable f32_is_zero : float32 → bool.
Variable maxInt64 : float32.

(** The loop filling [embedding[i]] for [i] below [dimensions]. *)
Fixpoint generate (dimensions : nat) (seed : Z) : list float32 :=
  match dimensions with
  | 0 => []
  | S dimensions =>
      let seed := lcg seed in
      (* Convert to [-1, 1] range *)
      let val := f32_div (f32_of_int64 (int64 seed)) maxInt64 in
      val :: generate dimensions seed
  end.

(** [normalize(vec)] *)
Definition normalize (vec : list float32) : list float32 :=
  let norm := foldl (λ norm v, f32_add norm (f32_mul v v)) 0%N vec in
  if f32_is_zero norm then vec
  else
    let norm := f32_sqrt norm in
    (λ v, f32_div v norm) <$> vec.

(** [MockEmbedder.Embed(ctx, text)], with [dimensions = 384] as [New] sets
    it. *)
Definition Embed (text : string) : list float32 :=
  normalize (generate 384 (fnv64a text)).

Lemma generate_length dimensions seed : length (generate dimensions seed) = dimensions.
Proof. revert seed. induction dimensions as [|n IH]; intros seed; simpl; [done|]. by rewrite IH. Qed.

(** X27.  [Embed] returns a vector of as many elements as [Dimensions]
    reports, 384, whatever the text is and whichever branch [normalize]
    takes. *)
Lemma Embed_length text : length (Embed text) = 384.
Proof.
  unfold Embed, normalize. destruct (f32_is_zero _).
  - apply generate_length.
  - rewrite length_fmap. apply generate_length.
Qed.

End floats.
(** ** The [float32] arithmetic of the Go code

    IEEE-754 binary32: 24 bits of precision, exponents up to 128, every
    operation rounded to the nearest value, ties to even.  Each operation is
    rounded on its own, as Go compiles [norm += v * v] where it does not
    fuse the multiplication and the addition (amd64). *)

(** The value that a bit pattern stands for: the sign in bit 31, the biased
    exponent in bits 23 to 30, the fraction in bits 0 to 22. *)
Definition decode (bits : float32) : spec_float :=
  let sign := N.testbit bits 31 in
  let exponent := Z.of_N (N.land (N.shiftr bits 23) 255) in
  let fraction := Z.of_N (N.land bits (2 ^ 23 - 1)) in
  if (exponent =? 0)%Z then
    match fraction with
    | Z.pos m => S754_finite sign m (-149)
    | _ => S754_zero sign
    end
  else if (exponent =? 255)%Z then
    if (fraction =? 0)%Z then S754_infinity sign else S754_nan
  else
    match (fraction + 2 ^ 23)%Z with
    | Z.pos m => S754_finite sign m (exponent - 150)
    | _ => S754_nan
    end.

(** The bit pattern of a value of binary32. *)
Definition encode (f : spec_float) : float32 :=
  let sign (s : bool) : N := if s then (2 ^ 31)%N else 0%N in
  match f with
  | S754_zero s => sign s
  | S754_infinity s => (sign s + 255 * 2 ^ 23)%N
  | S754_nan => (255 * 2 ^ 23 + 2 ^ 22)%N
  | S754_finite s m e => (sign s + Z.to_N ((e + 149) * 2 ^ 23 + Z.pos m))%N
  end.

(** [float32(x)] of an [int64]. *)
Definition f32_of_int64 (z : Z) : float32 :=
  encode (binary_normalize 24 128 z 0 false).

(** [float32(math.MaxInt64)], the conversion of the constant [2^63 - 1]. *)
Definition maxInt64 : float32 :=
  encode (binary_normalize 24 128 (2 ^ 63 - 1) 0 false).

Definition f32_div (x y : float32) : float32 :=
  encode (SFdiv 24 128 (decode x) (decode y)).

Definition f32_mul (x y : float32) : float32 :=
  encode (SFmul 24 128 (decode x) (decode y)).

Definition f32_add (x y : float32) : float32 :=
  encode (SFadd 24 128 (decode x) (decode y)).

(** [float64(x)] of a [float32], which is exact, and [float32(x)] of a
    [float64], which rounds. *)
Definition f64_of_f32 (x : float32) : spec_float :=
  match decode x with
  | S754_finite s m e => binary_normalize 53 1024 (cond_Zopp s (Z.pos m)) e s
  | f => f
  end.

Definition f32_of_f64 (f : spec_float) : float32 :=
  encode match f with
         | S754_finite s m e => binary_normalize 24 128 (cond_Zopp s (Z.pos m)) e s
         | f => f
         end.

(** [float32(math.Sqrt(float64(x)))] *)
Definition f32_sqrt (x : float32) : float32 :=
  f32_of_f64 (SFsqrt 53 1024 (f64_of_f32 x)).

(** [x == 0] *)
Definition f32_is_zero (x : float32) : bool :=
  match decode x with
  | S754_zero _ => true
  | _ => false
  end.

(** [Embed] and its parts in this arithmetic. *)
Definition generate32 : nat → Z → list float32 :=
  generate f32_of_int64 f32_div maxInt64.

Definition normalize32 : list float32 → list float32 :=
  normalize f32_div f32_mul f32_add f32_sqrt f32_is_zero.

Definition Embed32 : string → list float32 :=
  Embed f32_of_int64 f32_div f32_mul f32_add f32_sqrt f32_is_zero maxInt64.

Import QArith_base Qreduction.
#[local] Close Scope Q_scope.

(** The number that a [float32] stands for, when it is finite. *)
Definition finite (x : float32) : bool :=
  match decode x with
  | S754_zero _ | S754_finite _ _ _ => true
  | _ => false
  end.

Definition value (x : float32) : Q :=
  match decode x with
  | S754_finite s m e => (inject_Z (cond_Zopp s (Z.pos m)) * Qpower 2 e)%Q
  | _ => 0%Q
  end.

(** The square of the L2 norm of a vector, as a number kept in lowest
    terms: the norm is 1 when its square is. *)
Definition squared_norm (vec : list float32) : Q :=
  foldr (λ v sum, Qred (value v * value v + sum)%Q) 0%Q vec.




End MockEmbedder.
